(** * krwl: the event curation pipeline

    A shallow embedding of the curation core of the krwl events manager:
    the per-source dedup cache ([source_cache.py]), the similarity matcher
    and the review loop of the editor ([editor.py]), the haversine distance
    ([utils.py]), the readers of labels and titles of the course scraper
    ([vhs.py]), and the two collaborators whose code lives elsewhere (the
    stable id generator and the entity coverage analysis).

    Conventions of the embedding.
    - A Python [str] is a [string] whose characters are the code points
      below 256 (Latin-1): [str.lower], [str.split], [str.strip] and the
      classes [\s] and [\d] of a regular expression are what Python has
      on these code points; text with code points from 256 on is outside
      the model.
    - A Python [int] is a [Z].  A Python [float] is a binary64 number, a
      [float] of Rocq: module [Binary64] has the score of the matcher and
      the distance as Python computes them, rounding and exceptions
      included, the functions of the C library being parameters.  Modules
      [Utils] and [Similarity] have the formulas the code writes over the
      reals and the rationals, without rounding: what they say of the code
      holds up to rounding only.
    - An event dict is a record whose fields are optional: [None] stands for
      an absent key, as read by [dict.get].
    - Files are fields of a [World] record; a function that touches them is
      a state transformer that may raise.
    - Code that is imported by the sources but is not among them is a
      parameter of the definitions that call it, or is modelled from the
      specification and marked so. *)

From Stdlib Require Import List String Ascii Bool Arith ZArith QArith Reals.
From Stdlib Require Import Lia Lra Permutation Sorted Floats.
From Stdlib Require Lqa.
Import ListNotations.

Close Scope Q_scope.
Open Scope list_scope.

(* ================================================================== *)
(** * Part I: the program *)
(* ================================================================== *)

(** ** Python built-ins used by the sources *)

Module Py.

Definition chars : Type := list ascii.

Definition code (c : ascii) : nat := nat_of_ascii c.

(** [str.isspace] on the code points below 256: TAB..CR, FS..US, the
    blank, NEL (133) and the no-break space (160).  The same characters are
    the [\s] of a regular expression and what [str.strip] and [str.split]
    take for blanks. *)
Definition is_space (c : ascii) : bool :=
  let n := code c in
  ((9 <=? n) && (n <=? 13)) || ((28 <=? n) && (n <=? 32))
  || (n =? 133) || (n =? 160).

(** The characters that [str.lower] changes, below 256: A..Z, and the
    capital letters of Latin-1 (192..222 but for the multiplication sign,
    215); each goes 32 places up. *)
Definition is_upper (c : ascii) : bool :=
  let n := code c in
  ((65 <=? n) && (n <=? 90))
  || ((192 <=? n) && (n <=? 214)) || ((216 <=? n) && (n <=? 222)).

Definition is_digit (c : ascii) : bool :=
  let n := code c in (48 <=? n) && (n <=? 57).

(** [string.punctuation]: the printable ASCII characters that are neither
    alphanumeric nor blank. *)
Definition is_punct (c : ascii) : bool :=
  let n := code c in
  ((33 <=? n) && (n <=? 47)) || ((58 <=? n) && (n <=? 64)) ||
  ((91 <=? n) && (n <=? 96)) || ((123 <=? n) && (n <=? 126)).

Definition lower_char (c : ascii) : ascii :=
  if is_upper c then ascii_of_nat (code c + 32) else c.

(** [s.lower()] *)
Definition lower_chars (s : chars) : chars := map lower_char s.
Definition lower (s : string) : string :=
  string_of_list_ascii (lower_chars (list_ascii_of_string s)).

(** [s.split()]: the maximal runs of non-blank characters.  [cur] is the
    run being read, most recent character first. *)
Definition flush (cur : chars) (k : list chars) : list chars :=
  match cur with [] => k | _ :: _ => rev cur :: k end.

Fixpoint split_run (cur : chars) (s : chars) : list chars :=
  match s with
  | [] => flush cur []
  | c :: s' =>
      if is_space c then flush cur (split_run [] s')
      else split_run (c :: cur) s'
  end.

Definition split_chars (s : chars) : list chars := split_run [] s.
Definition split (s : string) : list string :=
  map string_of_list_ascii (split_chars (list_ascii_of_string s)).

(** [s.split(sep)] for a one-character separator: empty fields are kept. *)
Fixpoint split_on_run (sep : ascii) (cur : chars) (s : chars) : list chars :=
  match s with
  | [] => [rev cur]
  | c :: s' =>
      if Ascii.eqb c sep then rev cur :: split_on_run sep [] s'
      else split_on_run sep (c :: cur) s'
  end.

Definition split_on (sep : ascii) (s : string) : list string :=
  map string_of_list_ascii (split_on_run sep [] (list_ascii_of_string s)).

(** [s.split(sep, 1)]: cut at the first separator only. *)
Fixpoint split_once_run (sep : ascii) (cur : chars) (s : chars) : list chars :=
  match s with
  | [] => [rev cur]
  | c :: s' =>
      if Ascii.eqb c sep then [rev cur; s']
      else split_once_run sep (c :: cur) s'
  end.

Definition split_once (sep : ascii) (s : string) : list string :=
  map string_of_list_ascii (split_once_run sep [] (list_ascii_of_string s)).

(** [s.strip()] *)
Fixpoint lstrip_chars (s : chars) : chars :=
  match s with
  | [] => []
  | c :: s' => if is_space c then lstrip_chars s' else s
  end.

Definition strip_chars (s : chars) : chars :=
  rev (lstrip_chars (rev (lstrip_chars s))).

Definition strip (s : string) : string :=
  string_of_list_ascii (strip_chars (list_ascii_of_string s)).

(** [sep.join(parts)] *)
Fixpoint join_chars (sep : chars) (parts : list chars) : chars :=
  match parts with
  | [] => []
  | [p] => p
  | p :: rest => p ++ sep ++ join_chars sep rest
  end.

(** [p in s] on strings: [p] occurs in [s] as a contiguous block. *)
Fixpoint starts_with_chars (p s : chars) : bool :=
  match p, s with
  | [], _ => true
  | _ :: _, [] => false
  | a :: p', b :: s' => Ascii.eqb a b && starts_with_chars p' s'
  end.

Fixpoint contains_chars (p s : chars) : bool :=
  starts_with_chars p s ||
  match s with
  | [] => false
  | _ :: s' => contains_chars p s'
  end.

Definition startswith (s p : string) : bool :=
  starts_with_chars (list_ascii_of_string p) (list_ascii_of_string s).

Definition contains (p s : string) : bool :=
  contains_chars (list_ascii_of_string p) (list_ascii_of_string s).

(** Truth value of a string: non-empty. *)
Definition truthy (s : string) : bool :=
  match s with EmptyString => false | String _ _ => true end.

(** [d.get(key, '')] on an optional string field. *)
Definition get_str (o : option string) : string :=
  match o with Some s => s | None => EmptyString end.

(** [s[:n]] for a non-negative [n]. *)
Definition prefix_n (n : nat) (s : string) : string :=
  string_of_list_ascii (firstn n (list_ascii_of_string s)).

(** [int(s)]: blanks around, an optional sign, then decimal digits, with
    single underscores allowed between two digits.  Anything else raises
    [ValueError] ([None]), and so does a numeral of more than 4300 digits
    (the default limit of CPython 3.11 and later).  Below 256 the decimal
    digits are 0..9. *)
Definition digit (c : ascii) : Z := Z.of_nat (code c - 48).

Fixpoint digits_value (acc : Z) (s : chars) : option Z :=
  match s with
  | [] => Some acc
  | c :: s' =>
      if is_digit c then digits_value (10 * acc + digit c) s'
      else if Ascii.eqb c "_" then
        match s' with
        | d :: _ => if is_digit d then digits_value acc s' else None
        | [] => None
        end
      else None
  end.

Definition unsigned_int (s : chars) : option Z :=
  match s with
  | [] => None
  | c :: _ =>
      if is_digit c && (List.length (filter is_digit s) <=? 4300)
      then digits_value 0 s
      else None
  end.

Definition int_chars (s : chars) : option Z :=
  match strip_chars s with
  | "-"%char :: ds => option_map Z.opp (unsigned_int ds)
  | "+"%char :: ds => unsigned_int ds
  | ds => unsigned_int ds
  end.

Definition int (s : string) : option Z := int_chars (list_ascii_of_string s).

(** [range(a, b)] *)
Definition range (a b : Z) : list Z :=
  map (fun k => (a + Z.of_nat k)%Z) (seq 0 (Z.to_nat (b - a))).

(** Index normalisation of [l[i]] and [l.pop(i)]: a negative index counts
    from the end, anything outside raises [IndexError] ([None]). *)
Definition index {A} (l : list A) (i : Z) : option nat :=
  let n := Z.of_nat (List.length l) in
  if (0 <=? i)%Z && (i <? n)%Z then Some (Z.to_nat i)
  else if (- n <=? i)%Z && (i <? 0)%Z then Some (Z.to_nat (n + i))
  else None.

Definition remove_nth {A} (k : nat) (l : list A) : list A :=
  firstn k l ++ skipn (S k) l.

(** [l[start:]] *)
Definition slice_from {A} (start : Z) (l : list A) : list A :=
  let n := Z.of_nat (List.length l) in
  if (start <? 0)%Z then skipn (Z.to_nat (Z.max 0 (n + start))) l
  else skipn (Z.to_nat (Z.min start n)) l.

(** Membership, intersection and cardinality of a [set] of strings. *)
Definition mem_str (x : string) (l : list string) : bool :=
  existsb (String.eqb x) l.

Definition to_set (l : list string) : list string := nodup string_dec l.

Definition inter (a b : list string) : list string :=
  filter (fun x => mem_str x b) a.

End Py.

(** ** [source_cache.py]: the per-source dedup cache *)

Module SourceCache.

(** The dataclass [SourceCache]. *)
Record t := mk {
  cache_path : option string;
  max_entries : Z;
  processed_keys : list string
}.

Definition set_keys (c : t) (keys : list string) : t :=
  mk (cache_path c) (max_entries c) keys.

(** A cache as the constructor leaves it: [processed_keys] defaults to
    the empty list. *)
Definition fresh (path : option string) (cap : Z) : t := mk path cap [].

Definition is_processed (key : string) (c : t) : bool :=
  Py.mem_str key (processed_keys c).

Definition mark_processed (key : string) (c : t) : t :=
  if Py.mem_str key (processed_keys c) then c
  else
    let keys := processed_keys c ++ [key] in
    if (max_entries c <? Z.of_nat (List.length keys))%Z
    then set_keys c (Py.slice_from (- max_entries c) keys)
    else set_keys c keys.

Definition mark_all (keys : list string) (c : t) : t :=
  fold_left (fun acc k => mark_processed k acc) keys c.

(** What [json.loads] can return. *)
#[warnings="-register-all"]
Inductive json :=
| JNull
| JBool (b : bool)
| JNum (q : Q)
| JStr (s : string)
| JArr (items : list json)
| JObj (fields : list (string * json)).

(** What [json.loads(path.read_text(encoding="utf-8"))] does on an
    existing file: the read fails, the bytes are not UTF-8, the text is
    not JSON, or a value comes back. *)
Inductive read_outcome :=
| ReadOSError
| ReadUnicodeDecodeError
| ReadJSONDecodeError
| Decoded (v : json).

(** The disk: [None] where no file exists. *)
Definition disk : Type := string -> option read_outcome.

Inductive exn := UnicodeDecodeError | AttributeError.

(** Outcome of [load]: it returns with the cache in some state, it returns
    having bound [processed_keys] to a value that is not a list of strings,
    or an exception leaves it. *)
Inductive load_outcome :=
| Returned (c : t)
| ReturnedIllTyped (v : json)
| Raised (e : exn).

(** [dict.get(key, default)] on a decoded object. *)
Fixpoint dict_get (key : string) (fields : list (string * json)) (default : json) : json :=
  match fields with
  | [] => default
  | (k, v) :: rest => if String.eqb k key then v else dict_get key rest default
  end.

Fixpoint as_strings (items : list json) : option (list string) :=
  match items with
  | [] => Some []
  | JStr s :: rest => option_map (cons s) (as_strings rest)
  | _ :: _ => None
  end.

Definition load (fs : disk) (c : t) : load_outcome :=
  match cache_path c with
  | None => Returned c
  | Some path =>
      match fs path with
      | None => Returned c
      | Some ReadOSError => Returned c
      | Some ReadJSONDecodeError => Returned c
      | Some ReadUnicodeDecodeError => Raised UnicodeDecodeError
      | Some (Decoded (JObj fields)) =>
          match dict_get "processed_keys" fields (JArr []) with
          | JArr items =>
              match as_strings items with
              | Some keys => Returned (set_keys c keys)
              | None => ReturnedIllTyped (JArr items)
              end
          | v => ReturnedIllTyped v
          end
      | Some (Decoded _) => Raised AttributeError
      end
  end.

(** [save]: nothing without a path; otherwise the payload replaces the file
    at [cache_path] (the write is taken to succeed, and [json.loads] to give
    back what [json.dumps] wrote).  [now] is [datetime.now().isoformat()]. *)
Definition payload (now : string) (c : t) : json :=
  JObj [("processed_keys"%string, JArr (map JStr (processed_keys c)));
        ("updated_at"%string, JStr now)].

Definition save (now : string) (fs : disk) (c : t) : disk :=
  match cache_path c with
  | None => fs
  | Some path =>
      fun p => if String.eqb p path then Some (Decoded (payload now c)) else fs p
  end.

End SourceCache.

(** ** The event record *)

Module Location.
Record t := mk {
  name : option string;
  lat : option Q;
  lon : option Q
}.
End Location.

Module Event.
Record t := mk {
  id : option string;
  title : option string;
  description : option string;
  location : option Location.t;
  start_time : option string;
  end_time : option string;
  url : option string;
  source : option string;
  status : option string;
  published_at : option string
}.

(** [event.get('location', {}).get(field)] *)
Definition location_name (e : t) : option string :=
  match location e with Some l => Location.name l | None => None end.
Definition location_lat (e : t) : option Q :=
  match location e with Some l => Location.lat l | None => None end.
Definition location_lon (e : t) : option Q :=
  match location e with Some l => Location.lon l | None => None end.

(** [event[key] = value] *)
Definition set_title (v : string) (e : t) : t :=
  mk (id e) (Some v) (description e) (location e) (start_time e) (end_time e)
     (url e) (source e) (status e) (published_at e).
Definition set_description (v : string) (e : t) : t :=
  mk (id e) (title e) (Some v) (location e) (start_time e) (end_time e)
     (url e) (source e) (status e) (published_at e).
Definition set_location (v : Location.t) (e : t) : t :=
  mk (id e) (title e) (description e) (Some v) (start_time e) (end_time e)
     (url e) (source e) (status e) (published_at e).
Definition set_start_time (v : string) (e : t) : t :=
  mk (id e) (title e) (description e) (location e) (Some v) (end_time e)
     (url e) (source e) (status e) (published_at e).
Definition set_end_time (v : string) (e : t) : t :=
  mk (id e) (title e) (description e) (location e) (start_time e) (Some v)
     (url e) (source e) (status e) (published_at e).
Definition set_url (v : string) (e : t) : t :=
  mk (id e) (title e) (description e) (location e) (start_time e) (end_time e)
     (Some v) (source e) (status e) (published_at e).

(** [if 'location' not in event: event['location'] = {}] *)
Definition ensure_location (e : t) : t :=
  match location e with
  | Some _ => e
  | None => set_location (Location.mk None None None) e
  end.

(** [event['location'][key] = value], the location being there. *)
Definition set_location_name (v : string) (e : t) : t :=
  match location e with
  | Some l => set_location (Location.mk (Some v) (Location.lat l) (Location.lon l)) e
  | None => e
  end.
Definition set_location_lat (v : Q) (e : t) : t :=
  match location e with
  | Some l => set_location (Location.mk (Location.name l) (Some v) (Location.lon l)) e
  | None => e
  end.
Definition set_location_lon (v : Q) (e : t) : t :=
  match location e with
  | Some l => set_location (Location.mk (Location.name l) (Location.lat l) (Some v)) e
  | None => e
  end.
End Event.

(** ** [utils.py]: the haversine distance over the reals, and the next sunrise *)

Module Utils.
Local Open Scope R_scope.

Definition radians (deg : R) : R := deg * (PI / 180).

(** [math.atan2(y, x)] *)
Definition atan2 (y x : R) : R :=
  if Rlt_dec 0 x then atan (y / x)
  else if Rlt_dec x 0 then
    (if Rle_dec 0 y then atan (y / x) + PI else atan (y / x) - PI)
  else if Rlt_dec 0 y then PI / 2
  else if Rlt_dec y 0 then - (PI / 2)
  else 0.

Definition calculate_distance (lat1 lon1 lat2 lon2 : R) : R :=
  let R := 6371 in
  let lat1_rad := radians lat1 in
  let lon1_rad := radians lon1 in
  let lat2_rad := radians lat2 in
  let lon2_rad := radians lon2 in
  let dlon := lon2_rad - lon1_rad in
  let dlat := lat2_rad - lat1_rad in
  let a := (sin (dlat / 2)) ^ 2
           + cos lat1_rad * cos lat2_rad * (sin (dlon / 2)) ^ 2 in
  let c := 2 * atan2 (R_sqrt.sqrt a) (R_sqrt.sqrt (1 - a)) in
  R * c.

(** A naive [datetime]: the day counted from some origin and the time of
    day. *)
Record datetime := mk_datetime {
  day : Z;
  hour : nat;
  minute : nat;
  second : nat;
  microsecond : nat
}.

(** [now.replace(hour=6, minute=0, second=0, microsecond=0)] and
    [+ timedelta(days=1)] *)
Definition at_six (d : datetime) : datetime := mk_datetime (day d) 6 0 0 0.
Definition add_day (d : datetime) : datetime :=
  mk_datetime (day d + 1) (hour d) (minute d) (second d) (microsecond d).

(** [get_next_sunrise(lat, lon)], [now] being [datetime.now()]. *)
Definition get_next_sunrise (lat lon : R) (now : datetime) : datetime :=
  let tomorrow := at_six now in
  if (6 <=? hour now)%nat then add_day tomorrow else tomorrow.

End Utils.

(** ** [editor.py]: the score of the similarity matcher, without rounding *)

Module Similarity.
Local Open Scope Q_scope.

Definition weight_title : Q := 6 # 10.
Definition weight_location : Q := 3 # 10.
Definition weight_location_partial : Q := 15 # 100.
Definition weight_proximity : Q := 1 # 10.
Definition threshold : Q := 3 # 10.

Definition of_nat (n : nat) : Q := inject_Z (Z.of_nat n).

(** Truth value of a coordinate read with [dict.get]: [None] and zero are
    false. *)
Definition truthy_num (x : option Q) : bool :=
  match x with
  | None => false
  | Some q => negb (Qeq_bool q 0)
  end.

Definition coord (x : option Q) : R :=
  match x with Some q => Q2R q | None => 0%R end.

(** [calculate_distance(...) < 1.0].  The call sits in a [try] whose
    [except] passes; with numbers for coordinates there is nothing to
    catch over the reals, where the term under the square roots stays
    between 0 and 1. *)
Definition within_1km (lat1 lon1 lat2 lon2 : option Q) : bool :=
  if Rlt_dec (Utils.calculate_distance (coord lat1) (coord lon1)
                                       (coord lat2) (coord lon2)) 1
  then true else false.

(** The three increments of the loop body, in the order the code adds
    them. *)
Definition title_component (event_title hist_title : string) : Q :=
  if Py.truthy hist_title && Py.truthy event_title then
    let event_words := Py.to_set (Py.split event_title) in
    let hist_words := Py.to_set (Py.split hist_title) in
    match event_words, hist_words with
    | _ :: _, _ :: _ =>
        let common_words := Py.inter event_words hist_words in
        let title_score :=
          of_nat (List.length common_words)
          / of_nat (Nat.max (List.length event_words) (List.length hist_words)) in
        title_score * weight_title
    | _, _ => 0
    end
  else 0.

Definition location_component (event_location hist_location : string) : Q :=
  if Py.truthy hist_location && Py.truthy event_location then
    if Py.contains event_location hist_location
       || Py.contains hist_location event_location
    then weight_location
    else if existsb (fun word => Py.contains word hist_location)
                    (Py.split event_location)
    then weight_location_partial
    else 0
  else 0.

Definition proximity_component (event_lat event_lon hist_lat hist_lon : option Q) : Q :=
  if forallb truthy_num [event_lat; event_lon; hist_lat; hist_lon] then
    if within_1km event_lat event_lon hist_lat hist_lon
    then weight_proximity
    else 0
  else 0.

(** The score of one historical event, accumulated from [0.0]. *)
Definition pair_score (event historical : Event.t) : Q :=
  let event_title := Py.lower (Py.get_str (Event.title event)) in
  let event_location := Py.lower (Py.get_str (Event.location_name event)) in
  let event_lat := Event.location_lat event in
  let event_lon := Event.location_lon event in
  let score := 0 in
  let hist_title := Py.lower (Py.get_str (Event.title historical)) in
  let score := score + title_component event_title hist_title in
  let hist_location := Py.lower (Py.get_str (Event.location_name historical)) in
  let score := score + location_component event_location hist_location in
  let hist_lat := Event.location_lat historical in
  let hist_lon := Event.location_lon historical in
  let score := score + proximity_component event_lat event_lon hist_lat hist_lon in
  score.

End Similarity.

(** ** The similarity matcher and the distance in binary64

    Python's [float] is the binary64 format, and the score and the distance
    are computed in it.  The functions of the C library that the [math]
    module calls, which no standard fixes to the last bit, are parameters:
    [libm_sin], [libm_cos], [libm_atan2] and [libm_pow]; what CPython does
    around them is modelled. *)
Module Binary64.
Local Open Scope float_scope.

Inductive outcome :=
| Value (x : float)
| ValueError
| OverflowError.

Definition bind (o : outcome) (k : float -> outcome) : outcome :=
  match o with
  | Value x => k x
  | ValueError => ValueError
  | OverflowError => OverflowError
  end.

Notation "'let!' x := o 'in' k" := (bind o (fun x => k))
  (at level 10, x name, o at level 100, k at level 200).

(** The quotient of two positive integers, rounded to the nearest float:
    [a / b] on two [int]s, and the float that a numeral denotes. *)
Definition ratio (a b : positive) : float :=
  SF2Prim (SF64div (S754_finite false a 0) (S754_finite false b 0)).

(** [a / b] for [a >= 0] and [b >= 1]. *)
Definition true_divide (a b : nat) : float :=
  match a with
  | O => 0
  | S _ => ratio (Pos.of_nat a) (Pos.of_nat b)
  end.

(** The float of a number read from JSON, which is the nearest one.  (A
    number beyond the floats fails the test of the coordinates either
    way: as an [int] it raises [OverflowError] in [math.radians], as an
    infinity its sine is a domain error.) *)
Definition of_Q (q : Q) : float :=
  match Qnum q with
  | Z0 => 0
  | Zpos n => ratio n (Qden q)
  | Zneg n => - ratio n (Qden q)
  end.

Definition coord (x : option Q) : option float := option_map of_Q x.

(** [math.pi] and the factor of [math.radians]. *)
Definition pi : float := 0x1.921fb54442d18p+1.
Definition deg_to_rad : float := pi / 180.
Definition radians (x : float) : float := x * deg_to_rad.

(** [copysign(x, y)] *)
Definition copysign (x y : float) : float :=
  if get_sign y then - abs x else abs x.

Section Libm.

Variables libm_sin libm_cos : float -> float.
Variables libm_atan2 libm_pow : float -> float -> float.

(** [math_1] of CPython, for a function that cannot overflow: a NaN out of
    a number and an infinity out of a finite number are domain errors.
    ([errno] is left out: CPython ignores a range error on a result below
    1.5.) *)
Definition math_1 (f : float -> float) (x : float) : outcome :=
  let r := f x in
  if is_nan r && negb (is_nan x) then ValueError
  else if is_infinity r && is_finite x then ValueError
  else Value r.

Definition sin : float -> outcome := math_1 libm_sin.
Definition cos : float -> outcome := math_1 libm_cos.
Definition sqrt : float -> outcome := math_1 PrimFloat.sqrt.

(** [m_atan2] and [math_2] of CPython: the special values are decided
    before the C library is asked. *)
Definition m_atan2 (y x : float) : float :=
  if is_nan x || is_nan y then nan
  else if is_infinity y then
    if is_infinity x then
      if get_sign x then copysign (0.75 * pi) y else copysign (0.25 * pi) y
    else copysign (0.5 * pi) y
  else if is_infinity x || (y =? 0) then
    if get_sign x then copysign pi y else copysign 0 y
  else libm_atan2 y x.

Definition atan2 (y x : float) : outcome :=
  let r := m_atan2 y x in
  if is_nan r then
    if is_nan x || is_nan y then Value r else ValueError
  else if is_infinity r && is_finite x && is_finite y then OverflowError
  else Value r.

(** [x ** 2], which is [float_pow] of CPython at the exponent [2.0]: the
    special values and the sign are decided before the C library is
    asked, and an infinite power of a finite number is a range error. *)
Definition square (iv : float) : outcome :=
  if is_nan iv then Value iv
  else if is_infinity iv then Value (abs iv)
  else if iv =? 0 then Value 0
  else
    let iv := if iv <? 0 then - iv else iv in
    if iv =? 1 then Value 1
    else
      let ix := libm_pow iv 2 in
      if is_infinity ix then OverflowError else Value ix.

(** [utils.py]: [calculate_distance], on floats. *)
Definition calculate_distance (lat1 lon1 lat2 lon2 : float) : outcome :=
  let R := 6371 in
  let lat1_rad := radians lat1 in
  let lon1_rad := radians lon1 in
  let lat2_rad := radians lat2 in
  let lon2_rad := radians lon2 in
  let dlon := lon2_rad - lon1_rad in
  let dlat := lat2_rad - lat1_rad in
  let! s1 := sin (dlat / 2) in
  let! q1 := square s1 in
  let! c1 := cos lat1_rad in
  let! c2 := cos lat2_rad in
  let! s2 := sin (dlon / 2) in
  let! q2 := square s2 in
  let a := q1 + c1 * c2 * q2 in
  let! y := sqrt a in
  let! x := sqrt (1 - a) in
  let! t := atan2 y x in
  let c := 2 * t in
  Value (R * c).

(** Truth value of a coordinate: [None] and zero are false. *)
Definition truthy_num (x : option float) : bool :=
  match x with
  | None => false
  | Some v => negb (v =? 0)
  end.

(** The last test of the loop body: [all([...])], and then
    [distance < 1.0] in a [try] whose [except] passes. *)
Definition near (event_lat event_lon hist_lat hist_lon : option float) : bool :=
  if forallb truthy_num [event_lat; event_lon; hist_lat; hist_lon] then
    match event_lat, event_lon, hist_lat, hist_lon with
    | Some event_lat, Some event_lon, Some hist_lat, Some hist_lon =>
        match calculate_distance event_lat event_lon hist_lat hist_lon with
        | Value distance => distance <? 1
        | ValueError | OverflowError => false
        end
    | _, _, _, _ => false
    end
  else false.

End Libm.

#[warnings="-inexact-float"]
Definition weight_title : float := 0.6.
#[warnings="-inexact-float"]
Definition weight_location : float := 0.3.
#[warnings="-inexact-float"]
Definition weight_location_partial : float := 0.15.
#[warnings="-inexact-float"]
Definition weight_proximity : float := 0.1.
#[warnings="-inexact-float"]
Definition threshold : float := 0.3.

(** The three increments of the loop body, each applied to the score so
    far. *)
Definition add_title (score : float) (event_title hist_title : string) : float :=
  if Py.truthy hist_title && Py.truthy event_title then
    let event_words := Py.to_set (Py.split event_title) in
    let hist_words := Py.to_set (Py.split hist_title) in
    match event_words, hist_words with
    | _ :: _, _ :: _ =>
        let common_words := Py.inter event_words hist_words in
        let title_score :=
          true_divide (List.length common_words)
                      (Nat.max (List.length event_words) (List.length hist_words)) in
        score + title_score * weight_title
    | _, _ => score
    end
  else score.

Definition add_location (score : float) (event_location hist_location : string) : float :=
  if Py.truthy hist_location && Py.truthy event_location then
    if Py.contains event_location hist_location
       || Py.contains hist_location event_location
    then score + weight_location
    else if existsb (fun word => Py.contains word hist_location)
                    (Py.split event_location)
    then score + weight_location_partial
    else score
  else score.

Definition add_proximity (score : float) (is_near : bool) : float :=
  if is_near then score + weight_proximity else score.

(** The score of one historical event, given how the test of the
    coordinates ends. *)
Definition accumulate (is_near : bool) (event historical : Event.t) : float :=
  let event_title := Py.lower (Py.get_str (Event.title event)) in
  let event_location := Py.lower (Py.get_str (Event.location_name event)) in
  let score := 0 in
  let hist_title := Py.lower (Py.get_str (Event.title historical)) in
  let score := add_title score event_title hist_title in
  let hist_location := Py.lower (Py.get_str (Event.location_name historical)) in
  let score := add_location score event_location hist_location in
  add_proximity score is_near.

Record similar := mk_similar {
  event : Event.t;
  score : float
}.

(** [similar.sort(key=lambda x: x['score'], reverse=True)]: descending and
    stable.  No score in the list is a NaN, each being above the
    threshold. *)
Fixpoint insert_desc (x : similar) (l : list similar) : list similar :=
  match l with
  | [] => [x]
  | y :: l' =>
      if score x <? score y then y :: insert_desc x l'
      else x :: l
  end.

Definition sort_desc (l : list similar) : list similar :=
  fold_right insert_desc [] l.

Section Matcher.

Variables libm_sin libm_cos : float -> float.
Variables libm_atan2 libm_pow : float -> float -> float.

Definition pair_score (event historical : Event.t) : float :=
  let event_lat := coord (Event.location_lat event) in
  let event_lon := coord (Event.location_lon event) in
  let hist_lat := coord (Event.location_lat historical) in
  let hist_lon := coord (Event.location_lon historical) in
  accumulate (near libm_sin libm_cos libm_atan2 libm_pow
                   event_lat event_lon hist_lat hist_lon)
             event historical.

Definition candidates (event : Event.t) (historical_events : list Event.t) : list similar :=
  flat_map (fun historical =>
              let s := pair_score event historical in
              if threshold <? s then [mk_similar historical s] else [])
           historical_events.

Definition _find_similar_events (event : Event.t) (historical_events : list Event.t)
  : list similar :=
  match historical_events with
  | [] => []
  | _ :: _ => sort_desc (candidates event historical_events)
  end.

End Matcher.

End Binary64.

(** ** [editor.py]: the review state machine *)

Module Editor.

(** The exceptions that cross a function boundary in the editor.
    [Exhausted] is not a Python exception: it marks a loop of the model cut
    by its iteration bound. *)
Inductive exn :=
| ValueError (msg : string)
| IndexError
| EOFError
| Exhausted.

Record rejection := mk_rejection {
  rej_title : string;
  rej_source : string;
  rejected_at : string
}.

(** The console lines the model keeps: the numbered headings and the
    validation message. *)
Inductive output :=
| ReviewHeader (number total : nat) (e : Event.t)
| BatchRow (number : nat) (checked : bool) (e : Event.t)
| ValidationMessage (msg : string).

(** The files under [base_path] and the terminal. *)
Record World := mk_world {
  events : list Event.t;        (* events.json, key 'events' *)
  pending : list Event.t;       (* pending_events.json, key 'pending_events' *)
  rejected : list rejection;    (* rejected_events.json, key 'rejected_events' *)
  backups : list Event.t;       (* one backup file per published event *)
  historical : list Event.t;    (* what load_historical_events reads *)
  stdin : list string;          (* the lines the operator will type *)
  console : list output
}.

Inductive result (A : Type) :=
| Return (a : A)
| Raise (e : exn).
Arguments Return {A} a.
Arguments Raise {A} e.

Definition M (A : Type) : Type := World -> result A * World.

Definition ret {A} (a : A) : M A := fun w => (Return a, w).
Definition raise {A} (e : exn) : M A := fun w => (Raise e, w).
Definition bind {A B} (m : M A) (k : A -> M B) : M B :=
  fun w =>
    match m w with
    | (Return a, w') => k a w'
    | (Raise e, w') => (Raise e, w')
    end.

Notation "x <- m ;; k" := (bind m (fun x => k))
  (at level 61, m at next level, right associativity).
Notation "m ;; k" := (bind m (fun _ => k))
  (at level 61, right associativity).

Definition set_events (l : list Event.t) (w : World) : World :=
  mk_world l (pending w) (rejected w) (backups w) (historical w) (stdin w) (console w).
Definition set_pending (l : list Event.t) (w : World) : World :=
  mk_world (events w) l (rejected w) (backups w) (historical w) (stdin w) (console w).
Definition set_rejected (l : list rejection) (w : World) : World :=
  mk_world (events w) (pending w) l (backups w) (historical w) (stdin w) (console w).
Definition set_backups (l : list Event.t) (w : World) : World :=
  mk_world (events w) (pending w) (rejected w) l (historical w) (stdin w) (console w).
Definition set_stdin (l : list string) (w : World) : World :=
  mk_world (events w) (pending w) (rejected w) (backups w) (historical w) l (console w).
Definition set_console (l : list output) (w : World) : World :=
  mk_world (events w) (pending w) (rejected w) (backups w) (historical w) (stdin w) l.

(** [utils.py] *)
Definition load_events : M (list Event.t) := fun w => (Return (events w), w).
Definition save_events (events_data : list Event.t) : M unit :=
  fun w => (Return tt, set_events events_data w).
Definition load_pending_events : M (list Event.t) := fun w => (Return (pending w), w).
Definition save_pending_events (pending_data : list Event.t) : M unit :=
  fun w => (Return tt, set_pending pending_data w).
Definition load_historical_events : M (list Event.t) :=
  fun w => (Return (historical w), w).

(** [backup_published_event] is imported from [utils] but its body is not
    among the sources: it is taken to write one backup copy of the event. *)
Definition backup_published_event (event_dict : Event.t) : M unit :=
  fun w => (Return tt, set_backups (backups w ++ [event_dict]) w).

(** [update_events_in_html] is imported from [utils] as well; it renders
    the stores into a page and none of the stores changes. *)
Definition update_events_in_html : M unit := ret tt.

(** [input(prompt)] *)
Definition input : M string :=
  fun w =>
    match stdin w with
    | [] => (Raise EOFError, w)
    | line :: rest => (Return line, set_stdin rest w)
    end.

Definition print (o : output) : M unit :=
  fun w => (Return tt, set_console (console w ++ [o]) w).

(** A [set] of integers, kept without repetition. *)
Definition sel_mem (x : Z) (s : list Z) : bool := existsb (Z.eqb x) s.
Definition sel_add (x : Z) (s : list Z) : list Z :=
  if sel_mem x s then s else s ++ [x].
Definition sel_remove (x : Z) (s : list Z) : list Z :=
  filter (fun y => negb (Z.eqb x y)) s.
Definition sel_update (s : list Z) (xs : list Z) : list Z :=
  fold_left (fun acc x => sel_add x acc) xs s.

(** [sorted(selected, reverse=True)] and [sorted(selected)] *)
Fixpoint insert_z_desc (x : Z) (l : list Z) : list Z :=
  match l with
  | [] => [x]
  | y :: l' => if (y <=? x)%Z then x :: l else y :: insert_z_desc x l'
  end.
Definition sorted_desc (s : list Z) : list Z := fold_right insert_z_desc [] s.
Definition sorted_asc (s : list Z) : list Z := rev (sorted_desc s).

Definition or_else {A} (o d : option A) : option A :=
  match o with Some _ => o | None => d end.

(** [event.update(event_dict)]: every key of [event_dict] overwrites. *)
Definition update (event event_dict : Event.t) : Event.t :=
  Event.mk
    (or_else (Event.id event_dict) (Event.id event))
    (or_else (Event.title event_dict) (Event.title event))
    (or_else (Event.description event_dict) (Event.description event))
    (or_else (Event.location event_dict) (Event.location event))
    (or_else (Event.start_time event_dict) (Event.start_time event))
    (or_else (Event.end_time event_dict) (Event.end_time event))
    (or_else (Event.url event_dict) (Event.url event))
    (or_else (Event.source event_dict) (Event.source event))
    (or_else (Event.status event_dict) (Event.status event))
    (or_else (Event.published_at event_dict) (Event.published_at event)).

Definition publish_stamp (now : string) (e : Event.t) : Event.t :=
  Event.mk (Event.id e) (Event.title e) (Event.description e) (Event.location e)
           (Event.start_time e) (Event.end_time e) (Event.url e) (Event.source e)
           (Some "published"%string) (Some now).

Section WithCollaborators.

(** [models.validate_event_data(event).model_dump()]: the schema is not
    among the sources; [inl msg] is the [ValueError] it raises. *)
Variable validate_event_data : Event.t -> string + Event.t.

(** [float(text)], [None] on [ValueError]. *)
Variable parse_float : string -> option Q.

(** [datetime.now().isoformat()] *)
Variable now : string.

(** The normalisation of a rejection key; the spec names it and does not
    define it. *)
Variable normalize : string -> string.

(** Modelled from the spec: [add_rejected_event] is imported from [utils]
    but its body is not among the sources.  "Writes a Rejection Record keyed
    by normalized (title, source)", a record being a "normalized (title,
    source) pair" in the store
    [{ rejected_events: [{title, source, rejected_at}...] }]. *)
Definition add_rejected_event (event_title event_source : string) : M unit :=
  fun w =>
    (Return tt,
     set_rejected
       (rejected w ++ [mk_rejection (normalize event_title) (normalize event_source) now])
       w).

Definition _approve_event (event : Event.t) : M Event.t :=
  match validate_event_data event with
  | inr validated_event =>
      let event_dict := publish_stamp now validated_event in
      backup_published_event event_dict ;;
      events_data <- load_events ;;
      save_events (events_data ++ [event_dict]) ;;
      ret (update event event_dict)
  | inl e =>
      print (ValidationMessage e) ;;
      raise (ValueError e)
  end.

Definition _reject_event (event : Event.t) : M unit :=
  let event_title := Py.get_str (Event.title event) in
  let event_source := Py.get_str (Event.source event) in
  if Py.truthy event_title && Py.truthy event_source
  then add_rejected_event event_title event_source
  else ret tt.

(** One prompt of [_edit_event]: the stripped answer replaces the field when
    it is not empty. *)
Definition edit_field (set : string -> Event.t -> Event.t) (event : Event.t) : M Event.t :=
  line <- input ;;
  let answer := Py.strip line in
  ret (if Py.truthy answer then set answer event else event).

Definition edit_coordinate (set : Q -> Event.t -> Event.t) (event : Event.t) : M Event.t :=
  line <- input ;;
  let answer := Py.strip line in
  if Py.truthy answer then
    let event := Event.ensure_location event in
    match parse_float answer with
    | Some x => ret (set x event)
    | None => ret event
    end
  else ret event.

Definition _edit_event (event : Event.t) : M Event.t :=
  event <- edit_field Event.set_title event ;;
  event <- edit_field Event.set_description event ;;
  event <- edit_field (fun v e => Event.set_location_name v (Event.ensure_location e)) event ;;
  event <- edit_coordinate Event.set_location_lat event ;;
  event <- edit_coordinate Event.set_location_lon event ;;
  event <- edit_field Event.set_start_time event ;;
  event <- edit_field Event.set_end_time event ;;
  edit_field Event.set_url event.

(** [for idx in sorted(selected_indices, reverse=True)] of the two batch
    operations: [act] the event at [idx], then [pending_events.pop(idx)]. *)
Fixpoint for_each_selected {A} (act : Event.t -> M A) (idxs : list Z)
    (pending_events : list Event.t) : M (list Event.t) :=
  match idxs with
  | [] => ret pending_events
  | idx :: rest =>
      match Py.index pending_events idx with
      | None => raise IndexError
      | Some k =>
          match nth_error pending_events k with
          | None => raise IndexError
          | Some event =>
              act event ;;
              for_each_selected act rest (Py.remove_nth k pending_events)
          end
      end
  end.

Definition _batch_approve (pending_events : list Event.t) (selected_indices : list Z)
    : M (list Event.t) :=
  events_data <- load_events ;;
  pending_events <-
    for_each_selected _approve_event (sorted_desc selected_indices) pending_events ;;
  save_events events_data ;;
  save_pending_events pending_events ;;
  update_events_in_html ;;
  ret pending_events.

Definition _batch_reject (pending_events : list Event.t) (selected_indices : list Z)
    : M (list Event.t) :=
  pending_events <-
    for_each_selected _reject_event (sorted_desc selected_indices) pending_events ;;
  save_pending_events pending_events ;;
  ret pending_events.

(** The listing at the top of each round of the batch loop. *)
Fixpoint print_rows (idx : nat) (rows : list Event.t) (selected : list Z) : M unit :=
  match rows with
  | [] => ret tt
  | event :: rest =>
      print (BatchRow (idx + 1) (sel_mem (Z.of_nat idx) selected) event) ;;
      print_rows (S idx) rest selected
  end.

(** [start, end = map(int, range_str.split('-'))] after
    [range_str = choice.split(' ', 1)[1]]: [None] where the code reaches its
    [except]. *)
Definition parse_range (choice : string) : option (Z * Z) :=
  match Py.split_once " " choice with
  | [_; range_str] =>
      match map Py.int (Py.split_on "-" range_str) with
      | [Some start; Some stop] => Some (start, stop)
      | _ => None
      end
  | _ => None
  end.

Fixpoint all_some {A} (l : list (option A)) : option (list A) :=
  match l with
  | [] => Some []
  | Some x :: rest => option_map (cons x) (all_some rest)
  | None :: _ => None
  end.

(** The numbers of a toggle command, already shifted to indices. *)
Definition parse_numbers (choice : string) : option (list Z) :=
  if Py.contains "," choice
  then all_some (map (fun n => option_map Z.pred (Py.int (Py.strip n)))
                     (Py.split_on "," choice))
  else option_map (fun n => [Z.pred n]) (Py.int choice).

Definition toggle (len : nat) (selected : list Z) (num : Z) : list Z :=
  if (0 <=? num)%Z && (num <? Z.of_nat len)%Z then
    if sel_mem num selected then sel_remove num selected else sel_add num selected
  else selected.

Fixpoint select_pattern (pattern : string) (idx : nat) (rows : list Event.t)
    (selected : list Z) : list Z :=
  match rows with
  | [] => selected
  | event :: rest =>
      let title := Py.lower (Py.get_str (Event.title event)) in
      let selected :=
        if Py.contains pattern title then sel_add (Z.of_nat idx) selected
        else selected in
      select_pattern pattern (S idx) rest selected
  end.

(** [for idx in sorted(selected): event = pending_events[idx]] of 'show'. *)
Fixpoint show_selected (idxs : list Z) (pending_events : list Event.t) : M unit :=
  match idxs with
  | [] => ret tt
  | idx :: rest =>
      match Py.index pending_events idx with
      | None => raise IndexError
      | Some _ => show_selected rest pending_events
      end
  end.

Open Scope string_scope.

Fixpoint batch_loop (fuel : nat) (pending_events : list Event.t) (selected : list Z)
    : M unit :=
  match fuel with
  | O => raise Exhausted
  | S fuel =>
      print_rows 0 pending_events selected ;;
      line <- input ;;
      let choice := Py.lower (Py.strip line) in
      if choice =? "back" then ret tt
      else if choice =? "all" then
        batch_loop fuel pending_events
                   (sel_update [] (Py.range 0 (Z.of_nat (List.length pending_events))))
      else if choice =? "none" then batch_loop fuel pending_events []
      else if Py.startswith choice "range " then
        match parse_range choice with
        | Some (start, stop) =>
            batch_loop fuel pending_events
                       (sel_update selected (Py.range (start - 1) stop))
        | None => batch_loop fuel pending_events selected
        end
      else if Py.startswith choice "pattern " then
        let pattern := Py.lower (nth 1 (Py.split_once " " choice) "") in
        batch_loop fuel pending_events (select_pattern pattern 0 pending_events selected)
      else if choice =? "approve" then
        match selected with
        | [] => batch_loop fuel pending_events selected
        | _ :: _ =>
            confirm <- input ;;
            if Py.lower confirm =? "yes"
            then _batch_approve pending_events selected ;; ret tt
            else batch_loop fuel pending_events selected
        end
      else if choice =? "reject" then
        match selected with
        | [] => batch_loop fuel pending_events selected
        | _ :: _ =>
            confirm <- input ;;
            if Py.lower confirm =? "yes"
            then _batch_reject pending_events selected ;; ret tt
            else batch_loop fuel pending_events selected
        end
      else if choice =? "show" then
        match selected with
        | [] => batch_loop fuel pending_events selected
        | _ :: _ =>
            show_selected (sorted_asc selected) pending_events ;;
            input ;;
            batch_loop fuel pending_events selected
        end
      else
        match parse_numbers choice with
        | Some numbers =>
            batch_loop fuel pending_events
                       (fold_left (toggle (List.length pending_events)) numbers selected)
        | None => batch_loop fuel pending_events selected
        end
  end.

Definition _batch_selection_mode (fuel : nat) (pending_events : list Event.t)
    (current_index : nat) : M unit :=
  batch_loop fuel pending_events [].

Definition replace_nth (k : nat) (e : Event.t) (l : list Event.t) : list Event.t :=
  firstn k l ++ e :: skipn (S k) l.

(** The [while i < len(pending_events)] loop of [review_pending]; it returns
    the list that [pending_data] holds when the loop is left.  The similar
    historical events are computed and printed only, so they leave no trace
    here. *)
Fixpoint review_loop (fuel : nat) (i : nat) (pending_events : list Event.t) : M (list Event.t) :=
  match fuel with
  | O => raise Exhausted
  | S fuel =>
      match nth_error pending_events i with
      | None => ret pending_events
      | Some event =>
          print (ReviewHeader (i + 1) (List.length pending_events) event) ;;
          line <- input ;;
          let choice := Py.lower (Py.strip line) in
          if choice =? "a" then
            _approve_event event ;;
            review_loop fuel i (Py.remove_nth i pending_events)
          else if choice =? "e" then
            event <- _edit_event event ;;
            review_loop fuel (i + 1) (replace_nth i event pending_events)
          else if choice =? "r" then
            _reject_event event ;;
            review_loop fuel i (Py.remove_nth i pending_events)
          else if choice =? "s" then review_loop fuel (i + 1) pending_events
          else if choice =? "b" then
            _batch_selection_mode fuel pending_events i ;;
            pending_events <- load_pending_events ;;
            review_loop fuel 0 pending_events
          else if choice =? "q" then ret pending_events
          else review_loop fuel i pending_events
      end
  end.

(** Every round of either loop reads a line first, so one more round than
    there are lines is never started. *)
Definition rounds : M nat := fun w => (Return (S (List.length (stdin w))), w).

Definition review_pending : M unit :=
  pending_events <- load_pending_events ;;
  match pending_events with
  | [] => input ;; ret tt
  | _ :: _ =>
      historical_events <- load_historical_events ;;
      fuel <- rounds ;;
      pending_data <- review_loop fuel 0 pending_events ;;
      save_pending_events pending_data
  end.

(** Modelled from the spec: the intake of a scraped candidate belongs to the
    scraper, which is not among the sources.  A rejection record
    "suppresses any future candidate whose (normalized title, source)
    matches it", and the candidate is dropped "before ever reaching
    pending"; only an operator clears a record. *)
Definition matches (r : rejection) (candidate : Event.t) : bool :=
  (rej_title r =? normalize (Py.get_str (Event.title candidate)))
  && (rej_source r =? normalize (Py.get_str (Event.source candidate))).

Definition is_event_rejected (candidate : Event.t) (w : World) : bool :=
  existsb (fun r => matches r candidate) (rejected w).

Definition add_pending (candidate : Event.t) : M bool :=
  fun w =>
    if is_event_rejected candidate w then (Return false, w)
    else (Return true, set_pending (pending w ++ [candidate]) w).

Definition clear_rejected (event_title event_source : string) : M unit :=
  fun w =>
    (Return tt,
     set_rejected
       (filter (fun r => negb ((rej_title r =? normalize event_title)
                               && (rej_source r =? normalize event_source)))
               (rejected w))
       w).

(** What the pipeline does between a rejection and a later scrape, the
    operator's clearing apart. *)
Inductive action :=
| Approve (event : Event.t)
| Reject (event : Event.t)
| Scrape (candidate : Event.t)
| Review.

Definition perform (a : action) (w : World) : World :=
  match a with
  | Approve event => snd (_approve_event event w)
  | Reject event => snd (_reject_event event w)
  | Scrape candidate => snd (add_pending candidate w)
  | Review => snd (review_pending w)
  end.

Definition perform_all (actions : list action) (w : World) : World :=
  fold_left (fun acc a => perform a acc) actions w.

End WithCollaborators.
End Editor.

(** ** The stable id of a candidate *)

Module Identity.
Open Scope string_scope.

(** Modelled from the spec: [generate_stable_event_id] is imported from
    [date_utils], which is not among the sources.  It "normalizes title
    (lowercase, collapse whitespace, strip punctuation) before
    hashing/combining with source namespace and date-only component";
    a missing start date "falls back to a deterministic unscheduled bucket
    keyed by source+title"; an empty or missing title "fails with an
    IdentityError", a title being empty when normalization leaves nothing
    of it. *)
Definition normalize_chars (title : Py.chars) : Py.chars :=
  Py.join_chars [" "%char]
    (Py.split_chars (filter (fun c => negb (Py.is_punct c)) (Py.lower_chars title))).

Definition normalize_title (title : string) : string :=
  string_of_list_ascii (normalize_chars (list_ascii_of_string title)).

Definition date_only (start_date : option string) : string :=
  match start_date with
  | Some d => if Py.truthy d then Py.prefix_n 10 d else "unscheduled"
  | None => "unscheduled"
  end.

Inductive outcome :=
| Id (id : string)
| IdentityError.

(** What is hashed: the normalized title combined with the date-only
    component. *)
Definition combined_key (title : string) (start_date : option string) : string :=
  normalize_title title ++ "|" ++ date_only start_date.

Section Digest.

(** The hash of the spec's "hashing/combining"; the identity function gives
    plain combining. *)
Variable digest : string -> string.

Definition generate_stable_event_id
    (source : string) (title : option string) (start_date : option string) : outcome :=
  let key := normalize_title (Py.get_str title) in
  if Py.truthy key
  then Id (source ++ "_" ++ digest (combined_key (Py.get_str title) start_date))
  else IdentityError.

End Digest.

(** Two titles that differ by casing, blanks or punctuation only: one
    character changes case, one punctuation character comes or goes, or a
    run of blanks changes its characters, its length, or appears at an
    end of the title. *)
Close Scope string_scope.






End Identity.

(** ** The coverage analysis of the entity resolver *)

Module EntityResolver.

(** The fields of an event that select a tier; only their presence
    matters. *)
Record entity_fields := mk_fields {
  embedded : bool;       (* 'location' / 'organizer': an inline object *)
  override : bool;       (* 'location_override' / 'organizer_override' *)
  reference : bool       (* 'location_id' / 'organizer_id' *)
}.

Record event := mk_event {
  location_fields : entity_fields;
  organizer_fields : entity_fields
}.

Inductive tier := Tier1Reference | Tier2Override | Tier3Embedded.

(** Modelled from the spec: [entity_resolver.py] is not among the sources
    (its tests are).  "Three mutually exclusive resolution tiers, selected
    by field presence on the input event", "with priority embedded >
    override > reference": the inline object selects tier 3; without it the
    override selects tier 2; without either the event is a reference, tier
    1, whose id may be unknown or missing ("Unknown ids resolve to [None]
    rather than raising", "the failure is only visible via coverage
    statistics").  So "exactly one resolution tier applies per event". *)
Definition applies (t : tier) (f : entity_fields) : bool :=
  match t with
  | Tier3Embedded => embedded f
  | Tier2Override => override f && negb (embedded f)
  | Tier1Reference => negb (override f) && negb (embedded f)
  end.

Definition tier_of (f : entity_fields) : tier :=
  if embedded f then Tier3Embedded
  else if override f then Tier2Override
  else Tier1Reference.

Record tier_counts := mk_counts {
  tier_1_reference : nat;
  tier_2_override : nat;
  tier_3_embedded : nat
}.

Record stats := mk_stats {
  total_events : nat;
  locations : tier_counts;
  organizers : tier_counts
}.

(** One more event in each tier that applies to it. *)
Definition count (n : nat) (b : bool) : nat := if b then S n else n.

Definition count_tiers (c : tier_counts) (f : entity_fields) : tier_counts :=
  mk_counts (count (tier_1_reference c) (applies Tier1Reference f))
            (count (tier_2_override c) (applies Tier2Override f))
            (count (tier_3_embedded c) (applies Tier3Embedded f)).

(** Modelled from the spec: "[analyze_entity_coverage] must classify every
    event into exactly one tier and report per-tier counts for locations
    and organizers independently." *)
Definition coverage_step (st : stats) (e : event) : stats :=
  mk_stats (total_events st)
           (count_tiers (locations st) (location_fields e))
           (count_tiers (organizers st) (organizer_fields e)).

Definition analyze_entity_coverage (events : list event) : stats :=
  fold_left coverage_step events
    (mk_stats (List.length events) (mk_counts 0 0 0) (mk_counts 0 0 0)).

Definition total (c : tier_counts) : nat :=
  tier_1_reference c + tier_2_override c + tier_3_embedded c.

End EntityResolver.

(** ** [vhs.py]: the labels and the titles of the course listing *)

Module VHS.
Import Py.

Abbreviation chars_of := list_ascii_of_string.

Definition bind_opt {A B} (o : option A) (k : A -> option B) : option B :=
  match o with Some a => k a | None => None end.

Notation "'let?' x := o 'in' k" := (bind_opt o (fun x => k))
  (at level 10, x pattern, o at level 100, k at level 200).

(** The text after a literal, if the text starts with it. *)
Definition literal (p : string) (s : chars) : option chars :=
  if starts_with_chars (chars_of p) s
  then Some (skipn (List.length (chars_of p)) s) else None.

(** [$]: the end of the text, or the line feed that ends it. *)
Definition at_end (s : chars) : bool :=
  match s with
  | [] => true
  | [c] => Ascii.eqb c "010"%char
  | _ => false
  end.

(** [^ort\s*/\s*raum]: the text after it.  A greedy [\s*] that is followed
    by a character other than a blank never gives a blank back. *)
Definition ort_raum (s : chars) : option chars :=
  let? s1 := literal "ort" s in
  let? s2 := literal "/" (lstrip_chars s1) in
  literal "raum" (lstrip_chars s2).

(** [re.match(r'^ort\s*/\s*raum\s*:?\s*', s)]: where the match ends. *)
Definition ort_raum_pattern (s : chars) : option nat :=
  let? s3 := ort_raum s in
  let r := lstrip_chars s3 in
  let r' := match r with ":"%char :: t => t | _ => r end in
  Some (List.length s - List.length (lstrip_chars r')).

(** [re.match(r'^ort\s*/\s*raum\s*:?$', s)] *)
Definition ort_raum_label (s : chars) : bool :=
  match ort_raum s with
  | None => false
  | Some s3 =>
      let r := lstrip_chars s3 in
      at_end r || match r with ":"%char :: t => at_end t | _ => false end
  end.

(** A text that is returned only [if location_text:]. *)
Definition if_text (s : chars) : option string :=
  match s with [] => None | _ :: _ => Some (string_of_list_ascii s) end.

Definition _extract_location_from_text (text : string) : option string :=
  let normalized := strip_chars (chars_of text) in
  let lower_text := lower_chars normalized in
  let by_header :=
    let? n := ort_raum_pattern lower_text in
    if_text (strip_chars (skipn n normalized)) in
  match by_header with
  | Some location_text => Some location_text
  | None =>
      if starts_with_chars (chars_of "ort") lower_text then
        match lstrip_chars (skipn 3 normalized) with
        | ":"%char :: rest => if_text (strip_chars rest)
        | _ => None
        end
      else None
  end.

Definition _is_ort_label (text : string) : bool :=
  let normalized := lower_chars (strip_chars (chars_of text)) in
  if ort_raum_label normalized then true
  else if starts_with_chars (chars_of "ort") normalized then
    let rest := lstrip_chars (skipn 3 normalized) in
    starts_with_chars (chars_of ":") rest ||
    match rest with [] => true | _ :: _ => false end
  else false.

(** [WEEKDAY_DATE_TIME_PATTERN]:
    [(Mo\.|Di\.|Mi\.|Do\.|Fr\.|Sa\.|So\.)\s*(\d{1,2}\.\d{1,2}\.\d{2,4})\s*(\d{1,2}:\d{2})?] *)
Definition weekdays : list string :=
  ["Mo."; "Di."; "Mi."; "Do."; "Fr."; "Sa."; "So."]%string.

Fixpoint alternatives (ps : list string) (s : chars) : option chars :=
  match ps with
  | [] => None
  | p :: ps' =>
      match literal p s with
      | Some r => Some r
      | None => alternatives ps' s
      end
  end.

(** The leading digits of a text, [hi] of them at most, and the text after
    them. *)
Fixpoint digits (hi : nat) (s : chars) : chars * chars :=
  match hi, s with
  | S hi', c :: s' =>
      if is_digit c then let (d, r) := digits hi' s' in (c :: d, r)
      else ([], s)
  | _, _ => ([], s)
  end.

(** [\d{lo,hi}], greedy.  Each one of the pattern is followed by a dot or a
    colon, which is no digit, or by a part that matches any text: the
    greedy match is the one the pattern ends with. *)
Definition digits_between (lo hi : nat) (s : chars) : option (chars * chars) :=
  let (d, r) := digits hi s in
  if lo <=? List.length d then Some (d, r) else None.

(** [(\d{1,2}\.\d{1,2}\.\d{2,4})]: the date and the text after it. *)
Definition date (s : chars) : option (chars * chars) :=
  let? (dd, s1) := digits_between 1 2 s in
  let? s2 := literal "." s1 in
  let? (mm, s3) := digits_between 1 2 s2 in
  let? s4 := literal "." s3 in
  let? (yy, s5) := digits_between 2 4 s4 in
  Some (dd ++ chars_of "." ++ mm ++ chars_of "." ++ yy, s5).

(** [(\d{1,2}:\d{2})?]: the text after the time, if there is one. *)
Definition time (s : chars) : chars :=
  let found :=
    let? (_, s1) := digits_between 1 2 s in
    let? s2 := literal ":" s1 in
    let? (_, s3) := digits_between 2 2 s2 in
    Some s3 in
  match found with Some r => r | None => s end.

(** The pattern matched at the start of a text: group 2 and the text after
    the match. *)
Definition match_here (s : chars) : option (chars * chars) :=
  let? s1 := alternatives weekdays s in
  let? (d, s2) := date (lstrip_chars s1) in
  Some (d, time (lstrip_chars s2)).

(** [WEEKDAY_DATE_TIME_PATTERN.search]: the leftmost match, as its start,
    its group 2 and the text after its end. *)
Fixpoint search (start : nat) (s : chars) : option (nat * chars * chars) :=
  match match_here s with
  | Some (d, r) => Some (start, d, r)
  | None =>
      match s with
      | [] => None
      | _ :: s' => search (S start) s'
      end
  end.

Definition _parse_concatenated_title (raw_title : string)
  : string * option string * option string :=
  match search 0 (chars_of raw_title) with
  | None => (strip raw_title, None, None)
  | Some (title_end_pos, date_string, after) =>
      let clean_title :=
        string_of_list_ascii (strip_chars (firstn title_end_pos (chars_of raw_title))) in
      let location_text := if_text (strip_chars after) in
      (clean_title, Some (string_of_list_ascii date_string), location_text)
  end.

End VHS.

(** ** Sample data *)

Module Examples.
Open Scope string_scope.

Definition event_at (id title place : string) (lat lon : Q) : Event.t :=
  Event.mk (Some id) (Some title) None
           (Some (Location.mk (Some place) (Some lat) (Some lon)))
           (Some "2026-01-08T19:00:00") None None (Some "vhs")
           (Some "pending") None.

Definition hof_lat : Q := 50320 # 1000.
Definition hof_lon : Q := 11918 # 1000.

(** A scraped course and the same course as published earlier. *)
Definition choir_new : Event.t :=
  event_at "vhs_1" "Interkultureller Chor" "Theater Hof" hof_lat hof_lon.
Definition choir_old : Event.t :=
  event_at "vhs_0" "Interkultureller Chor" "Theater Hof" hof_lat hof_lon.

(** Two records without a title, same place, same coordinates. *)
Definition untitled_new : Event.t := event_at "tg_1" "" "Theater Hof" hof_lat hof_lon.
Definition untitled_old : Event.t := event_at "tg_0" "" "Theater Hof" hof_lat hof_lon.

(** Two places whose names have no word in common. *)
Definition big_art : Event.t := event_at "a_1" "Vernissage" "Big Art" hof_lat hof_lon.
Definition party_hall : Event.t := event_at "p_1" "Tanzabend" "Party Hall" (51 # 1) (12 # 1).

(** The same point on the equator, twice. *)
Definition equator_new : Event.t := event_at "q_1" "Regatta" "Harbour" 0 (9 # 1).
Definition equator_old : Event.t := event_at "q_0" "Regatta" "Harbour" 0 (9 # 1).

(** A candidate with a title of eight words, and two older events whose
    scores are the same number before rounding: three common words and
    the same place, against seven common words. *)
Definition listed (id title place : string) : Event.t :=
  Event.mk (Some id) (Some title) None
           (Some (Location.mk (Some place) None None))
           None None None (Some "vhs") (Some "pending") None.
Definition eight_words : Event.t := listed "w_0" "a b c d e f g h" "hof".
Definition three_and_place : Event.t := listed "w_1" "a b c i j k l m" "hof".
Definition seven_words : Event.t := listed "w_2" "a b c d e f g z" "".

(** Characters of Latin-1: the no-break space and A with diaeresis, capital
    and small. *)
Definition nbsp : string := String (ascii_of_nat 160) "".
Definition A_umlaut : string := String (ascii_of_nat 196) "".
Definition a_umlaut : string := String (ascii_of_nat 228) "".

End Examples.

(** A stand-in for the C library.  At the arguments that
    [calculate_distance(8, -180, -8, 0)] reaches it has the values that the
    C library of a Linux system on x86-64 returns; elsewhere it has
    values that are good enough where only the special values count. *)
Module Stub.
Local Open Scope float_scope.
Definition sin (x : float) : float :=
  if x =? -0x1.1df46a2529d39p-3 then -0x1.1d06c968d9e19p-3
  else if x =? 0x1.921fb54442d18p+0 then 1
  else x.
Definition cos (x : float) : float :=
  if abs x =? 0x1.1df46a2529d39p-3 then 0x1.fb046a930947ap-1 else 1.
Definition atan2 (y x : float) : float := y / x.
Definition pow (x y : float) : float :=
  if x =? 0x1.1d06c968d9e19p-3 then 0x1.3d581ca184804p-6 else x * x.
End Stub.

(** Worlds and collaborators for the review scenarios. *)
Module Scenario.
Import Editor.
Open Scope string_scope.

(** A schema that asks for a title. *)
Definition require_title (e : Event.t) : string + Event.t :=
  if Py.truthy (Py.get_str (Event.title e)) then inr e
  else inl "title: field required".

Definition no_float (text : string) : option Q := None.
Definition noon : string := "2026-01-10T12:00:00".
Definition fold_key (s : string) : string := Py.lower (Py.strip s).

Definition numbered (n : string) : Event.t :=
  Examples.event_at ("vhs_" ++ n) ("Kurs " ++ n) "VHS Hofer Land"
                    Examples.hof_lat Examples.hof_lon.

Definition first_five : list Event.t := map numbered ["1"; "2"; "3"; "4"; "5"].
Definition last_five : list Event.t := map numbered ["6"; "7"; "8"; "9"; "10"].

(** Ten pending events, one event published earlier, and an operator who
    opens batch mode, selects 1 to 5, approves, confirms, and quits. *)
Definition batch_world : World :=
  mk_world [Examples.choir_old] (first_five ++ last_five) [] [] []
           ["b"; "range 1-5"; "approve"; "yes"; "q"] [].

(** Two pending events, the first without a title, and an operator who
    approves twice. *)
Definition review_world : World :=
  mk_world [] [Examples.untitled_new; Examples.choir_new] [] [] []
           ["a"; "a"] [].

Definition spam : Event.t :=
  Event.mk (Some "fb_1") (Some "Spam Party") None None None None None
           (Some "facebook") (Some "pending") None.

Definition spam_again : Event.t :=
  Event.mk (Some "fb_2") (Some "  SPAM party ") None None None None None
           (Some "Facebook") (Some "pending") None.

Definition quiet_world : World := mk_world [] [spam] [] [] [] [] [].

End Scenario.

(** The batch of [test_entity_coverage_analysis]: a reference, a reference
    with an override, and an embedded location; no organizer anywhere. *)
Module CoverageTest.
Import EntityResolver.

Definition none : entity_fields := mk_fields false false false.
Definition e1 : event := mk_event (mk_fields false false true) none.
Definition e2 : event := mk_event (mk_fields false true true) none.
Definition e3 : event := mk_event (mk_fields true false false) none.
Definition events : list event := [e1; e2; e3].

End CoverageTest.

(** ** Vocabulary of the statements *)

(** The last [n] elements of a list. *)
Definition lastn {A} (n : nat) (l : list A) : list A :=
  skipn (List.length l - n) l.

(** [p] occurs in [s] as a contiguous block. *)
Definition occurs (p s : string) : Prop :=
  exists pre post : string, s = (pre ++ p ++ post)%string.

(** A word that both names have. *)
Definition shares_word (a b : string) : Prop :=
  exists w : string, In w (Py.split a) /\ In w (Py.split b).


(** The words of a title, as the matcher compares them. *)
Definition title_words (e : Event.t) : list string :=
  Py.to_set (Py.split (Py.lower (Py.get_str (Event.title e)))).

(** The name of the place of an event, as the matcher compares it. *)
Definition place (e : Event.t) : string :=
  Py.lower (Py.get_str (Event.location_name e)).

(** How many events of a batch a tier applies to, for one kind of entity. *)
Definition in_tier (kind : EntityResolver.event -> EntityResolver.entity_fields)
    (t : EntityResolver.tier) (events : list EntityResolver.event) : nat :=
  List.length (filter (fun e => EntityResolver.applies t (kind e)) events).

(** [m] leaves the world related to the one it found. *)
Definition preserves (R : Editor.World -> Editor.World -> Prop) {A} (m : Editor.M A) : Prop :=
  forall w, R w (snd (m w)).

(** [m] does not raise [Exhausted] and leaves no more lines than it
    found, when started with fewer than [n] lines to read. *)
Definition tidy_below {A} (n : nat) (m : Editor.M A) : Prop :=
  forall w, List.length (Editor.stdin w) < n ->
    fst (m w) <> Editor.Raise Editor.Exhausted /\
    List.length (Editor.stdin (snd (m w))) <= List.length (Editor.stdin w).

Definition tidy {A} (m : Editor.M A) : Prop := forall n, tidy_below n m.

(** A time of day that a [datetime] can hold. *)
Definition valid_time (d : Utils.datetime) : Prop :=
  Utils.hour d < 24 /\ Utils.minute d < 60 /\ Utils.second d < 60 /\
  (Z.of_nat (Utils.microsecond d) < 1000000)%Z.

(** The microseconds from the origin to a [datetime]: the order of two
    datetimes is the order of these. *)
Definition microseconds (d : Utils.datetime) : Z :=
  (((Utils.day d * 24 + Z.of_nat (Utils.hour d)) * 60
    + Z.of_nat (Utils.minute d)) * 60
   + Z.of_nat (Utils.second d)) * 1000000
  + Z.of_nat (Utils.microsecond d).

(** The fields of an event that no prompt of the editor asks for. *)
Definition anchored (e e' : Event.t) : Prop :=
  Event.id e' = Event.id e /\ Event.source e' = Event.source e /\
  Event.status e' = Event.status e /\ Event.published_at e' = Event.published_at e.

(** An answer that is empty once stripped: the operator pressed Enter. *)
Definition blank (line : string) : Prop := Py.strip line = ""%string.

(** The line the operator types for a command, blanks and case apart. *)
Definition types (line command : string) : Prop :=
  Py.lower (Py.strip line) = command.

(** The events at the positions that are not selected, in order; [i] is the
    position of the head. *)
Fixpoint unselected_from (i : nat) (selected : list Z) (l : list Event.t) : list Event.t :=
  match l with
  | [] => []
  | e :: l' =>
      if Editor.sel_mem (Z.of_nat i) selected
      then unselected_from (S i) selected l'
      else e :: unselected_from (S i) selected l'
  end.

Definition unselected (selected : list Z) (l : list Event.t) : list Event.t :=
  unselected_from 0 selected l.

(** Every selected index is a position of the list. *)
Definition in_range (n : nat) (selected : list Z) : Prop :=
  forall x, In x selected -> (0 <= x < Z.of_nat n)%Z.

(** A text of blanks only. *)
Definition blanks (s : string) : Prop :=
  Forall (fun c => Py.is_space c = true) (list_ascii_of_string s).

(** A text of [lo] to [hi] decimal digits. *)
Definition number (lo hi : nat) (s : string) : Prop :=
  Forall (fun c => Py.is_digit c = true) (list_ascii_of_string s) /\
  lo <= String.length s <= hi.

(** A text without a full stop. *)
Definition dotless (s : string) : Prop :=
  ~ In "."%char (list_ascii_of_string s).

(** What [s.strip()] gives when something is left of [s], in the way the
    scraper reads a location: nothing for a blank text. *)
Definition stripped_text (s : string) : option string :=
  VHS.if_text (Py.strip_chars (list_ascii_of_string s)).

(** A float that is a number: a zero or a finite value. *)
Definition SF_number (f : spec_float) : Prop :=
  match f with
  | S754_zero _ | S754_finite _ _ _ => True
  | S754_infinity _ | S754_nan => False
  end.

(** A sine and a cosine of the C library as they are everywhere: the sine
    of zero is zero, and no cosine of a finite angle lies outside [-1, 1]. *)
Definition regular (libm_sin libm_cos : float -> float) : Prop :=
  libm_sin 0%float = 0%float /\
  forall x : float, is_finite x = true -> (abs (libm_cos x) <=? 1)%float = true.

(** A coordinate whose float is finite and is not zero. *)
Definition sound_coordinate (q : Q) : Prop :=
  is_finite (Binary64.of_Q q) = true /\ (Binary64.of_Q q =? 0)%float = false.

(** The coordinates of two events pass the last test of the matcher: the
    four are there, none is zero, and the distance is computed, without an
    exception, and is under 1 km. *)
Definition within_1km (libm_sin libm_cos : float -> float)
    (libm_atan2 libm_pow : float -> float -> float)
    (event historical : Event.t) : Prop :=
  exists (event_lat event_lon hist_lat hist_lon : Q) (distance : float),
    Event.location_lat event = Some event_lat /\
    Event.location_lon event = Some event_lon /\
    Event.location_lat historical = Some hist_lat /\
    Event.location_lon historical = Some hist_lon /\
    (Binary64.of_Q event_lat =? 0)%float = false /\
    (Binary64.of_Q event_lon =? 0)%float = false /\
    (Binary64.of_Q hist_lat =? 0)%float = false /\
    (Binary64.of_Q hist_lon =? 0)%float = false /\
    Binary64.calculate_distance libm_sin libm_cos libm_atan2 libm_pow
      (Binary64.of_Q event_lat) (Binary64.of_Q event_lon)
      (Binary64.of_Q hist_lat) (Binary64.of_Q hist_lon)
    = Binary64.Value distance /\
    (distance <? 1)%float = true.

(** ** Binary64: what the proofs need of the format *)

Section FloatFacts.
Local Open Scope Z_scope.

Lemma digits2_pos_bounds (p : positive) :
  2 ^ (Zpos (digits2_pos p) - 1) <= Zpos p < 2 ^ Zpos (digits2_pos p).
Proof.
  induction p as [p IH | p IH |]; cbn [digits2_pos].
  - rewrite Pos2Z.inj_succ, (Pos2Z.inj_xI p).
    replace (Z.succ (Zpos (digits2_pos p)) - 1) with (Z.succ (Zpos (digits2_pos p) - 1)) by lia.
    rewrite !Z.pow_succ_r by lia.
    destruct IH as [IH1 IH2]. revert IH1 IH2.
    generalize (2 ^ (Zpos (digits2_pos p) - 1)), (2 ^ Zpos (digits2_pos p)).
    intros a b Ha Hb. lia.
  - rewrite Pos2Z.inj_succ, (Pos2Z.inj_xO p).
    replace (Z.succ (Zpos (digits2_pos p)) - 1) with (Z.succ (Zpos (digits2_pos p) - 1)) by lia.
    rewrite !Z.pow_succ_r by lia.
    destruct IH as [IH1 IH2]. revert IH1 IH2.
    generalize (2 ^ (Zpos (digits2_pos p) - 1)), (2 ^ Zpos (digits2_pos p)).
    intros a b Ha Hb. lia.
  - cbn. lia.
Qed.

Lemma Zdigits2_le (m k : Z) : 0 <= m < 2 ^ k -> 0 <= k -> Zdigits2 m <= k.
Proof.
  intros [H0 Hk] Hk0. destruct m as [| p | p]; cbn [Zdigits2]; [exact Hk0 | | lia].
  destruct (digits2_pos_bounds p) as [Hl _].
  assert (H : 2 ^ (Zpos (digits2_pos p) - 1) < 2 ^ k) by lia.
  apply Z.pow_lt_mono_r_iff in H; lia.
Qed.

Lemma Zdigits2_upper (m : Z) : 0 <= m -> m < 2 ^ Zdigits2 m \/ m = 0.
Proof.
  intros H. destruct m as [| p | p]; [now right | left | lia].
  apply digits2_pos_bounds.
Qed.

Lemma shr_1_half (mrs : shr_record) :
  0 <= shr_m mrs -> shr_m (shr_1 mrs) = shr_m mrs / 2.
Proof.
  destruct mrs as [m r s]. cbn [shr_m shr_1]. intros H.
  destruct m as [| [p | p |] | p]; cbn [shr_m]; try lia.
  - reflexivity.
  - rewrite (Pos2Z.inj_xI p). apply (Z.div_unique _ _ _ 1); lia.
  - rewrite (Pos2Z.inj_xO p). apply (Z.div_unique _ _ _ 0); lia.
  - reflexivity.
Qed.

Lemma iter_shr_1 (p : positive) (mrs : shr_record) :
  0 <= shr_m mrs -> shr_m (iter_pos shr_1 p mrs) = shr_m mrs / 2 ^ Zpos p.
Proof.
  revert mrs. induction p as [p IH | p IH |]; intros mrs H; cbn [iter_pos].
  - assert (H1 : 0 <= shr_m (shr_1 mrs)) by (rewrite shr_1_half by exact H; apply Z.div_pos; lia).
    assert (H2 : 0 <= shr_m (iter_pos shr_1 p (shr_1 mrs)))
      by (rewrite IH by exact H1; apply Z.div_pos; [exact H1 | lia]).
    rewrite IH, IH, shr_1_half by assumption.
    rewrite !Z.div_div by lia. f_equal.
    rewrite (Pos2Z.inj_xI p).
    replace (2 * Zpos p + 1) with (1 + Zpos p + Zpos p) by lia.
    rewrite !Z.pow_add_r by lia. lia.
  - assert (H2 : 0 <= shr_m (iter_pos shr_1 p mrs))
      by (rewrite IH by exact H; apply Z.div_pos; [exact H | lia]).
    rewrite IH, IH by assumption.
    rewrite !Z.div_div by lia. f_equal.
    rewrite (Pos2Z.inj_xO p).
    replace (2 * Zpos p) with (Zpos p + Zpos p) by lia.
    rewrite !Z.pow_add_r by lia. lia.
  - rewrite shr_1_half by exact H. reflexivity.
Qed.

Lemma shr_m_of_loc (m : Z) (l : location) : shr_m (shr_record_of_loc m l) = m.
Proof. destruct l as [| []]; reflexivity. Qed.

(** One alignment step: the mantissa stays non-negative and under 53
    bits, the exponent is the larger of the old one and the one the
    format prescribes. *)
Lemma shr_fexp_bounds (m e : Z) (l : location) :
  0 <= m ->
  let mrs := fst (shr_fexp prec emax m e l) in
  let e' := snd (shr_fexp prec emax m e l) in
  0 <= shr_m mrs < 2 ^ 53 /\ e' = Z.max e (fexp prec emax (Zdigits2 m + e)).
Proof.
  intros Hm. unfold shr_fexp, shr.
  pose proof (Zdigits2_upper m Hm) as Hd.
  assert (Hd0 : 0 <= Zdigits2 m) by (destruct m; cbn; lia).
  assert (Hf : Zdigits2 m + e - 53 <= fexp prec emax (Zdigits2 m + e))
    by (unfold fexp, prec; lia).
  destruct (fexp prec emax (Zdigits2 m + e) - e) as [| n | n] eqn:En;
    cbn [fst snd]; rewrite ?shr_m_of_loc.
  - split; [| lia]. split; [exact Hm |].
    destruct Hd as [Hd | ->]; [| lia].
    apply Z.lt_le_trans with (1 := Hd). apply Z.pow_le_mono_r; lia.
  - rewrite iter_shr_1 by (rewrite shr_m_of_loc; exact Hm). rewrite shr_m_of_loc.
    split; [| lia]. split; [apply Z.div_pos; lia |].
    apply Z.div_lt_upper_bound; [lia |].
    destruct Hd as [Hd | ->]; [| lia].
    apply Z.lt_le_trans with (1 := Hd).
    rewrite <- Z.pow_add_r by lia. apply Z.pow_le_mono_r; lia.
  - split; [| lia]. split; [exact Hm |].
    destruct Hd as [Hd | ->]; [| lia].
    apply Z.lt_le_trans with (1 := Hd). apply Z.pow_le_mono_r; lia.
Qed.

Lemma round_nearest_even_bounds (m : Z) (l : location) :
  m <= round_nearest_even m l <= m + 1.
Proof. destruct l as [| []]; cbn; try lia. destruct (Z.even m); lia. Qed.

(** Rounding does not overflow while the value is below [2 ^ 1023]. *)
Lemma binary_round_aux_number (s : bool) (m e : Z) (l : location) :
  0 <= m -> Zdigits2 m + e <= 1023 -> e <= 970 ->
  SF_number (binary_round_aux prec emax s m e l).
Proof.
  intros Hm Hd He. unfold binary_round_aux.
  pose proof (shr_fexp_bounds m e l Hm) as H1.
  destruct (shr_fexp prec emax m e l) as [mrs' e'] eqn:E1. cbn [fst snd] in H1.
  destruct H1 as [[H1a H1b] H1e].
  set (m1 := round_nearest_even (shr_m mrs') (loc_of_shr_record mrs')).
  pose proof (round_nearest_even_bounds (shr_m mrs') (loc_of_shr_record mrs')) as Hr.
  fold m1 in Hr.
  assert (Hm1 : 0 <= m1) by lia.
  pose proof (shr_fexp_bounds m1 e' loc_Exact Hm1) as H2.
  destruct (shr_fexp prec emax m1 e' loc_Exact) as [mrs'' e''] eqn:E2. cbn [fst snd] in H2.
  destruct H2 as [[H2a H2b] H2e].
  assert (Hd1 : Zdigits2 m1 <= 54) by (apply Zdigits2_le; lia).
  assert (He' : e' <= 970) by (rewrite H1e; unfold fexp, emin, prec, emax; lia).
  assert (He'' : e'' <= 971) by (rewrite H2e; unfold fexp, emin, prec, emax; lia).
  destruct (shr_m mrs'') as [| p | p]; [exact I | | lia].
  replace (e'' <=? emax - prec) with true; [exact I |].
  symmetry. apply Z.leb_le. unfold emax, prec. lia.
Qed.

(** What [valid_binary] says of a mantissa and its exponent. *)
Lemma bounded_bounds (m : positive) (e : Z) :
  bounded prec emax m e = true ->
  Zpos m < 2 ^ 53 /\ e <= 971.
Proof.
  unfold bounded, canonical_mantissa. intros H.
  apply andb_true_iff in H as [Hc He].
  apply Z.eqb_eq in Hc. apply Z.leb_le in He.
  split; [| unfold emax, prec in He; lia].
  destruct (digits2_pos_bounds m) as [_ Hu].
  apply Z.lt_le_trans with (1 := Hu). apply Z.pow_le_mono_r; [lia |].
  unfold fexp, prec in Hc. lia.
Qed.

Lemma SFmul_number (sx sy : bool) (mx my : positive) (ex ey : Z) :
  Zpos mx < 2 ^ 53 -> Zpos my < 2 ^ 53 -> ex + ey <= 917 ->
  SF_number (SF64mul (S754_finite sx mx ex) (S754_finite sy my ey)).
Proof.
  intros Hx Hy He. unfold SF64mul, SFmul.
  apply binary_round_aux_number; [lia | | lia].
  assert (Hd : Zdigits2 (Zpos (mx * my)) <= 106).
  { apply Zdigits2_le; [| lia]. split; [lia |].
    rewrite Pos2Z.inj_mul. change (2 ^ 106) with (2 ^ 53 * 2 ^ 53).
    apply Z.mul_lt_mono_nonneg; lia. }
  lia.
Qed.

End FloatFacts.

Section FloatValues.
Local Open Scope float_scope.

Lemma SFeqb_refl (f : spec_float) : SF_number f -> SFeqb f f = true.
Proof.
  destruct f as [s | s | | s m e]; cbn; try tauto; intros _.
  - unfold SFeqb, SFcompare. rewrite Z.compare_refl, Pos.compare_cont_refl.
    now destruct s.
Qed.

Lemma is_finite_number (x : float) :
  is_finite x = true <-> SF_number (Prim2SF x).
Proof.
  unfold is_finite, is_nan, is_infinity.
  rewrite !eqb_spec, abs_spec.
  change (Prim2SF infinity) with (S754_infinity false).
  destruct (Prim2SF x) as [s | s | | s m e] eqn:E.
  - cbn. tauto.
  - cbn. destruct s; cbn; split; (discriminate || tauto).
  - cbn. split; (discriminate || tauto).
  - rewrite (SFeqb_refl (S754_finite s m e) I). cbn. tauto.
Qed.

Lemma number_valid (x : float) (s : bool) (m : positive) (e : Z) :
  Prim2SF x = S754_finite s m e -> (Zpos m < 2 ^ 53 /\ e <= 971)%Z.
Proof.
  intros E. apply bounded_bounds.
  pose proof (Prim2SF_valid x) as H. now rewrite E in H.
Qed.

(** A float between -1 and 1. *)
Lemma le_one_number (c : float) :
  (abs c <=? 1) = true ->
  (exists s, Prim2SF c = S754_zero s) \/
  (exists s m e, Prim2SF c = S754_finite s m e /\ (Zpos m < 2 ^ 53 /\ e <= -52)%Z).
Proof.
  rewrite leb_spec, abs_spec.
  change (Prim2SF 1) with (S754_finite false 4503599627370496 (-52)).
  destruct (Prim2SF c) as [s | s | | s m e] eqn:E;
    unfold SFleb, SFabs, SFcompare.
  - intros _. left. now exists s.
  - discriminate.
  - discriminate.
  - intros H. right. exists s, m, e. split; [reflexivity |].
    destruct (number_valid c s m e E) as [Hm _]. split; [exact Hm |].
    destruct (Z.compare_spec e (-52)); [lia | lia | discriminate].
Qed.

Lemma mul_le_one (c1 c2 : float) :
  (abs c1 <=? 1) = true -> (abs c2 <=? 1) = true ->
  SF_number (Prim2SF (c1 * c2)).
Proof.
  intros H1 H2. rewrite mul_spec.
  destruct (le_one_number c1 H1) as [(s1 & ->) | (s1 & m1 & e1 & -> & Hm1 & He1)];
    destruct (le_one_number c2 H2) as [(s2 & ->) | (s2 & m2 & e2 & -> & Hm2 & He2)];
    try exact I.
  apply SFmul_number; lia.
Qed.

Lemma number_times_zero (p : float) :
  SF_number (Prim2SF p) -> exists s, Prim2SF (p * 0) = S754_zero s.
Proof.
  intros H. rewrite mul_spec. change (Prim2SF 0) with (S754_zero false).
  destruct (Prim2SF p) as [s | s | | s m e]; cbn in *; try tauto; eauto.
Qed.

Lemma zero_plus_zero (z : float) (s : bool) :
  Prim2SF z = S754_zero s -> 0 + z = 0.
Proof.
  intros E. apply Prim2SF_inj. rewrite add_spec, E.
  change (Prim2SF 0) with (S754_zero false). now destruct s.
Qed.

(** The term under the square roots, where both sines are zero. *)
Lemma haversine_term_zero (c1 c2 : float) :
  (abs c1 <=? 1) = true -> (abs c2 <=? 1) = true ->
  0 + c1 * c2 * 0 = 0.
Proof.
  intros H1 H2.
  destruct (number_times_zero (c1 * c2) (mul_le_one c1 c2 H1 H2)) as (s & E).
  exact (zero_plus_zero _ s E).
Qed.

Lemma le_one_finite (c : float) : (abs c <=? 1) = true -> is_finite c = true.
Proof.
  intros H. apply is_finite_number.
  destruct (le_one_number c H) as [(s & ->) | (s & m & e & -> & _)]; exact I.
Qed.

Lemma is_finite_not_nan (x : float) :
  is_finite x = true -> is_nan x = false /\ is_infinity x = false.
Proof.
  unfold is_finite. destruct (is_nan x), (is_infinity x); cbn; split; congruence.
Qed.

(** Degrees to radians: a finite angle stays finite. *)
Lemma radians_number (x : float) :
  is_finite x = true -> SF_number (Prim2SF (Binary64.radians x)).
Proof.
  intros H. apply is_finite_number in H. unfold Binary64.radians.
  rewrite mul_spec.
  change (Prim2SF Binary64.deg_to_rad)
    with (S754_finite false 5030569068109113 (-58)).
  destruct (Prim2SF x) as [s | s | | s m e] eqn:E; cbn in H; [exact I | tauto | tauto |].
  destruct (number_valid x s m e E) as [Hm He].
  apply SFmul_number; [exact Hm | reflexivity | lia].
Qed.

Lemma sub_self (r : float) : SF_number (Prim2SF r) -> r - r = 0.
Proof.
  intros H. apply Prim2SF_inj. rewrite sub_spec.
  change (Prim2SF 0) with (S754_zero false).
  destruct (Prim2SF r) as [s | s | | s m e]; cbn in H; [| tauto | tauto |].
  - now destruct s.
  - unfold SF64sub, SFsub. rewrite Z.sub_diag. reflexivity.
Qed.

(** A positive integer divided by itself. *)
Lemma ratio_same (n : positive) : Binary64.ratio n n = 1.
Proof.
  unfold Binary64.ratio.
  assert (E : SFdiv_core_binary prec emax (Zpos n) 0 (Zpos n) 0
              = (9007199254740992, -53, loc_Exact)%Z).
  { unfold SFdiv_core_binary.
    replace (Zdigits2 (Zpos n) + 0 - (Zdigits2 (Zpos n) + 0))%Z with 0%Z by lia.
    change (Z.min (fexp prec emax 0) (0 - 0))%Z with (-53)%Z.
    change (0 - 0 - -53)%Z with 53%Z. cbv zeta.
    rewrite Z.shiftl_mul_pow2 by lia.
    pose proof (Z_div_mod (Zpos n * 2 ^ 53) (Zpos n) eq_refl) as Hd.
    destruct (Z.div_eucl (Zpos n * 2 ^ 53) (Zpos n)) as [q r].
    destruct Hd as [Hq Hr].
    assert (Hq' : q = (2 ^ 53)%Z) by nia.
    assert (Hr' : r = 0%Z) by nia.
    subst q r. unfold new_location.
    destruct (Z.even (Zpos n)); reflexivity. }
  unfold SF64div, SFdiv. rewrite E. reflexivity.
Qed.

Lemma true_divide_same (n : nat) : n <> O -> Binary64.true_divide n (Nat.max n n) = 1.
Proof.
  intros H. rewrite Nat.max_id. destruct n as [| n]; [congruence |].
  apply ratio_same.
Qed.

End FloatValues.

(** ** The order of the floats *)

Section FloatOrder.
Local Open Scope float_scope.

Lemma SFcompare_antisym (x y : spec_float) :
  SFcompare y x = option_map CompOpp (SFcompare x y).
Proof.
  destruct x as [s | s | | s m e], y as [s' | s' | | s' m' e'];
    try destruct s; try destruct s'; try reflexivity;
    cbn; rewrite (Z.compare_antisym e e'); destruct (e ?= e')%Z; cbn;
    try reflexivity;
    pose proof (Pos.compare_cont_antisym m m' Eq) as A; cbn in A;
    rewrite <- A; now rewrite ?CompOpp_involutive.
Qed.

Lemma SFcompare_Eq (x q : spec_float) :
  SFcompare x q = Some Eq ->
  (exists s s', x = S754_zero s /\ q = S754_zero s') \/ (x = q /\ x <> S754_nan).
Proof.
  destruct x as [s | s | | s m e], q as [s' | s' | | s' m' e'];
    try destruct s; try destruct s'; cbn; try discriminate; intros H;
    try (left; eauto; fail); try (right; split; [reflexivity | discriminate]);
    right; destruct (Z.compare_spec e e') as [-> | |]; try discriminate H;
    (assert (Hm : Pos.compare_cont Eq m m' = Eq)
       by (destruct (Pos.compare_cont Eq m m'); cbn in H; congruence));
    apply Pos.compare_eq in Hm; subst; (split; [reflexivity | discriminate]).
Qed.

Lemma SFcompare_refl (x : spec_float) : x <> S754_nan -> SFcompare x x = Some Eq.
Proof.
  destruct x as [s | s | | s m e]; try destruct s; cbn; try congruence; intros _;
    now rewrite Z.compare_refl, Pos.compare_cont_refl.
Qed.

Lemma eqb_ltb_false (x y q : float) :
  (x =? q) = true -> (y =? q) = true -> (x <? y) = false.
Proof.
  rewrite !eqb_spec, ltb_spec. unfold SFeqb, SFltb. intros Hx Hy.
  assert (Ex : SFcompare (Prim2SF x) (Prim2SF q) = Some Eq)
    by (destruct (SFcompare (Prim2SF x) (Prim2SF q)) as [[] |]; congruence).
  assert (Ey : SFcompare (Prim2SF y) (Prim2SF q) = Some Eq)
    by (destruct (SFcompare (Prim2SF y) (Prim2SF q)) as [[] |]; congruence).
  destruct (SFcompare_Eq _ _ Ex) as [(s & s' & -> & Eq1) | [Eq1 Hn]];
    destruct (SFcompare_Eq _ _ Ey) as [(t & t' & -> & Eq2) | [Eq2 Hn']].
  - reflexivity.
  - rewrite Eq2, Eq1. reflexivity.
  - rewrite Eq1, Eq2. reflexivity.
  - rewrite Eq1, <- Eq2, SFcompare_refl; [reflexivity | assumption].
Qed.

Lemma ltb_leb (x y : float) : (x <? y) = true -> (x <=? y) = true.
Proof.
  rewrite ltb_spec, leb_spec. unfold SFltb, SFleb.
  destruct (SFcompare (Prim2SF x) (Prim2SF y)) as [[] |]; congruence.
Qed.

Lemma is_nan_spec (x : float) : is_nan x = false <-> Prim2SF x <> S754_nan.
Proof.
  unfold is_nan. rewrite negb_false_iff, eqb_spec. unfold SFeqb. split.
  - intros H E. rewrite E in H. discriminate H.
  - intros H. now rewrite SFcompare_refl.
Qed.

Lemma ltb_not_nan (x y : float) :
  (x <? y) = true -> is_nan x = false /\ is_nan y = false.
Proof.
  rewrite ltb_spec, !is_nan_spec. unfold SFltb.
  destruct (Prim2SF x), (Prim2SF y); cbn; try discriminate; split; discriminate.
Qed.

Lemma not_ltb_leb (x y : float) :
  is_nan x = false -> is_nan y = false -> (x <? y) = false -> (y <=? x) = true.
Proof.
  rewrite !is_nan_spec, ltb_spec, leb_spec. unfold SFltb, SFleb.
  intros Hx Hy. rewrite (SFcompare_antisym (Prim2SF x) (Prim2SF y)).
  destruct (SFcompare (Prim2SF x) (Prim2SF y)) as [[] |] eqn:E; cbn; try congruence.
  destruct (Prim2SF x), (Prim2SF y); cbn in E; congruence.
Qed.

End FloatOrder.

(* ================================================================== *)
(** * Part II: the properties *)
(* ================================================================== *)

(** ** The dedup cache *)

Section CacheFacts.
Import SourceCache.

Lemma lastn_length {A} (n : nat) (l : list A) :
  List.length (lastn n l) = Nat.min n (List.length l).
Proof. unfold lastn. rewrite length_skipn. lia. Qed.

Lemma lastn_short {A} (n : nat) (l : list A) :
  List.length l <= n -> lastn n l = l.
Proof.
  intros H. unfold lastn.
  replace (List.length l - n) with 0 by lia. reflexivity.
Qed.

Lemma lastn_incl {A} (n : nat) (l : list A) (x : A) :
  In x (lastn n l) -> In x l.
Proof.
  unfold lastn. intros H.
  rewrite <- (firstn_skipn (List.length l - n) l).
  apply in_or_app. now right.
Qed.

Lemma lastn_snoc {A} (n : nat) (l : list A) (x : A) :
  1 <= n -> lastn n (lastn n l ++ [x]) = lastn n (l ++ [x]).
Proof.
  intros Hn. unfold lastn at 1 3.
  rewrite !length_app, lastn_length. cbn [List.length].
  rewrite !skipn_app.
  destruct (Nat.le_gt_cases (List.length l) n) as [Hs | Hl].
  - rewrite (lastn_short n l Hs).
    replace (Nat.min n (List.length l)) with (List.length l) by lia.
    reflexivity.
  - replace (Nat.min n (List.length l)) with n by lia.
    rewrite lastn_length.
    replace (Nat.min n (List.length l)) with n by lia.
    replace (n + 1 - n) with 1 by lia.
    replace (1 - n) with 0 by lia.
    replace (List.length l + 1 - n - List.length l) with 0 by lia.
    f_equal. unfold lastn. rewrite skipn_skipn. f_equal. lia.
Qed.

Lemma slice_from_last {A} (m : nat) (l : list A) :
  1 <= m -> Py.slice_from (- Z.of_nat m) l = lastn m l.
Proof.
  intros Hm. unfold Py.slice_from, lastn.
  destruct (Z.ltb_spec (- Z.of_nat m) 0) as [_ | H]; [| lia].
  f_equal. lia.
Qed.

Lemma mem_str_In (x : string) (l : list string) :
  Py.mem_str x l = true <-> In x l.
Proof.
  unfold Py.mem_str. rewrite existsb_exists. split.
  - intros (y & Hy & E). apply String.eqb_eq in E. now subst.
  - intros H. exists x. split; [assumption | apply String.eqb_refl].
Qed.

Lemma mem_str_not_In (x : string) (l : list string) :
  Py.mem_str x l = false <-> ~ In x l.
Proof.
  rewrite <- mem_str_In. destruct (Py.mem_str x l); split; congruence.
Qed.

(** Marking a key that is held changes nothing, the order included. *)
Lemma mark_processed_held (key : string) (c : t) :
  is_processed key c = true -> mark_processed key c = c.
Proof. unfold is_processed, mark_processed. now intros ->. Qed.

(** Marking a new key appends it and keeps the last [max_entries] keys. *)
Lemma mark_processed_new (key : string) (c : t) (m : nat) :
  max_entries c = Z.of_nat m -> 1 <= m ->
  is_processed key c = false ->
  processed_keys (mark_processed key c) = lastn m (processed_keys c ++ [key]).
Proof.
  intros Hmax Hm Hnew. unfold is_processed in Hnew. unfold mark_processed.
  rewrite Hnew, Hmax.
  destruct (Z.ltb_spec (Z.of_nat m) (Z.of_nat (List.length (processed_keys c ++ [key]))))
    as [Hover | Hfit]; cbn [processed_keys set_keys].
  - now apply slice_from_last.
  - symmetry. apply lastn_short. lia.
Qed.

Lemma mark_processed_capacity (key : string) (c : t) :
  max_entries (mark_processed key c) = max_entries c.
Proof.
  unfold mark_processed.
  destruct (Py.mem_str key (processed_keys c)); [reflexivity |].
  now destruct (_ <? _)%Z.
Qed.

(** With a capacity of at least one, a cache within its capacity stays
    within it. *)
Lemma mark_processed_bounded (key : string) (c : t) :
  (1 <= max_entries c)%Z ->
  (Z.of_nat (List.length (processed_keys c)) <= max_entries c)%Z ->
  (Z.of_nat (List.length (processed_keys (mark_processed key c))) <= max_entries c)%Z.
Proof.
  intros Hcap Hin.
  destruct (is_processed key c) eqn:E.
  - now rewrite mark_processed_held.
  - rewrite (mark_processed_new key c (Z.to_nat (max_entries c))); try lia; auto.
    rewrite lastn_length. lia.
Qed.

(** With a capacity of at least one, a cache that is within its capacity
    stays within it, whatever keys are marked. *)
Lemma mark_all_bounded (keys : list string) (c : t) :
  (1 <= max_entries c)%Z ->
  (Z.of_nat (List.length (processed_keys c)) <= max_entries c)%Z ->
  (Z.of_nat (List.length (processed_keys (mark_all keys c))) <= max_entries c)%Z.
Proof.
  revert c. induction keys as [| k keys IH]; intros c Hcap Hin; [exact Hin |].
  cbn. fold (mark_all keys (mark_processed k c)).
  rewrite <- (mark_processed_capacity k c).
  apply IH; rewrite mark_processed_capacity; auto using mark_processed_bounded.
Qed.

(** Distinct keys marked into a cache that holds the last [m] of the keys
    seen so far leave the last [m] of all of them: the oldest go first. *)
Lemma mark_all_fifo (keys seen : list string) (c : t) (m : nat) :
  max_entries c = Z.of_nat m -> 1 <= m ->
  processed_keys c = lastn m seen ->
  NoDup (seen ++ keys) ->
  processed_keys (mark_all keys c) = lastn m (seen ++ keys).
Proof.
  revert seen c. induction keys as [| k keys IH]; intros seen c Hmax Hm Hc Hnd.
  - now rewrite app_nil_r.
  - cbn. fold (mark_all keys (mark_processed k c)).
    replace (seen ++ k :: keys) with ((seen ++ [k]) ++ keys)
      by now rewrite <- app_assoc.
    apply IH; auto.
    + now rewrite mark_processed_capacity.
    + rewrite (mark_processed_new k c m); auto.
      * rewrite Hc. now apply lastn_snoc.
      * unfold is_processed. apply mem_str_not_In. rewrite Hc.
        intros Hin. apply lastn_incl in Hin.
        apply NoDup_remove_2 in Hnd. apply Hnd, in_or_app. now left.
    + now rewrite <- app_assoc.
Qed.

(** Capacity of at least one, fresh cache, distinct keys: the cache ends
    with the most recent [max_entries] keys, exactly [max_entries] of them
    once more than that were marked. *)
Lemma mark_all_fresh (path : option string) (m : nat) (keys : list string) :
  1 <= m -> NoDup keys ->
  let c := mark_all keys (fresh path (Z.of_nat m)) in
  processed_keys c = lastn m keys /\
  (m < List.length keys -> List.length (processed_keys c) = m).
Proof.
  intros Hm Hnd c.
  assert (E : processed_keys c = lastn m keys).
  { apply (mark_all_fifo keys [] (fresh path (Z.of_nat m)) m); auto. }
  split; [exact E |]. intros Hlen. rewrite E, lastn_length. lia.
Qed.

(** [l[-0:]] is [l[0:]]. *)
Lemma slice_from_zero {A} (l : list A) : Py.slice_from (- 0) l = l.
Proof.
  unfold Py.slice_from. cbn [Z.opp Z.ltb Z.compare].
  replace (Z.min 0 (Z.of_nat (List.length l))) with 0%Z by lia.
  reflexivity.
Qed.

Lemma mark_all_zero_capacity (keys seen : list string) (c : t) :
  max_entries c = 0%Z ->
  processed_keys c = seen ->
  NoDup (seen ++ keys) ->
  processed_keys (mark_all keys c) = seen ++ keys /\
  max_entries (mark_all keys c) = 0%Z.
Proof.
  revert seen c. induction keys as [| k keys IH]; intros seen c Hmax Hc Hnd.
  - rewrite app_nil_r. auto.
  - cbn. fold (mark_all keys (mark_processed k c)).
    replace (seen ++ k :: keys) with ((seen ++ [k]) ++ keys)
      by now rewrite <- app_assoc.
    apply IH.
    + now rewrite mark_processed_capacity.
    + unfold mark_processed.
      replace (Py.mem_str k (processed_keys c)) with false.
      * rewrite Hmax, Hc, length_app. cbn [List.length].
        destruct (Z.ltb_spec 0 (Z.of_nat (List.length seen + 1))) as [_ | H]; [| lia].
        cbn [processed_keys set_keys]. apply slice_from_zero.
      * symmetry. apply mem_str_not_In. rewrite Hc.
        apply NoDup_remove_2 in Hnd. intros Hin. apply Hnd, in_or_app. now left.
    + now rewrite <- app_assoc.
Qed.

(** C2, at capacity zero.  [processed_keys[-0:]] is the whole list, so
    nothing is evicted: a fresh cache of capacity 0 keeps every distinct
    key marked into it, in order, and holds more keys than its capacity as
    soon as one key is marked. *)
Theorem mark_processed_zero_capacity_keeps_all (path : option string) (keys : list string) :
  NoDup keys ->
  let c := mark_all keys (fresh path 0) in
  processed_keys c = keys /\
  (keys <> [] -> (max_entries c < Z.of_nat (List.length (processed_keys c)))%Z).
Proof.
  intros Hnd c.
  destruct (mark_all_zero_capacity keys [] (fresh path 0)) as [Hk Hm]; auto.
  fold c in Hk, Hm. cbn in Hk. split; [exact Hk |].
  intros Hne. rewrite Hk, Hm. destruct keys; [congruence | cbn; lia].
Qed.

Lemma mark_processed_zero_capacity_keeps_all_witness :
  processed_keys (mark_all ["a"; "b"; "c"]%string (fresh None 0))
    = ["a"; "b"; "c"]%string /\
  (max_entries (mark_all ["a"; "b"; "c"]%string (fresh None 0)) < 3)%Z.
Proof.
  destruct (mark_processed_zero_capacity_keeps_all None ["a"; "b"; "c"]%string)
    as [Hk Hm].
  - repeat constructor; cbn; intuition discriminate.
  - split; [exact Hk |]. rewrite Hk in Hm. apply Hm. discriminate.
Defined.

(** Reading a missing file, an unreadable file or a file that is not JSON
    leaves the cache as it was; for a fresh cache, empty. *)
Lemma load_tolerates (fs : disk) (c : t) (path : string) :
  cache_path c = Some path ->
  fs path = None \/ fs path = Some ReadOSError \/ fs path = Some ReadJSONDecodeError ->
  load fs c = Returned c.
Proof.
  intros Hp H. unfold load. rewrite Hp.
  destruct H as [-> | [-> | ->]]; reflexivity.
Qed.

(** C8, on contents of the wrong shape.  A file whose text parses to
    anything but an object (a list, a string, a number, a boolean, null)
    makes [data.get] raise [AttributeError], which the handler around
    [json.loads] does not catch: [load] raises instead of leaving an empty
    cache. *)
Theorem load_raises_on_wrong_shape (fs : disk) (c : t) (path : string) (v : json) :
  cache_path c = Some path ->
  fs path = Some (Decoded v) ->
  (forall fields, v <> JObj fields) ->
  load fs c = Raised AttributeError.
Proof.
  intros Hp Hf Hv. unfold load. rewrite Hp, Hf.
  destruct v; try reflexivity. now destruct (Hv fields).
Qed.

Lemma load_raises_on_wrong_shape_witness :
  load (fun _ => Some (Decoded (JArr []))) (fresh (Some "cache/vhs.json"%string) 500)
    = Raised AttributeError.
Proof.
  apply (load_raises_on_wrong_shape _ _ "cache/vhs.json"%string (JArr []));
    [reflexivity | reflexivity | discriminate].
Defined.

(** Bytes that are not UTF-8 raise as well. *)
Lemma load_raises_on_bad_encoding (fs : disk) (c : t) (path : string) :
  cache_path c = Some path ->
  fs path = Some ReadUnicodeDecodeError ->
  load fs c = Raised UnicodeDecodeError.
Proof. intros Hp Hf. unfold load. now rewrite Hp, Hf. Qed.

(** An object without the key, or with a list of strings under it, is
    read as the spec has it. *)
Lemma load_reads_keys (fs : disk) (c : t) (path : string)
    (fields : list (string * json)) (items : list json) (keys : list string) :
  cache_path c = Some path ->
  fs path = Some (Decoded (JObj fields)) ->
  dict_get "processed_keys" fields (JArr []) = JArr items ->
  as_strings items = Some keys ->
  load fs c = Returned (set_keys c keys).
Proof. intros Hp Hf Hg Hs. unfold load. now rewrite Hp, Hf, Hg, Hs. Qed.

End CacheFacts.

(** ** The similarity matcher *)

Section StringFacts.

Lemma chars_of_append (a b : string) :
  list_ascii_of_string (a ++ b) = list_ascii_of_string a ++ list_ascii_of_string b.
Proof. induction a as [| c a IH]; cbn; [reflexivity | now rewrite IH]. Qed.

Lemma string_of_app (a b : Py.chars) :
  string_of_list_ascii (a ++ b) = (string_of_list_ascii a ++ string_of_list_ascii b)%string.
Proof. induction a as [| c a IH]; cbn; [reflexivity | now rewrite IH]. Qed.

Lemma starts_with_chars_spec (p s : Py.chars) :
  Py.starts_with_chars p s = true <-> exists post, s = p ++ post.
Proof.
  revert s. induction p as [| a p IH]; intros s; cbn.
  - split; [intros _; now exists s | reflexivity].
  - destruct s as [| b s].
    + split; [discriminate | intros (post & E); discriminate].
    + rewrite andb_true_iff, IH, Ascii.eqb_eq. split.
      * intros (-> & post & ->). now exists post.
      * intros (post & E). injection E as -> ->. split; [reflexivity | now exists post].
Qed.

Lemma contains_chars_spec (p s : Py.chars) :
  Py.contains_chars p s = true <-> exists pre post, s = pre ++ p ++ post.
Proof.
  induction s as [| c s IH].
  - cbn [Py.contains_chars]. rewrite orb_false_r, starts_with_chars_spec. split.
    + intros (post & E). now exists [], post.
    + intros (pre & post & E). destruct pre; [now exists post | discriminate].
  - cbn [Py.contains_chars]. rewrite orb_true_iff, starts_with_chars_spec, IH. split.
    + intros [(post & E) | (pre & post & E)].
      * now exists [], post.
      * exists (c :: pre), post. now rewrite E.
    + intros (pre & post & E). destruct pre as [| c' pre].
      * left. now exists post.
      * right. injection E as -> E. now exists pre, post.
Qed.

Lemma contains_spec (p s : string) : Py.contains p s = true <-> occurs p s.
Proof.
  unfold Py.contains, occurs. rewrite contains_chars_spec. split.
  - intros (pre & post & E).
    exists (string_of_list_ascii pre), (string_of_list_ascii post).
    rewrite <- (string_of_list_ascii_of_string s), E, !string_of_app.
    now rewrite string_of_list_ascii_of_string.
  - intros (pre & post & ->).
    exists (list_ascii_of_string pre), (list_ascii_of_string post).
    now rewrite !chars_of_append.
Qed.

Lemma contains_false (p s : string) : Py.contains p s = false <-> ~ occurs p s.
Proof.
  rewrite <- contains_spec. destruct (Py.contains p s); split; congruence.
Qed.

Lemma contains_self (s : string) : Py.contains s s = true.
Proof.
  apply contains_spec. exists ""%string, ""%string. cbn.
  induction s as [| c s IH]; cbn; [reflexivity | now rewrite <- IH].
Qed.

Lemma truthy_lower (s : string) : Py.truthy (Py.lower s) = Py.truthy s.
Proof. now destruct s. Qed.

Lemma truthy_spec (s : string) : Py.truthy s = true <-> s <> ""%string.
Proof. destruct s; cbn; split; congruence. Qed.

Lemma split_empty : Py.split "" = [].
Proof. reflexivity. Qed.

Lemma inter_self (l : list string) : Py.inter l l = l.
Proof.
  unfold Py.inter. apply forallb_filter_id. apply forallb_forall.
  intros x Hx. unfold Py.mem_str. apply existsb_exists.
  exists x. split; [assumption | apply String.eqb_refl].
Qed.

Lemma inter_disjoint (a b : list string) :
  (forall w, In w a -> ~ In w b) -> Py.inter a b = [].
Proof.
  intros H. unfold Py.inter. induction a as [| x a IH]; [reflexivity |].
  cbn. destruct (Py.mem_str x b) eqn:E.
  - apply mem_str_In in E. destruct (H x (or_introl eq_refl) E).
  - apply IH. intros w Hw. apply H. now right.
Qed.

Lemma to_set_nonempty (l : list string) : l <> [] -> Py.to_set l <> [].
Proof.
  destruct l as [| x l]; [congruence |]. intros _ E.
  assert (Hx : In x (Py.to_set (x :: l))) by (apply nodup_In; now left).
  rewrite E in Hx. destruct Hx.
Qed.

End StringFacts.

Section Haversine.
Local Open Scope R_scope.

(** The term under the square roots lies between 0 and 1, whatever the
    coordinates: neither root leaves the domain of [math.sqrt]. *)
Lemma haversine_term_bounds (lat1 lon1 lat2 lon2 : R) :
  let dlat := Utils.radians lat2 - Utils.radians lat1 in
  let dlon := Utils.radians lon2 - Utils.radians lon1 in
  let a := (sin (dlat / 2)) ^ 2
           + cos (Utils.radians lat1) * cos (Utils.radians lat2) * (sin (dlon / 2)) ^ 2 in
  0 <= a <= 1.
Proof.
  intros dlat dlon a. subst a.
  set (p1 := Utils.radians lat1) in *. set (p2 := Utils.radians lat2) in *.
  assert (HD : cos dlat = 1 - 2 * (sin (dlat / 2)) ^ 2).
  { replace dlat with (2 * (dlat / 2)) at 1 by field.
    rewrite cos_2a_sin. ring. }
  assert (HS : 2 * (cos p1 * cos p2) = cos dlat + cos (p2 + p1)).
  { unfold dlat. rewrite cos_minus, cos_plus. ring. }
  pose proof (COS_bound dlat) as [D1 D2].
  pose proof (COS_bound (p2 + p1)) as [S1 S2].
  pose proof (SIN_bound (dlon / 2)) as [T1 T2].
  set (D := cos dlat) in *. set (S := cos (p2 + p1)) in *.
  set (s1 := sin (dlat / 2)) in *. set (s2 := sin (dlon / 2)) in *.
  set (cc := cos p1 * cos p2) in *.
  assert (Ht : 0 <= s2 ^ 2 <= 1) by nra.
  set (t := s2 ^ 2) in *.
  assert (Hs1 : s1 ^ 2 = (1 - D) / 2) by lra.
  assert (Hcc : cc = (D + S) / 2) by lra.
  rewrite Hs1, Hcc. split; nra.
Qed.

End Haversine.

Section SimilarityFacts.
Import Similarity.

(** The haversine distance of a point to itself is zero. *)
Lemma calculate_distance_same (lat lon : R) :
  Utils.calculate_distance lat lon lat lon = 0%R.
Proof.
  unfold Utils.calculate_distance.
  replace (Utils.radians lon - Utils.radians lon)%R with 0%R by ring.
  replace (Utils.radians lat - Utils.radians lat)%R with 0%R by ring.
  replace (0 / 2)%R with 0%R by field.
  rewrite sin_0.
  replace (0 ^ 2 + cos (Utils.radians lat) * cos (Utils.radians lat) * 0 ^ 2)%R
    with 0%R by ring.
  rewrite sqrt_0.
  replace (1 - 0)%R with 1%R by ring.
  rewrite sqrt_1. unfold Utils.atan2.
  destruct (Rlt_dec 0 1) as [_ | H]; [| lra].
  replace (0 / 1)%R with 0%R by field.
  rewrite atan_0. ring.
Qed.



Lemma within_1km_spec (a b c d : option Q) :
  within_1km a b c d = true <->
  (Utils.calculate_distance (coord a) (coord b) (coord c) (coord d) < 1)%R.
Proof.
  unfold within_1km. destruct (Rlt_dec _ 1); split; auto; discriminate.
Qed.

Lemma within_1km_same (a b : option Q) : within_1km a b a b = true.
Proof. apply within_1km_spec. rewrite calculate_distance_same. lra. Qed.



End SimilarityFacts.

Section SimilarityClaims.
Import Similarity.


End SimilarityClaims.

(** ** The distance and the score in binary64 *)

Section DistanceFacts.
Local Open Scope float_scope.

Variables libm_sin libm_cos : float -> float.
Variables libm_atan2 libm_pow : float -> float -> float.

Lemma sin_zero :
  libm_sin 0 = 0 -> Binary64.sin libm_sin 0 = Binary64.Value 0.
Proof.
  intros E. unfold Binary64.sin, Binary64.math_1. rewrite E. reflexivity.
Qed.

Lemma cos_value (x : float) :
  (abs (libm_cos x) <=? 1) = true ->
  Binary64.cos libm_cos x = Binary64.Value (libm_cos x).
Proof.
  intros Hcos. unfold Binary64.cos, Binary64.math_1.
  destruct (is_finite_not_nan _ (le_one_finite _ Hcos)) as [-> ->]. reflexivity.
Qed.

Lemma radians_finite (x : float) :
  is_finite x = true -> is_finite (Binary64.radians x) = true.
Proof. intros H. now apply is_finite_number, radians_number. Qed.

(** From a point to itself the distance is exactly zero. *)
Lemma distance_same_point (lat lon : float) :
  regular libm_sin libm_cos ->
  is_finite lat = true -> is_finite lon = true ->
  Binary64.calculate_distance libm_sin libm_cos libm_atan2 libm_pow lat lon lat lon
  = Binary64.Value 0.
Proof.
  intros [Hsin Hcos] Hlat Hlon. unfold Binary64.calculate_distance. cbv zeta.
  rewrite (sub_self _ (radians_number lat Hlat)).
  rewrite (sub_self _ (radians_number lon Hlon)).
  change (0 / 2) with 0. rewrite (sin_zero Hsin). cbn [Binary64.bind].
  change (Binary64.square libm_pow 0) with (Binary64.Value 0). cbn [Binary64.bind].
  pose proof (Hcos _ (radians_finite lat Hlat)) as Hc.
  rewrite (cos_value _ Hc). cbn [Binary64.bind].
  rewrite (haversine_term_zero _ _ Hc Hc). reflexivity.
Qed.

(** The square root of a number below zero is a domain error. *)
Lemma sqrt_negative (x : float) :
  (x <? 0) = true -> Binary64.sqrt x = Binary64.ValueError.
Proof.
  intros H. rewrite ltb_spec in H.
  unfold Binary64.sqrt, Binary64.math_1.
  assert (Hn : is_nan (PrimFloat.sqrt x) = true /\ is_nan x = false).
  { unfold is_nan. rewrite !eqb_spec, sqrt_spec.
    destruct (Prim2SF x) as [s | s | | s m e]; try destruct s; try discriminate H;
      split; try reflexivity.
    cbn. unfold SFeqb, SFcompare. now rewrite Z.compare_refl, Pos.compare_cont_refl. }
  destruct Hn as [-> ->]. reflexivity.
Qed.

Lemma near_spec (event historical : Event.t) :
  Binary64.near libm_sin libm_cos libm_atan2 libm_pow
    (Binary64.coord (Event.location_lat event))
    (Binary64.coord (Event.location_lon event))
    (Binary64.coord (Event.location_lat historical))
    (Binary64.coord (Event.location_lon historical)) = true
  <-> within_1km libm_sin libm_cos libm_atan2 libm_pow event historical.
Proof.
  unfold within_1km, Binary64.near, Binary64.coord.
  destruct (Event.location_lat event) as [a |],
           (Event.location_lon event) as [b |],
           (Event.location_lat historical) as [c |],
           (Event.location_lon historical) as [d |]; cbn [option_map forallb Binary64.truthy_num];
    try (split; [try discriminate; rewrite ?andb_false_r; discriminate
                | intros (? & ? & ? & ? & ? & H1 & H2 & H3 & H4 & _); discriminate]).
  split.
  - destruct (Binary64.of_Q a =? 0) eqn:Ea; [discriminate |].
    destruct (Binary64.of_Q b =? 0) eqn:Eb; [discriminate |].
    destruct (Binary64.of_Q c =? 0) eqn:Ec; [discriminate |].
    destruct (Binary64.of_Q d =? 0) eqn:Ed; [discriminate |].
    cbn [negb andb].
    destruct (Binary64.calculate_distance _ _ _ _ _ _ _ _) as [x | |] eqn:E;
      try discriminate.
    intros Hx. exists a, b, c, d, x. rewrite Ea, Eb, Ec, Ed, E. repeat split. exact Hx.
  - intros (a' & b' & c' & d' & x & [= <-] & [= <-] & [= <-] & [= <-]
            & -> & -> & -> & -> & -> & Hx).
    exact Hx.
Qed.

End DistanceFacts.

Section MatcherFacts.
Local Open Scope float_scope.

(** A title with at least one word adds the full title weight against
    itself. *)
Lemma add_title_same (t : string) :
  Py.split t <> [] -> Binary64.add_title 0 t t = Binary64.weight_title.
Proof.
  intros Hw. unfold Binary64.add_title.
  assert (Ht : Py.truthy t = true).
  { destruct t; [now rewrite split_empty in Hw | reflexivity]. }
  rewrite Ht. cbn [andb].
  pose proof (to_set_nonempty _ Hw) as Hs.
  destruct (Py.to_set (Py.split t)) as [| w ws] eqn:E; [congruence |].
  cbv zeta. rewrite inter_self, true_divide_same by discriminate. reflexivity.
Qed.

(** Titles without a common word add nothing. *)
Lemma add_title_disjoint (t u : string) :
  (forall w, In w (Py.to_set (Py.split t)) -> ~ In w (Py.to_set (Py.split u))) ->
  Binary64.add_title 0 t u = 0.
Proof.
  intros H. unfold Binary64.add_title.
  destruct (Py.truthy u && Py.truthy t); [| reflexivity].
  destruct (Py.to_set (Py.split t)) as [| w ws] eqn:Et; [reflexivity |].
  destruct (Py.to_set (Py.split u)) as [| v vs] eqn:Eu; [reflexivity |].
  cbv zeta. rewrite (inter_disjoint _ _ H). reflexivity.
Qed.

(** The location step, case by case. *)
Lemma add_location_cases (score : float) (a b : string) :
  a <> ""%string -> b <> ""%string ->
  (occurs a b \/ occurs b a ->
   Binary64.add_location score a b = score + Binary64.weight_location) /\
  (~ (occurs a b \/ occurs b a) ->
   (exists w, In w (Py.split a) /\ occurs w b) ->
   Binary64.add_location score a b = score + Binary64.weight_location_partial) /\
  (~ (occurs a b \/ occurs b a) ->
   ~ (exists w, In w (Py.split a) /\ occurs w b) ->
   Binary64.add_location score a b = score).
Proof.
  intros Ha Hb. apply truthy_spec in Ha, Hb.
  unfold Binary64.add_location. rewrite Ha, Hb. cbn [andb].
  assert (Hfull : Py.contains a b || Py.contains b a = true <-> occurs a b \/ occurs b a)
    by now rewrite orb_true_iff, !contains_spec.
  assert (Hword : existsb (fun word => Py.contains word b) (Py.split a) = true <->
                  exists w, In w (Py.split a) /\ occurs w b).
  { rewrite existsb_exists. split; intros (w & Hw & Ho); exists w;
      (split; [assumption | now apply contains_spec]). }
  destruct (Py.contains a b || Py.contains b a).
  - repeat split; auto; intros H; exfalso; apply H; now apply Hfull.
  - destruct (existsb (fun word => Py.contains word b) (Py.split a)).
    + repeat split; auto.
      * intros H. apply Hfull in H. discriminate.
      * intros _ H. exfalso. apply H. now apply Hword.
    + repeat split; auto.
      * intros H. apply Hfull in H. discriminate.
      * intros _ H. apply Hword in H. discriminate.
Qed.

Lemma add_location_unrelated (score : float) (a b : string) :
  ~ occurs a b -> ~ occurs b a ->
  ~ (exists w, In w (Py.split a) /\ occurs w b) ->
  Binary64.add_location score a b = score.
Proof.
  intros Hab Hba Hw.
  destruct (Py.truthy b && Py.truthy a) eqn:E.
  - apply andb_true_iff in E. destruct E as [Eb Ea].
    apply truthy_spec in Ea, Eb.
    apply (add_location_cases score a b Ea Eb); tauto.
  - unfold Binary64.add_location. now rewrite E.
Qed.

Lemma insert_desc_perm64 (x : Binary64.similar) (l : list Binary64.similar) :
  Permutation (Binary64.insert_desc x l) (x :: l).
Proof.
  induction l as [| y l IH]; cbn; [reflexivity |].
  destruct (Binary64.score x <? Binary64.score y); [| reflexivity].
  rewrite IH. apply perm_swap.
Qed.

Lemma sort_desc_perm64 (l : list Binary64.similar) :
  Permutation (Binary64.sort_desc l) l.
Proof.
  induction l as [| x l IH]; cbn; [reflexivity |].
  rewrite insert_desc_perm64. now constructor.
Qed.

End MatcherFacts.

Section ScoreClaims.
Local Open Scope float_scope.

Variables libm_sin libm_cos : float -> float.
Variables libm_atan2 libm_pow : float -> float -> float.

Local Abbreviation pair_score :=
  (Binary64.pair_score libm_sin libm_cos libm_atan2 libm_pow).
Local Abbreviation _find_similar_events :=
  (Binary64._find_similar_events libm_sin libm_cos libm_atan2 libm_pow).
Local Abbreviation near := (Binary64.near libm_sin libm_cos libm_atan2 libm_pow).

(** The score is the three steps in a row, from [0.0]. *)
Lemma pair_score_steps (event historical : Event.t) :
  pair_score event historical =
  Binary64.add_proximity
    (Binary64.add_location
       (Binary64.add_title 0 (Py.lower (Py.get_str (Event.title event)))
                             (Py.lower (Py.get_str (Event.title historical))))
       (place event) (place historical))
    (near (Binary64.coord (Event.location_lat event))
          (Binary64.coord (Event.location_lon event))
          (Binary64.coord (Event.location_lat historical))
          (Binary64.coord (Event.location_lon historical))).
Proof. reflexivity. Qed.

(** The same sound coordinates on both sides pass the test. *)
Lemma near_same (la lo : Q) :
  regular libm_sin libm_cos ->
  sound_coordinate la -> sound_coordinate lo ->
  near (Some (Binary64.of_Q la)) (Some (Binary64.of_Q lo))
       (Some (Binary64.of_Q la)) (Some (Binary64.of_Q lo)) = true.
Proof.
  intros Hlibm [Fa Za] [Fo Zo]. unfold Binary64.near.
  cbn [forallb Binary64.truthy_num]. rewrite Za, Zo. cbn [negb andb].
  rewrite (distance_same_point libm_sin libm_cos libm_atan2 libm_pow _ _ Hlibm Fa Fo).
  reflexivity.
Qed.

(** What is returned: the historical events whose score is strictly above
    the threshold, each with its score. *)
Lemma find_similar_events_spec (event : Event.t) (historical_events : list Event.t)
    (r : Binary64.similar) :
  In r (_find_similar_events event historical_events) <->
  In (Binary64.event r) historical_events /\
  Binary64.score r = pair_score event (Binary64.event r) /\
  (Binary64.threshold <? Binary64.score r) = true.
Proof.
  assert (Hc : In r (Binary64.candidates libm_sin libm_cos libm_atan2 libm_pow
                       event historical_events) <->
               In (Binary64.event r) historical_events /\
               Binary64.score r = pair_score event (Binary64.event r) /\
               (Binary64.threshold <? Binary64.score r) = true).
  { unfold Binary64.candidates. rewrite in_flat_map. split.
    - intros (h & Hh & Hr). cbv zeta in Hr.
      destruct (Binary64.threshold <? pair_score event h) eqn:E; [| destruct Hr].
      destruct Hr as [<- | []]. cbn. auto.
    - intros (Hh & Hs & Ht). exists (Binary64.event r). split; [assumption |].
      cbv zeta.
      rewrite <- Hs, Ht. left. now destruct r. }
  unfold Binary64._find_similar_events.
  destruct historical_events as [| h hs].
  - split; [intros [] | intros ([] & _)].
  - rewrite <- Hc. split; apply Permutation_in;
      [| symmetry]; apply sort_desc_perm64.
Qed.

(** C6, amended.  (1) Same title with at least one word, same non-empty
    place name, same coordinates, all four there, finite and not zero: the
    score is the float sum 0.6 + 0.3 + 0.1, which is 0.9999999999999999,
    the float just below 1.0.  (2) No common title word, place names of
    which neither occurs in the other and no word of the candidate's
    occurs in the historical one, and coordinates that do not pass the
    test of the distance: the score is 0.0.  (3) The result holds exactly
    the historical events whose score is strictly above 0.3. *)
Theorem find_similar_events_scores :
  (forall (event historical : Event.t) (la lo : Q),
     regular libm_sin libm_cos ->
     Event.title event = Event.title historical ->
     title_words event <> [] ->
     Event.location_name event = Event.location_name historical ->
     place event <> ""%string ->
     Event.location_lat event = Some la -> Event.location_lon event = Some lo ->
     Event.location_lat historical = Some la -> Event.location_lon historical = Some lo ->
     sound_coordinate la -> sound_coordinate lo ->
     pair_score event historical = 0x1.fffffffffffffp-1) /\
  (forall event historical : Event.t,
     (forall w, In w (title_words event) -> ~ In w (title_words historical)) ->
     ~ occurs (place event) (place historical) ->
     ~ occurs (place historical) (place event) ->
     ~ (exists w, In w (Py.split (place event)) /\ occurs w (place historical)) ->
     ~ within_1km libm_sin libm_cos libm_atan2 libm_pow event historical ->
     pair_score event historical = 0) /\
  (forall (event : Event.t) (historical_events : list Event.t) (r : Binary64.similar),
     In r (_find_similar_events event historical_events) <->
     In (Binary64.event r) historical_events /\
     Binary64.score r = pair_score event (Binary64.event r) /\
     (Binary64.threshold <? Binary64.score r) = true).
Proof.
  split; [| split].
  - intros event historical la lo Hlibm Ht Hw Hn Hp Ela Elo Hla Hlo Sla Slo.
    assert (Hsame : place historical = place event)
      by (unfold place; now rewrite Hn).
    rewrite pair_score_steps, Hsame, <- Ht, Ela, Elo, Hla, Hlo.
    cbn [Binary64.coord option_map].
    rewrite (near_same la lo Hlibm Sla Slo), add_title_same.
    + destruct (add_location_cases Binary64.weight_title (place event) (place event) Hp Hp)
        as [Hfull _].
      rewrite Hfull; [reflexivity |].
      left. apply contains_spec, contains_self.
    + intros E. apply Hw. unfold title_words. now rewrite E.
  - intros event historical Hw Hab Hba Hword Hfar.
    rewrite pair_score_steps.
    rewrite (add_title_disjoint _ _ Hw).
    rewrite (add_location_unrelated _ _ _ Hab Hba Hword).
    destruct (near _ _ _ _) eqn:E; [| reflexivity].
    exfalso. apply Hfar. now apply near_spec.
  - intros event historical_events r. apply find_similar_events_spec.
Qed.

(** C7, amended.  The location step of the score, for two non-empty
    lowercased names: it adds 0.3 when one name occurs in the other;
    otherwise 0.15 when some word of the candidate's name occurs in the
    historical name; otherwise nothing. *)
Theorem location_name_component (event historical : Event.t) :
  place event <> ""%string -> place historical <> ""%string ->
  let before :=
    Binary64.add_title 0 (Py.lower (Py.get_str (Event.title event)))
                         (Py.lower (Py.get_str (Event.title historical))) in
  let after := Binary64.add_location before (place event) (place historical) in
  pair_score event historical =
    Binary64.add_proximity after
      (near (Binary64.coord (Event.location_lat event))
            (Binary64.coord (Event.location_lon event))
            (Binary64.coord (Event.location_lat historical))
            (Binary64.coord (Event.location_lon historical))) /\
  (occurs (place event) (place historical) \/ occurs (place historical) (place event) ->
   after = before + Binary64.weight_location) /\
  (~ (occurs (place event) (place historical) \/ occurs (place historical) (place event)) ->
   (exists w, In w (Py.split (place event)) /\ occurs w (place historical)) ->
   after = before + Binary64.weight_location_partial) /\
  (~ (occurs (place event) (place historical) \/ occurs (place historical) (place event)) ->
   ~ (exists w, In w (Py.split (place event)) /\ occurs w (place historical)) ->
   after = before).
Proof.
  intros Ha Hb before after. split; [apply pair_score_steps |].
  apply (add_location_cases before _ _ Ha Hb).
Qed.

End ScoreClaims.

(** C6, as the spec has it, fails twice.  On a pair with the same title,
    the same place and the same coordinates the three full weights add up
    to the float just below 1.0 when the coordinates pass the test (and to
    less when they do not): the score is not 1.0.  And on two records
    without a title, same place, same coordinates, it is 0.4 at most. *)
Lemma full_match_scores_below_one :
  Event.title Examples.choir_new = Event.title Examples.choir_old /\
  Event.location_name Examples.choir_new = Event.location_name Examples.choir_old /\
  Event.location_lat Examples.choir_new = Event.location_lat Examples.choir_old /\
  Event.location_lon Examples.choir_new = Event.location_lon Examples.choir_old /\
  Binary64.accumulate true Examples.choir_new Examples.choir_old
    = 0x1.fffffffffffffp-1%float /\
  Binary64.accumulate false Examples.choir_new Examples.choir_old
    = 0x1.cccccccccccccp-1%float /\
  (0x1.fffffffffffffp-1 <? 1)%float = true /\
  Event.title Examples.untitled_new = Event.title Examples.untitled_old /\
  Event.location_name Examples.untitled_new = Event.location_name Examples.untitled_old /\
  Event.location_lat Examples.untitled_new = Event.location_lat Examples.untitled_old /\
  Event.location_lon Examples.untitled_new = Event.location_lon Examples.untitled_old /\
  Binary64.accumulate true Examples.untitled_new Examples.untitled_old
    = 0x1.999999999999ap-2%float /\
  Binary64.accumulate false Examples.untitled_new Examples.untitled_old
    = 0x1.3333333333333p-2%float.
Proof. repeat split; vm_compute; reflexivity. Qed.

Lemma find_similar_events_scores_witness :
  Binary64.pair_score Stub.sin Stub.cos Stub.atan2 Stub.pow
    Examples.choir_new Examples.choir_old = 0x1.fffffffffffffp-1%float.
Proof.
  apply (proj1 (find_similar_events_scores Stub.sin Stub.cos Stub.atan2 Stub.pow)
           Examples.choir_new Examples.choir_old Examples.hof_lat Examples.hof_lon);
    try reflexivity.
  - split; [reflexivity | intros x _; unfold Stub.cos; now destruct (_ =? _)%float].
  - vm_compute. discriminate.
  - vm_compute. discriminate.
  - split; reflexivity.
  - split; reflexivity.
Defined.

(** C7, as stated, fails on "big art" against "party hall": neither name
    occurs in the other and they share no word, yet the step adds 0.15,
    because "art" occurs inside "party". *)
Lemma location_component_without_shared_word :
  place Examples.big_art <> ""%string /\
  place Examples.party_hall <> ""%string /\
  ~ occurs (place Examples.big_art) (place Examples.party_hall) /\
  ~ occurs (place Examples.party_hall) (place Examples.big_art) /\
  ~ shares_word (place Examples.big_art) (place Examples.party_hall) /\
  Binary64.add_location 0 (place Examples.big_art) (place Examples.party_hall)
    = Binary64.weight_location_partial /\
  (Binary64.weight_location_partial =? 0)%float = false.
Proof.
  repeat split.
  - vm_compute. discriminate.
  - vm_compute. discriminate.
  - apply contains_false. reflexivity.
  - apply contains_false. reflexivity.
  - intros (w & Ha & Hb). vm_compute in Ha, Hb.
    destruct Ha as [<- | [<- | []]]; destruct Hb as [H | [H | []]]; discriminate H.
Qed.

Lemma location_name_component_witness :
  Binary64.add_location
    (Binary64.add_title 0 (Py.lower (Py.get_str (Event.title Examples.big_art)))
                          (Py.lower (Py.get_str (Event.title Examples.party_hall))))
    (place Examples.big_art) (place Examples.party_hall)
  = (Binary64.add_title 0 (Py.lower (Py.get_str (Event.title Examples.big_art)))
                          (Py.lower (Py.get_str (Event.title Examples.party_hall)))
     + Binary64.weight_location_partial)%float.
Proof.
  assert (Ha : place Examples.big_art <> ""%string) by (vm_compute; discriminate).
  assert (Hb : place Examples.party_hall <> ""%string) by (vm_compute; discriminate).
  destruct (location_name_component Stub.sin Stub.cos Stub.atan2 Stub.pow
              Examples.big_art Examples.party_hall Ha Hb)
    as (_ & _ & Hpartial & _).
  apply Hpartial.
  - intros [H | H]; apply contains_spec in H; vm_compute in H; discriminate H.
  - exists "art"%string. split.
    + vm_compute. right. left. reflexivity.
    + apply contains_spec. reflexivity.
Defined.

(** ** The review state machine *)

(** What every operation of the editor leaves as it is: a relation between
    the world before and the world after that each primitive respects is
    respected by the whole. *)
Create HintDb preserves.

Section Preservation.
Import Editor.

Variable validate_event_data : Event.t -> string + Event.t.
Variable parse_float : string -> option Q.
Variable now : string.
Variable normalize : string -> string.

Variable R : World -> World -> Prop.
Hypothesis R_refl : forall w, R w w.
Hypothesis R_trans : forall w1 w2 w3, R w1 w2 -> R w2 w3 -> R w1 w3.
Hypothesis R_events : forall l w, R w (set_events l w).
Hypothesis R_pending : forall l w, R w (set_pending l w).
Hypothesis R_backups : forall l w, R w (set_backups l w).
Hypothesis R_console : forall l w, R w (set_console l w).
Hypothesis R_stdin : forall line rest w, stdin w = line :: rest -> R w (set_stdin rest w).
Hypothesis R_rejected : forall l w, R w (set_rejected (rejected w ++ l) w).

Lemma preserves_ret {A} (a : A) : preserves R (ret a).
Proof. intros w. apply R_refl. Qed.

Lemma preserves_raise {A} (e : exn) : preserves R (@raise A e).
Proof. intros w. apply R_refl. Qed.

Lemma preserves_bind {A B} (m : M A) (k : A -> M B) :
  preserves R m -> (forall a, preserves R (k a)) -> preserves R (bind m k).
Proof.
  intros Hm Hk w. unfold bind. specialize (Hm w).
  destruct (m w) as [[a | e] w']; cbn in *.
  - eapply R_trans; [exact Hm | apply Hk].
  - exact Hm.
Qed.

Lemma preserves_input : preserves R input.
Proof.
  intros w. unfold input. destruct (stdin w) eqn:E; cbn; [apply R_refl |].
  now apply R_stdin with (line := s).
Qed.

Lemma preserves_print (o : output) : preserves R (print o).
Proof. intros w. apply R_console. Qed.

Lemma preserves_load_events : preserves R load_events.
Proof. intros w. apply R_refl. Qed.

Lemma preserves_load_pending_events : preserves R load_pending_events.
Proof. intros w. apply R_refl. Qed.

Lemma preserves_load_historical_events : preserves R load_historical_events.
Proof. intros w. apply R_refl. Qed.

Lemma preserves_rounds : preserves R rounds.
Proof. intros w. apply R_refl. Qed.

Lemma preserves_save_events (l : list Event.t) : preserves R (save_events l).
Proof. intros w. apply R_events. Qed.

Lemma preserves_save_pending_events (l : list Event.t) : preserves R (save_pending_events l).
Proof. intros w. apply R_pending. Qed.

Lemma preserves_backup (e : Event.t) : preserves R (backup_published_event e).
Proof. intros w. apply R_backups. Qed.

Lemma preserves_update_html : preserves R update_events_in_html.
Proof. apply preserves_ret. Qed.

Lemma preserves_add_rejected_event (t s : string) :
  preserves R (add_rejected_event now normalize t s).
Proof. intros w. apply R_rejected. Qed.

Lemma preserves_add_pending (c : Event.t) : preserves R (add_pending normalize c).
Proof.
  intros w. unfold add_pending.
  destruct (is_event_rejected normalize c w); cbn; [apply R_refl | apply R_pending].
Qed.

Hint Resolve preserves_ret preserves_raise preserves_input preserves_print
  preserves_load_events preserves_load_pending_events
  preserves_load_historical_events preserves_rounds preserves_save_events
  preserves_save_pending_events preserves_backup preserves_update_html
  preserves_add_rejected_event preserves_add_pending : preserves.

Ltac preserve :=
  repeat first
    [ progress auto with preserves
    | apply preserves_bind; [| intros ?]
    | match goal with
      | |- preserves R (if ?b then _ else _) => destruct b
      | |- preserves R (match ?x with _ => _ end) => destruct x
      end ].

Lemma preserves_approve_event (e : Event.t) :
  preserves R (_approve_event validate_event_data now e).
Proof. unfold _approve_event. preserve. Qed.

Lemma preserves_reject_event (e : Event.t) :
  preserves R (_reject_event now normalize e).
Proof. unfold _reject_event. preserve. Qed.

Lemma preserves_edit_event (e : Event.t) : preserves R (_edit_event parse_float e).
Proof. unfold _edit_event, edit_field, edit_coordinate. preserve. Qed.

Hint Resolve preserves_approve_event preserves_reject_event
  preserves_edit_event : preserves.

Lemma preserves_for_each_selected {A} (act : Event.t -> M A) (idxs : list Z)
    (pending_events : list Event.t) :
  (forall e, preserves R (act e)) ->
  preserves R (for_each_selected act idxs pending_events).
Proof.
  intros Hact. revert pending_events.
  induction idxs as [| idx rest IH]; intros pending_events; cbn; preserve.
Qed.

Lemma preserves_batch_approve (pending_events : list Event.t) (selected : list Z) :
  preserves R (_batch_approve validate_event_data now pending_events selected).
Proof.
  unfold _batch_approve. preserve.
  apply preserves_for_each_selected. auto with preserves.
Qed.

Lemma preserves_batch_reject (pending_events : list Event.t) (selected : list Z) :
  preserves R (_batch_reject now normalize pending_events selected).
Proof.
  unfold _batch_reject. preserve.
  apply preserves_for_each_selected. auto with preserves.
Qed.

Lemma preserves_print_rows (idx : nat) (rows : list Event.t) (selected : list Z) :
  preserves R (print_rows idx rows selected).
Proof. revert idx. induction rows as [| e rows IH]; intros idx; cbn; preserve. Qed.

Lemma preserves_show_selected (idxs : list Z) (pending_events : list Event.t) :
  preserves R (show_selected idxs pending_events).
Proof. induction idxs as [| idx rest IH]; cbn; preserve. Qed.

Hint Resolve preserves_batch_approve preserves_batch_reject preserves_print_rows
  preserves_show_selected : preserves.

Lemma preserves_batch_loop (fuel : nat) (pending_events : list Event.t)
    (selected : list Z) :
  preserves R (batch_loop validate_event_data now normalize fuel pending_events selected).
Proof.
  revert pending_events selected.
  induction fuel as [| fuel IH]; intros pending_events selected;
    cbn [batch_loop]; preserve.
Qed.

Lemma preserves_review_loop (fuel i : nat) (pending_events : list Event.t) :
  preserves R (review_loop validate_event_data parse_float now normalize
                         fuel i pending_events).
Proof.
  revert i pending_events.
  induction fuel as [| fuel IH]; intros i pending_events;
    cbn [review_loop]; preserve.
  unfold _batch_selection_mode. apply preserves_batch_loop.
Qed.

Lemma preserves_review_pending :
  preserves R (review_pending validate_event_data parse_float now normalize).
Proof.
  unfold review_pending. preserve. apply preserves_review_loop.
Qed.

Lemma preserves_perform (a : action) (w : World) :
  R w (perform validate_event_data parse_float now normalize a w).
Proof.
  destruct a; cbn [perform].
  - apply preserves_approve_event.
  - apply preserves_reject_event.
  - apply preserves_add_pending.
  - apply preserves_review_pending.
Qed.

Lemma preserves_perform_all (actions : list action) (w : World) :
  R w (perform_all validate_event_data parse_float now normalize actions w).
Proof.
  revert w. induction actions as [| a actions IH]; intros w; cbn.
  - apply R_refl.
  - eapply R_trans; [apply preserves_perform | apply IH].
Qed.

End Preservation.

Create HintDb tidy.

(** The bound on the rounds of the two loops is never reached: every round
    reads a line before anything else, and no operation puts lines back. *)
Section RoundsSuffice.
Import Editor.

Variable validate_event_data : Event.t -> string + Event.t.
Variable parse_float : string -> option Q.
Variable now : string.
Variable normalize : string -> string.

Lemma tidy_ret {A} (a : A) : tidy (ret a).
Proof. intros n w _. cbn. split; [discriminate | lia]. Qed.

Lemma tidy_raise {A} (e : exn) : e <> Exhausted -> tidy (@raise A e).
Proof. intros He n w _. cbn. split; [congruence | lia]. Qed.

Lemma tidy_below_bind {A B} (n : nat) (m : M A) (k : A -> M B) :
  tidy_below n m -> (forall a, tidy_below n (k a)) -> tidy_below n (bind m k).
Proof.
  intros Hm Hk w Hw. unfold bind. destruct (Hm w Hw) as [He Hl].
  destruct (m w) as [[a | e] w1]; cbn in *.
  - destruct (Hk a w1) as [He' Hl']; [lia |]. split; [exact He' | lia].
  - split; [intros [= ->]; now apply He | exact Hl].
Qed.

Lemma tidy_bind {A B} (m : M A) (k : A -> M B) :
  tidy m -> (forall a, tidy (k a)) -> tidy (bind m k).
Proof. intros Hm Hk n. apply tidy_below_bind; [apply Hm | intros a; apply Hk]. Qed.

(** Reading a line pays for one more round. *)
Lemma tidy_below_input {B} (n : nat) (k : string -> M B) :
  (forall line, tidy_below n (k line)) -> tidy_below (S n) (bind input k).
Proof.
  intros Hk w Hw. unfold bind, input.
  destruct (stdin w) as [| line rest] eqn:E; cbn.
  - split; [discriminate | rewrite E; cbn; lia].
  - destruct (Hk line (set_stdin rest w)) as [He Hl]; [cbn in *; lia |].
    split; [exact He |]. cbn in Hl. cbn. lia.
Qed.

Lemma tidy_input : tidy input.
Proof.
  intros n w _. unfold input. destruct (stdin w) eqn:E; cbn.
  - split; [discriminate | rewrite E; cbn; lia].
  - split; [discriminate | lia].
Qed.

Lemma tidy_state {A} (a : A) (f : World -> World) :
  (forall w, stdin (f w) = stdin w) -> tidy (fun w => (Return a, f w)).
Proof. intros Hf n w _. cbn. split; [discriminate | rewrite Hf; lia]. Qed.

Lemma tidy_print (o : output) : tidy (print o).
Proof. now apply tidy_state. Qed.

Lemma tidy_save_events (l : list Event.t) : tidy (save_events l).
Proof. now apply tidy_state. Qed.

Lemma tidy_save_pending_events (l : list Event.t) : tidy (save_pending_events l).
Proof. now apply tidy_state. Qed.

Lemma tidy_backup (e : Event.t) : tidy (backup_published_event e).
Proof. now apply tidy_state. Qed.

Lemma tidy_add_rejected_event (t s : string) : tidy (add_rejected_event now normalize t s).
Proof. now apply tidy_state. Qed.

Lemma tidy_load_events : tidy load_events.
Proof. intros n w _. cbn. split; [discriminate | lia]. Qed.

Lemma tidy_load_pending_events : tidy load_pending_events.
Proof. intros n w _. cbn. split; [discriminate | lia]. Qed.

Lemma tidy_load_historical_events : tidy load_historical_events.
Proof. intros n w _. cbn. split; [discriminate | lia]. Qed.

Lemma tidy_update_html : tidy update_events_in_html.
Proof. apply tidy_ret. Qed.

Hint Resolve tidy_ret tidy_input tidy_print tidy_save_events
  tidy_save_pending_events tidy_backup tidy_add_rejected_event tidy_load_events
  tidy_load_pending_events tidy_load_historical_events tidy_update_html : tidy.

Ltac tidy_up :=
  repeat first
    [ progress auto with tidy
    | apply tidy_raise; discriminate
    | apply tidy_bind; [| intros ?]
    | match goal with
      | |- tidy (if ?b then _ else _) => destruct b
      | |- tidy (match ?x with _ => _ end) => destruct x
      end ].

Lemma tidy_approve_event (e : Event.t) : tidy (_approve_event validate_event_data now e).
Proof. unfold _approve_event. tidy_up. Qed.

Lemma tidy_reject_event (e : Event.t) : tidy (_reject_event now normalize e).
Proof. unfold _reject_event. tidy_up. Qed.

Lemma tidy_edit_event (e : Event.t) : tidy (_edit_event parse_float e).
Proof. unfold _edit_event, edit_field, edit_coordinate. tidy_up. Qed.

Lemma tidy_for_each_selected {A} (act : Event.t -> M A) (idxs : list Z)
    (pending_events : list Event.t) :
  (forall e, tidy (act e)) -> tidy (for_each_selected act idxs pending_events).
Proof.
  intros Hact. revert pending_events.
  induction idxs as [| idx rest IH]; intros pending_events; cbn; tidy_up.
Qed.

Lemma tidy_batch_approve (pending_events : list Event.t) (selected : list Z) :
  tidy (_batch_approve validate_event_data now pending_events selected).
Proof.
  unfold _batch_approve. tidy_up.
  apply tidy_for_each_selected, tidy_approve_event.
Qed.

Lemma tidy_batch_reject (pending_events : list Event.t) (selected : list Z) :
  tidy (_batch_reject now normalize pending_events selected).
Proof.
  unfold _batch_reject. tidy_up.
  apply tidy_for_each_selected, tidy_reject_event.
Qed.

Lemma tidy_print_rows (idx : nat) (rows : list Event.t) (selected : list Z) :
  tidy (print_rows idx rows selected).
Proof. revert idx. induction rows as [| e rows IH]; intros idx; cbn; tidy_up. Qed.

Lemma tidy_show_selected (idxs : list Z) (pending_events : list Event.t) :
  tidy (show_selected idxs pending_events).
Proof. induction idxs as [| idx rest IH]; cbn; tidy_up. Qed.

Hint Resolve tidy_approve_event tidy_reject_event tidy_edit_event
  tidy_batch_approve tidy_batch_reject tidy_print_rows tidy_show_selected : tidy.

Ltac in_round IH IH' :=
  repeat first
    [ apply IH
    | apply IH'
    | match goal with
      | |- tidy_below _ ?m => assert (T : tidy m) by tidy_up; exact (T _)
      end
    | apply tidy_below_bind; [| intros ?]
    | match goal with
      | |- tidy_below _ (if ?b then _ else _) => destruct b
      | |- tidy_below _ (match ?x with _ => _ end) => destruct x
      end ].

Lemma batch_loop_tidy (fuel : nat) (pending_events : list Event.t) (selected : list Z) :
  tidy_below fuel
    (batch_loop validate_event_data now normalize fuel pending_events selected).
Proof.
  revert pending_events selected.
  induction fuel as [| fuel IH]; intros pending_events selected.
  - intros w Hw. lia.
  - cbn [batch_loop]. apply tidy_below_bind; [apply tidy_print_rows |].
    intros _. apply tidy_below_input. intros line.
    in_round IH IH.
Qed.

Lemma review_loop_tidy (fuel i : nat) (pending_events : list Event.t) :
  tidy_below fuel
    (review_loop validate_event_data parse_float now normalize fuel i pending_events).
Proof.
  revert i pending_events.
  induction fuel as [| fuel IH]; intros i pending_events.
  - intros w Hw. lia.
  - cbn [review_loop].
    destruct (nth_error pending_events i) as [event |]; [| apply tidy_ret].
    apply tidy_below_bind; [apply tidy_print |].
    intros _. apply tidy_below_input. intros line.
    pose proof batch_loop_tidy as Hbatch. unfold _batch_selection_mode.
    in_round IH Hbatch.
Qed.

(** [review_pending] never stops for want of rounds. *)
Lemma review_pending_rounds_suffice (w : World) :
  fst (review_pending validate_event_data parse_float now normalize w)
    <> Raise Exhausted.
Proof.
  unfold review_pending, bind at 1, load_pending_events.
  destruct (pending w) as [| e l] eqn:E.
  - unfold bind, input. destruct (stdin w); cbn; discriminate.
  - unfold bind at 1, load_historical_events.
    unfold bind at 1, rounds.
    assert (H : tidy_below (S (List.length (stdin w)))
                  (pending_data <-
                     review_loop validate_event_data parse_float now normalize
                       (S (List.length (stdin w))) 0 (e :: l) ;;
                   save_pending_events pending_data)).
    { apply tidy_below_bind; [apply review_loop_tidy |].
      intros a. apply tidy_save_pending_events. }
    apply H. lia.
Qed.

End RoundsSuffice.

Section EditorClaims.
Import Editor.

Variable validate_event_data : Event.t -> string + Event.t.
Variable parse_float : string -> option Q.
Variable now : string.
Variable normalize : string -> string.

(** A failed validation leaves every store as it was and raises the
    validator's own error. *)
Lemma approve_event_fails_closed (event : Event.t) (msg : string) (w : World) :
  validate_event_data event = inl msg ->
  _approve_event validate_event_data now event w =
  (Raise (ValueError msg), set_console (console w ++ [ValidationMessage msg]) w).
Proof. intros H. unfold _approve_event. now rewrite H. Qed.

(** In the review loop the error of a failed approval is not caught: the
    loop is left at once, with the lines that follow unread. *)
Lemma review_loop_stops_on_validation_error
    (fuel i : nat) (pending_events : list Event.t) (event : Event.t)
    (msg line : string) (rest : list string) (w : World) :
  nth_error pending_events i = Some event ->
  validate_event_data event = inl msg ->
  stdin w = line :: rest ->
  Py.lower (Py.strip line) = "a"%string ->
  exists w',
    review_loop validate_event_data parse_float now normalize
                (S fuel) i pending_events w = (Raise (ValueError msg), w') /\
    events w' = events w /\ pending w' = pending w /\
    backups w' = backups w /\ rejected w' = rejected w /\ stdin w' = rest /\
    console w' =
      console w ++ [ReviewHeader (i + 1) (List.length pending_events) event;
                    ValidationMessage msg].
Proof.
  intros Hi Hv Hin Ha. eexists. split.
  - cbn [review_loop]. rewrite Hi.
    unfold bind, print, input. cbn [stdin set_console]. rewrite Hin, Ha.
    cbn [String.eqb Ascii.eqb Bool.eqb].
    rewrite (approve_event_fails_closed event msg _ Hv). reflexivity.
  - cbn. rewrite <- app_assoc. auto 7.
Qed.

(** With something to review, [review_pending] is the loop followed by the
    write of the pending store. *)
Lemma review_pending_unfold (event : Event.t) (others : list Event.t) (w : World) :
  pending w = event :: others ->
  review_pending validate_event_data parse_float now normalize w =
  bind (review_loop validate_event_data parse_float now normalize
                    (S (List.length (stdin w))) 0 (event :: others))
       save_pending_events w.
Proof.
  intros Hp.
  cbv beta iota delta [review_pending bind load_pending_events
                       load_historical_events rounds].
  rewrite Hp. reflexivity.
Qed.

(** A batch approval that returns leaves the published store as it found
    it: the snapshot read before the loop is written back after it. *)
Lemma batch_approve_writes_back_snapshot
    (pending_events remaining : list Event.t) (selected : list Z) (w w' : World) :
  _batch_approve validate_event_data now pending_events selected w
    = (Return remaining, w') ->
  events w' = events w /\ pending w' = remaining.
Proof.
  unfold _batch_approve, bind, load_events.
  destruct (for_each_selected _ _ _ w) as [[left_over | e] w1]; [| discriminate].
  cbn. intros [= <- <-]. cbn. auto.
Qed.

(** A rejection record stays through everything but the operator's
    clearing. *)
Lemma rejections_stay (actions : list action) (w : World) :
  incl (rejected w)
       (rejected (perform_all validate_event_data parse_float now normalize actions w)).
Proof.
  apply (preserves_perform_all validate_event_data parse_float now normalize
           (fun w1 w2 => incl (rejected w1) (rejected w2))); cbn; intros.
  - apply incl_refl.
  - eapply incl_tran; eauto.
  - apply incl_refl.
  - apply incl_refl.
  - apply incl_refl.
  - apply incl_refl.
  - apply incl_refl.
  - apply incl_appl, incl_refl.
Qed.

(** C5.  Rejecting an event that has a title and a source writes a record
    under the normalized pair; after any run of approvals, rejections,
    scrapes and reviews, a candidate with that normalized pair is dropped
    and the pending store stays as it is; once the operator has cleared the
    pair, the candidate is taken. *)
Theorem rejected_candidate_is_suppressed
    (event candidate : Event.t) (actions : list action) (w : World) :
  Py.get_str (Event.title event) <> ""%string ->
  Py.get_str (Event.source event) <> ""%string ->
  normalize (Py.get_str (Event.title candidate))
    = normalize (Py.get_str (Event.title event)) ->
  normalize (Py.get_str (Event.source candidate))
    = normalize (Py.get_str (Event.source event)) ->
  let w1 := snd (_reject_event now normalize event w) in
  let w2 := perform_all validate_event_data parse_float now normalize actions w1 in
  let w3 := snd (clear_rejected normalize (Py.get_str (Event.title event))
                                (Py.get_str (Event.source event)) w2) in
  In (mk_rejection (normalize (Py.get_str (Event.title event)))
                   (normalize (Py.get_str (Event.source event))) now)
     (rejected w1) /\
  add_pending normalize candidate w2 = (Return false, w2) /\
  add_pending normalize candidate w3
    = (Return true, set_pending (pending w3 ++ [candidate]) w3).
Proof.
  intros Ht Hs Et Es w1 w2 w3.
  assert (H1 : In (mk_rejection (normalize (Py.get_str (Event.title event)))
                                (normalize (Py.get_str (Event.source event))) now)
                  (rejected w1)).
  { subst w1. unfold _reject_event.
    apply truthy_spec in Ht, Hs. rewrite Ht, Hs. cbn.
    apply in_or_app. right. now left. }
  split; [exact H1 | split].
  - unfold add_pending.
    replace (is_event_rejected normalize candidate w2) with true; [reflexivity |].
    symmetry. apply existsb_exists. eexists. split.
    + apply (rejections_stay actions w1). exact H1.
    + unfold matches. cbn. rewrite Et, Es, !String.eqb_refl. reflexivity.
  - unfold add_pending.
    replace (is_event_rejected normalize candidate w3) with false; [reflexivity |].
    symmetry. unfold is_event_rejected. subst w3. cbn [clear_rejected snd rejected set_rejected].
    apply not_true_is_false. intros H. apply existsb_exists in H.
    destruct H as (r & Hr & Hm). apply filter_In in Hr. destruct Hr as [_ Hr].
    unfold matches in Hm. rewrite Et, Es in Hm. rewrite Hm in Hr. discriminate.
Qed.

End EditorClaims.

Lemma rejected_candidate_is_suppressed_witness :
  Editor.add_pending Scenario.fold_key Scenario.spam_again
    (Editor.perform_all Scenario.require_title Scenario.no_float Scenario.noon
       Scenario.fold_key
       [Editor.Scrape Examples.choir_new; Editor.Approve Examples.choir_new; Editor.Review]
       (snd (Editor._reject_event Scenario.noon Scenario.fold_key Scenario.spam
               Scenario.quiet_world)))
  = (Editor.Return false,
     Editor.perform_all Scenario.require_title Scenario.no_float Scenario.noon
       Scenario.fold_key
       [Editor.Scrape Examples.choir_new; Editor.Approve Examples.choir_new; Editor.Review]
       (snd (Editor._reject_event Scenario.noon Scenario.fold_key Scenario.spam
               Scenario.quiet_world))).
Proof.
  apply (rejected_candidate_is_suppressed Scenario.require_title Scenario.no_float
           Scenario.noon Scenario.fold_key Scenario.spam Scenario.spam_again).
  - vm_compute. discriminate.
  - vm_compute. discriminate.
  - reflexivity.
  - reflexivity.
Defined.

(** C3, where the review loop stops.  When the operator approves the
    first pending event and the schema refuses it, nothing is written (no
    backup, published and pending stores as they were), the validator's
    error is what [review_pending] raises, and the review ends there: the
    other pending events are not shown and the lines that follow are not
    read. *)
Theorem review_pending_aborts_on_validation_error
    (validate_event_data : Event.t -> string + Event.t)
    (parse_float : string -> option Q) (now : string) (normalize : string -> string)
    (event : Event.t) (others : list Event.t) (msg line : string)
    (rest : list string) (w : Editor.World) :
  Editor.pending w = event :: others ->
  validate_event_data event = inl msg ->
  Editor.stdin w = line :: rest ->
  Py.lower (Py.strip line) = "a"%string ->
  let run := Editor.review_pending validate_event_data parse_float now normalize w in
  fst run = Editor.Raise (Editor.ValueError msg) /\
  Editor.events (snd run) = Editor.events w /\
  Editor.backups (snd run) = Editor.backups w /\
  Editor.pending (snd run) = event :: others /\
  Editor.stdin (snd run) = rest /\
  Editor.console (snd run) =
    Editor.console w
    ++ [Editor.ReviewHeader 1 (S (List.length others)) event;
        Editor.ValidationMessage msg].
Proof.
  intros Hp Hv Hin Ha run. subst run.
  rewrite (review_pending_unfold validate_event_data parse_float now normalize
             event others w Hp).
  destruct (review_loop_stops_on_validation_error
              validate_event_data parse_float now normalize
              (List.length (Editor.stdin w)) 0 (event :: others) event msg line rest w
              eq_refl Hv Hin Ha)
    as (w' & Hrun & He & Hpend & Hb & _ & Hs & Hc).
  unfold Editor.bind. rewrite Hrun. cbn [fst snd].
  rewrite He, Hb, Hpend, Hs, Hc. cbn [List.length Nat.add]. auto 7.
Qed.

Lemma review_pending_aborts_on_validation_error_witness :
  let run := Editor.review_pending Scenario.require_title Scenario.no_float
               Scenario.noon Scenario.fold_key Scenario.review_world in
  fst run = Editor.Raise (Editor.ValueError "title: field required") /\
  Editor.events (snd run) = [] /\
  Editor.pending (snd run) = [Examples.untitled_new; Examples.choir_new] /\
  Editor.stdin (snd run) = ["a"%string].
Proof.
  destruct (review_pending_aborts_on_validation_error
              Scenario.require_title Scenario.no_float Scenario.noon Scenario.fold_key
              Examples.untitled_new [Examples.choir_new] "title: field required" "a"
              ["a"%string] Scenario.review_world)
    as (Hr & He & _ & Hp & Hs & _); try reflexivity.
  repeat split; assumption.
Defined.

(** C4, on ten pending events and the commands 'range 1-5', 'approve',
    'yes': items 6 to 10 stay pending and the next heading is number 1, but
    the published store ends as it began, with none of items 1 to 5 in it;
    only their backups exist. *)
Theorem batch_approve_range_loses_published :
  let run := Editor.review_pending Scenario.require_title Scenario.no_float
               Scenario.noon Scenario.fold_key Scenario.batch_world in
  fst run = Editor.Return tt /\
  Editor.events (snd run) = [Examples.choir_old] /\
  (forall e, In e Scenario.first_five ->
     ~ In (Event.id e) (map Event.id (Editor.events (snd run)))) /\
  map Event.id (Editor.backups (snd run))
    = rev (map Event.id Scenario.first_five) /\
  Editor.pending (snd run) = Scenario.last_five /\
  last (Editor.console (snd run)) (Editor.ValidationMessage "")
    = Editor.ReviewHeader 1 5 (Scenario.numbered "6").
Proof.
  vm_compute. repeat split.
  intros e H [E | []].
  repeat (destruct H as [<- | H]; [discriminate E |]). destruct H.
Qed.

(** ** The stable id *)

Section IdentityFacts.
Import Identity.




















Lemma join_chars_nil (sep : Py.chars) (l : list Py.chars) :
  l = [] -> Py.join_chars sep l = [].
Proof. now intros ->. Qed.







Section WithDigest.
Variable digest : string -> string.


End WithDigest.


(** Casing, blanks and punctuation together; time of day; no date. *)
Example generate_stable_event_id_samples :
  generate_stable_event_id (fun s => s) "vhs" (Some "  Jazz,  im PARK! "%string)
                           (Some "2026-01-08T19:00:00"%string)
    = Id "vhs_jazz im park|2026-01-08" /\
  generate_stable_event_id (fun s => s) "vhs" (Some "jazz im park"%string)
                           (Some "2026-01-08T20:30:00"%string)
    = Id "vhs_jazz im park|2026-01-08" /\
  generate_stable_event_id (fun s => s) "vhs" (Some "jazz im park"%string) None
    = Id "vhs_jazz im park|unscheduled" /\
  generate_stable_event_id (fun s => s) "vhs" (Some " ?! "%string) None = IdentityError /\
  generate_stable_event_id (fun s => s) "vhs" None None = IdentityError.
Proof. repeat split. Qed.

End IdentityFacts.

(** ** The coverage analysis *)

Section CoverageFacts.
Import EntityResolver.

Lemma applies_tier_of (t : tier) (f : entity_fields) :
  applies t f = true <-> tier_of f = t.
Proof.
  unfold applies, tier_of.
  destruct t, (embedded f), (override f); cbn; split; congruence.
Qed.

Lemma coverage_fold (events : list event) (st : stats) :
  let st' := fold_left coverage_step events st in
  total_events st' = total_events st /\
  (forall t (get : tier_counts -> nat),
     (t = Tier1Reference /\ get = tier_1_reference) \/
     (t = Tier2Override /\ get = tier_2_override) \/
     (t = Tier3Embedded /\ get = tier_3_embedded) ->
     get (locations st') = get (locations st) + in_tier location_fields t events /\
     get (organizers st') = get (organizers st) + in_tier organizer_fields t events).
Proof.
  revert st. induction events as [| e events IH]; intros st; cbn.
  - split; [reflexivity |]. intros t get _. unfold in_tier. cbn.
    now rewrite !Nat.add_0_r.
  - destruct (IH (coverage_step st e)) as [Htot Hcnt]. split; [exact Htot |].
    intros t get Hsel. destruct (Hcnt t get Hsel) as [Hl Ho].
    rewrite Hl, Ho. unfold in_tier. cbn [filter].
    cbn [coverage_step locations organizers count_tiers
         tier_1_reference tier_2_override tier_3_embedded].
    destruct Hsel as [[-> ->] | [[-> ->] | [-> ->]]];
      cbn [coverage_step locations organizers count_tiers
           tier_1_reference tier_2_override tier_3_embedded];
      unfold applies, count;
      destruct (embedded (location_fields e)), (override (location_fields e)),
               (embedded (organizer_fields e)), (override (organizer_fields e));
      cbn; lia.
Qed.

(** Of the three tiers exactly one applies to each event of a batch. *)
Lemma in_tier_total (kind : event -> entity_fields) (events : list event) :
  in_tier kind Tier1Reference events + in_tier kind Tier2Override events
  + in_tier kind Tier3Embedded events = List.length events.
Proof.
  unfold in_tier. induction events as [| e events IH]; [reflexivity |].
  cbn [filter List.length applies].
  destruct (embedded (kind e)), (override (kind e)); cbn in *; lia.
Qed.

(** C9.  To every event, and for either kind of entity, exactly one of the
    three tiers applies, the one that field presence selects with the
    inline object before the override before the reference; the analysis
    counts, for locations and for organizers apart, the events each tier
    applies to; and for either kind the three counts add up to the size of
    the batch, whatever the batch. *)
Theorem analyze_entity_coverage_partitions (events : list event) :
  let st := analyze_entity_coverage events in
  total_events st = List.length events /\
  (forall f : entity_fields,
     (exists t, applies t f = true /\ forall t', applies t' f = true -> t' = t) /\
     (embedded f = true -> applies Tier3Embedded f = true) /\
     (embedded f = false -> override f = true -> applies Tier2Override f = true) /\
     (embedded f = false -> override f = false -> applies Tier1Reference f = true)) /\
  (tier_1_reference (locations st) = in_tier location_fields Tier1Reference events /\
   tier_2_override (locations st) = in_tier location_fields Tier2Override events /\
   tier_3_embedded (locations st) = in_tier location_fields Tier3Embedded events) /\
  (tier_1_reference (organizers st) = in_tier organizer_fields Tier1Reference events /\
   tier_2_override (organizers st) = in_tier organizer_fields Tier2Override events /\
   tier_3_embedded (organizers st) = in_tier organizer_fields Tier3Embedded events) /\
  total (locations st) = List.length events /\
  total (organizers st) = List.length events.
Proof.
  intros st.
  destruct (coverage_fold events
              (mk_stats (List.length events) (mk_counts 0 0 0) (mk_counts 0 0 0)))
    as [Htot Hcnt].
  change (fold_left coverage_step events _) with st in Htot, Hcnt.
  destruct (Hcnt Tier1Reference tier_1_reference) as [L1 O1]; [tauto |].
  destruct (Hcnt Tier2Override tier_2_override) as [L2 O2]; [tauto |].
  destruct (Hcnt Tier3Embedded tier_3_embedded) as [L3 O3]; [tauto |].
  cbn in Htot, L1, L2, L3, O1, O2, O3.
  split; [exact Htot |]. split; [| split; [| split; [| split]]].
  - intros f. split; [| split; [| split]].
    + exists (tier_of f). split; [now apply applies_tier_of |].
      intros t' H. symmetry. now apply applies_tier_of.
    + cbn. auto.
    + cbn. now intros -> ->.
    + cbn. now intros -> ->.
  - auto.
  - auto.
  - unfold total. rewrite L1, L2, L3. apply in_tier_total.
  - unfold total. rewrite O1, O2, O3. apply in_tier_total.
Qed.

(** The assertions of [test_entity_coverage_analysis]; its events carry no
    organizer data, so for organizers all three are references that
    resolve to nothing. *)
Example test_entity_coverage_analysis :
  let st := analyze_entity_coverage CoverageTest.events in
  total_events st = 3 /\
  tier_1_reference (locations st) = 1 /\
  tier_2_override (locations st) = 1 /\
  tier_3_embedded (locations st) = 1 /\
  tier_1_reference (organizers st) = 3 /\
  total (organizers st) = 3.
Proof. repeat split. Qed.

End CoverageFacts.

(* ================================================================== *)
(** * Part III: further properties of the code *)
(* ================================================================== *)

(** ** [source_cache.py] *)

Section CacheMore.
Import SourceCache.

Lemma as_strings_of_keys (keys : list string) : as_strings (map JStr keys) = Some keys.
Proof. induction keys as [| k keys IH]; cbn; [reflexivity | now rewrite IH]. Qed.

(** What [save] writes, [load] reads back, whatever the capacity of the
    cache that loads: the keys come back in order and none is dropped, and
    no other file is touched. *)
Theorem save_then_load (now path : string) (fs : disk) (c c' : t) :
  cache_path c = Some path ->
  cache_path c' = Some path ->
  load (save now fs c) c' = Returned (set_keys c' (processed_keys c)) /\
  (forall other, other <> path -> save now fs c other = fs other).
Proof.
  intros Hp Hp'. split.
  - unfold load, save. rewrite Hp', Hp, String.eqb_refl. cbn.
    now rewrite as_strings_of_keys.
  - intros other Ho. unfold save. rewrite Hp.
    destruct (String.eqb_spec other path); congruence.
Qed.

Lemma save_then_load_witness :
  load (save "2026-01-10T12:00:00" (fun _ => None)
             (mk (Some "cache/vhs.json"%string) 500 ["k1"; "k2"; "k3"]%string))
       (fresh (Some "cache/vhs.json"%string) 2)
  = Returned (mk (Some "cache/vhs.json"%string) 2 ["k1"; "k2"; "k3"]%string).
Proof.
  apply (save_then_load "2026-01-10T12:00:00" "cache/vhs.json" (fun _ => None)
           (mk (Some "cache/vhs.json"%string) 500 ["k1"; "k2"; "k3"]%string)
           (fresh (Some "cache/vhs.json"%string) 2)); reflexivity.
Defined.

Lemma In_lastn_last {A} (m : nat) (l : list A) (x : A) :
  1 <= m -> In x (lastn m (l ++ [x])).
Proof.
  intros Hm. unfold lastn. rewrite length_app, skipn_app. cbn [List.length].
  apply in_or_app. right.
  replace (List.length l + 1 - m - List.length l) with 0 by lia. now left.
Qed.

(** A key that has just been marked is known, for every capacity that is
    not negative. *)
Theorem mark_then_is_processed (key : string) (c : t) :
  (0 <= max_entries c)%Z ->
  is_processed key (mark_processed key c) = true.
Proof.
  intros Hcap. unfold is_processed, mark_processed.
  destruct (Py.mem_str key (processed_keys c)) eqn:E; [exact E |].
  destruct (_ <? _)%Z eqn:Hover; cbn [processed_keys set_keys]; apply mem_str_In.
  - destruct (Z.eq_dec (max_entries c) 0) as [H0 | Hpos].
    + rewrite H0, slice_from_zero. apply in_or_app. right. now left.
    + replace (max_entries c) with (Z.of_nat (Z.to_nat (max_entries c))) by lia.
      rewrite slice_from_last by lia. apply In_lastn_last. lia.
  - apply in_or_app. right. now left.
Qed.

Lemma mark_then_is_processed_witness :
  is_processed "k3" (mark_processed "k3" (mk None 2 ["k1"; "k2"]%string)) = true.
Proof. apply mark_then_is_processed. cbn. lia. Defined.

Lemma NoDup_skipn {A} (n : nat) (l : list A) : NoDup l -> NoDup (skipn n l).
Proof.
  intros H. rewrite <- (firstn_skipn n l) in H.
  now apply NoDup_app_remove_l in H.
Qed.

Lemma NoDup_slice_from {A} (start : Z) (l : list A) :
  NoDup l -> NoDup (Py.slice_from start l).
Proof. intros H. unfold Py.slice_from. destruct (_ <? _)%Z; now apply NoDup_skipn. Qed.

(** The cache never holds a key twice, whatever its capacity. *)
Theorem mark_processed_no_duplicates (key : string) (c : t) :
  NoDup (processed_keys c) -> NoDup (processed_keys (mark_processed key c)).
Proof.
  intros Hnd. unfold mark_processed.
  destruct (Py.mem_str key (processed_keys c)) eqn:E; [exact Hnd |].
  apply mem_str_not_In in E.
  assert (H : NoDup (processed_keys c ++ [key])).
  { apply NoDup_app; [exact Hnd | repeat constructor; intros [] |].
    intros x Hx [<- | []]. contradiction. }
  destruct (_ <? _)%Z; cbn [processed_keys set_keys];
    [now apply NoDup_slice_from | exact H].
Qed.

Lemma mark_processed_no_duplicates_witness :
  NoDup (processed_keys (mark_processed "k3" (mk None 2 ["k1"; "k2"]%string))).
Proof.
  apply mark_processed_no_duplicates. cbn.
  repeat constructor; cbn; intuition discriminate.
Defined.

(** The retention window.  In a fresh cache of capacity [m >= 1] into which
    distinct keys are marked, a key is still known exactly while fewer than
    [m] keys have been marked after it. *)
Theorem retention_window (path : option string) (m : nat)
    (before after : list string) (key : string) :
  1 <= m -> NoDup (before ++ key :: after) ->
  is_processed key (mark_all (before ++ key :: after) (fresh path (Z.of_nat m)))
    = (List.length after <? m).
Proof.
  intros Hm Hnd. unfold is_processed.
  rewrite (mark_all_fifo (before ++ key :: after) [] (fresh path (Z.of_nat m)) m);
    auto.
  cbn [app]. unfold lastn. rewrite length_app, skipn_app. cbn [List.length].
  destruct (Nat.ltb_spec (List.length after) m) as [Hin | Hout].
  - apply mem_str_In, in_or_app. right.
    replace (List.length before + S (List.length after) - m - List.length before)
      with 0 by lia.
    now left.
  - apply mem_str_not_In. intros Hx. apply in_app_or in Hx.
    apply NoDup_remove_2 in Hnd. apply Hnd. apply in_or_app.
    destruct Hx as [Hx | Hx].
    + left. rewrite <- (firstn_skipn (List.length before + S (List.length after) - m) before).
      apply in_or_app. now right.
    + right.
      remember (List.length before + S (List.length after) - m - List.length before) as k.
      destruct k as [| k]; [lia |]. cbn in Hx.
      rewrite <- (firstn_skipn k after). apply in_or_app. now right.
Qed.

Lemma retention_window_witness :
  is_processed "k1" (mark_all (["k0"%string] ++ "k1"%string :: ["k2"%string; "k3"%string])
                             (fresh None 2)) = false.
Proof.
  apply (retention_window None 2 ["k0"]%string ["k2"; "k3"]%string "k1"%string).
  - lia.
  - repeat constructor; cbn; intuition discriminate.
Defined.

Lemma mark_all_bounded_witness :
  (Z.of_nat (List.length (processed_keys
      (mark_all ["a"; "b"; "a"; "c"; "d"]%string (fresh None 2)))) <= 2)%Z.
Proof.
  apply (mark_all_bounded ["a"; "b"; "a"; "c"; "d"]%string (fresh None 2)); cbn; lia.
Defined.

Lemma mark_all_fresh_witness :
  processed_keys (mark_all ["a"; "b"; "c"; "d"]%string (fresh None 2))
    = ["c"; "d"]%string.
Proof.
  apply (mark_all_fresh None 2 ["a"; "b"; "c"; "d"]%string).
  - lia.
  - repeat constructor; cbn; intuition discriminate.
Defined.

End CacheMore.

(** ** [utils.py] *)

Section UtilsMore.
Local Open Scope R_scope.


End UtilsMore.

Section SunriseMore.

(** The next sunrise is at 06:00:00 sharp, strictly after now and at most a
    day later, whatever the coordinates. *)
Theorem get_next_sunrise_is_next (lat lon : R) (now : Utils.datetime) :
  valid_time now ->
  let sunrise := Utils.get_next_sunrise lat lon now in
  (Utils.hour sunrise, Utils.minute sunrise, Utils.second sunrise,
   Utils.microsecond sunrise) = (6, 0, 0, 0) /\
  (microseconds now < microseconds sunrise <= microseconds now + 24 * 3600 * 1000000)%Z.
Proof.
  intros (Hh & Hm & Hs & Hu) sunrise. subst sunrise.
  unfold Utils.get_next_sunrise, microseconds.
  destruct (Nat.leb_spec 6 (Utils.hour now)) as [Hlate | Hearly]; cbn; split;
    try reflexivity; lia.
Qed.

Lemma get_next_sunrise_is_next_witness :
  let now := Utils.mk_datetime 739000 6 0 0 0 in
  let sunrise := Utils.get_next_sunrise 50 12 now in
  (Utils.hour sunrise, Utils.minute sunrise, Utils.second sunrise,
   Utils.microsecond sunrise) = (6, 0, 0, 0) /\
  (microseconds now < microseconds sunrise <= microseconds now + 24 * 3600 * 1000000)%Z.
Proof.
  apply get_next_sunrise_is_next. unfold valid_time. cbn. lia.
Defined.

End SunriseMore.

(** ** [utils.py] and [editor.py] in binary64: more *)

Section DistanceMore.
Local Open Scope float_scope.

Variables libm_sin libm_cos : float -> float.
Variables libm_atan2 libm_pow : float -> float -> float.

Local Abbreviation calculate_distance :=
  (Binary64.calculate_distance libm_sin libm_cos libm_atan2 libm_pow).

(** In binary64, the distance of a point with finite coordinates to itself
    is exactly 0.0, for a C library whose sine of zero is zero and whose
    cosines lie in [-1, 1]; and when the term under the square roots, as
    rounded, is above 1, so that one minus it is negative, the call raises
    [ValueError] where the formula over the reals has a distance. *)
Theorem calculate_distance_same_point :
  (forall lat lon : float,
     regular libm_sin libm_cos ->
     is_finite lat = true -> is_finite lon = true ->
     calculate_distance lat lon lat lon = Binary64.Value 0) /\
  (forall lat1 lon1 lat2 lon2 s1 q1 c1 c2 s2 q2 : float,
     Binary64.sin libm_sin ((Binary64.radians lat2 - Binary64.radians lat1) / 2)
       = Binary64.Value s1 ->
     Binary64.square libm_pow s1 = Binary64.Value q1 ->
     Binary64.cos libm_cos (Binary64.radians lat1) = Binary64.Value c1 ->
     Binary64.cos libm_cos (Binary64.radians lat2) = Binary64.Value c2 ->
     Binary64.sin libm_sin ((Binary64.radians lon2 - Binary64.radians lon1) / 2)
       = Binary64.Value s2 ->
     Binary64.square libm_pow s2 = Binary64.Value q2 ->
     (1 - (q1 + c1 * c2 * q2) <? 0) = true ->
     calculate_distance lat1 lon1 lat2 lon2 = Binary64.ValueError).
Proof.
  split.
  - intros lat lon. apply distance_same_point.
  - intros lat1 lon1 lat2 lon2 s1 q1 c1 c2 s2 q2 Hs1 Hq1 Hc1 Hc2 Hs2 Hq2 Hneg.
    unfold Binary64.calculate_distance. cbv zeta.
    rewrite Hs1. cbn [Binary64.bind]. rewrite Hq1. cbn [Binary64.bind].
    rewrite Hc1. cbn [Binary64.bind]. rewrite Hc2. cbn [Binary64.bind].
    rewrite Hs2. cbn [Binary64.bind]. rewrite Hq2. cbn [Binary64.bind].
    rewrite (sqrt_negative _ Hneg).
    unfold Binary64.sqrt, Binary64.math_1.
    destruct (_ && _); [reflexivity |]. destruct (_ && _); reflexivity.
Qed.

End DistanceMore.

Lemma calculate_distance_same_point_witness :
  Binary64.calculate_distance Stub.sin Stub.cos Stub.atan2 Stub.pow
    0x1.9147ae147ae14p+5 0x1.7d604189374bcp+3 0x1.9147ae147ae14p+5 0x1.7d604189374bcp+3
  = Binary64.Value 0 /\
  Binary64.calculate_distance Stub.sin Stub.cos Stub.atan2 Stub.pow 8 (-180) (-8) 0
  = Binary64.ValueError.
Proof.
  split.
  - apply (proj1 (calculate_distance_same_point Stub.sin Stub.cos Stub.atan2 Stub.pow));
      try reflexivity.
    split; [reflexivity | intros x _; unfold Stub.cos; now destruct (_ =? _)%float].
  - eapply (proj2 (calculate_distance_same_point Stub.sin Stub.cos Stub.atan2 Stub.pow));
      reflexivity.
Defined.

Section MatcherMore.
Local Open Scope float_scope.

Variables libm_sin libm_cos : float -> float.
Variables libm_atan2 libm_pow : float -> float -> float.

Local Abbreviation pair_score :=
  (Binary64.pair_score libm_sin libm_cos libm_atan2 libm_pow).
Local Abbreviation _find_similar_events :=
  (Binary64._find_similar_events libm_sin libm_cos libm_atan2 libm_pow).
Local Abbreviation descending :=
  (fun a b : Binary64.similar => (Binary64.score b <=? Binary64.score a) = true).
Local Abbreviation a_number :=
  (fun r : Binary64.similar => is_nan (Binary64.score r) = false).

Lemma insert_desc_Forall (P : Binary64.similar -> Prop) (x : Binary64.similar)
    (l : list Binary64.similar) :
  P x -> Forall P l -> Forall P (Binary64.insert_desc x l).
Proof.
  intros Hx Hl. apply (Permutation_Forall (x := x :: l)).
  - symmetry. apply insert_desc_perm64.
  - now constructor.
Qed.

Lemma insert_desc_sorted64 (x : Binary64.similar) (l : list Binary64.similar) :
  a_number x -> Forall a_number l ->
  Sorted descending l -> Sorted descending (Binary64.insert_desc x l).
Proof.
  intros Hx. induction l as [| y l IH]; intros Hl Hs; cbn.
  - repeat constructor.
  - apply Forall_cons_iff in Hl. destruct Hl as [Hy Hl].
    destruct (Binary64.score x <? Binary64.score y) eqn:E.
    + apply Sorted_inv in Hs. destruct Hs as [Hs Hh].
      constructor; [now apply IH |].
      destruct l as [| z l]; cbn.
      * constructor. now apply ltb_leb.
      * destruct (Binary64.score x <? Binary64.score z); constructor;
          [now inversion Hh | now apply ltb_leb].
    + constructor; [exact Hs |]. constructor. now apply not_ltb_leb.
Qed.

Lemma sort_desc_sorted64 (l : list Binary64.similar) :
  Forall a_number l -> Sorted descending (Binary64.sort_desc l).
Proof.
  induction l as [| x l IH]; intros Hl; cbn; [constructor |].
  apply Forall_cons_iff in Hl. destruct Hl as [Hx Hl].
  apply insert_desc_sorted64; auto.
  apply (Permutation_Forall (x := l)); [symmetry; apply sort_desc_perm64 | exact Hl].
Qed.

Lemma candidates_numbers (event : Event.t) (historical_events : list Event.t) :
  Forall a_number
         (Binary64.candidates libm_sin libm_cos libm_atan2 libm_pow
            event historical_events).
Proof.
  unfold Binary64.candidates.
  induction historical_events as [| h hs IH]; cbn [flat_map]; [constructor |].
  apply Forall_app. split; [| exact IH]. cbv zeta.
  destruct (Binary64.threshold <? pair_score event h) eqn:E; constructor;
    [| constructor].
  cbn [Binary64.score]. now apply ltb_not_nan in E.
Qed.

Lemma filter_insert_desc64 (q : float) (x : Binary64.similar) (l : list Binary64.similar) :
  filter (fun r => Binary64.score r =? q) (Binary64.insert_desc x l) =
  filter (fun r => Binary64.score r =? q) (x :: l).
Proof.
  induction l as [| y l IH]; [reflexivity |].
  cbn [Binary64.insert_desc].
  destruct (Binary64.score x <? Binary64.score y) eqn:E; [| reflexivity].
  cbn [filter] in *. rewrite IH.
  destruct (Binary64.score x =? q) eqn:Ex; destruct (Binary64.score y =? q) eqn:Ey;
    try reflexivity.
  rewrite (eqb_ltb_false _ _ _ Ex Ey) in E. discriminate E.
Qed.

Lemma filter_sort_desc64 (q : float) (l : list Binary64.similar) :
  filter (fun r => Binary64.score r =? q) (Binary64.sort_desc l) =
  filter (fun r => Binary64.score r =? q) l.
Proof.
  induction l as [| x l IH]; [reflexivity |].
  cbn [Binary64.sort_desc fold_right]. fold (Binary64.sort_desc l).
  rewrite filter_insert_desc64. cbn [filter]. now rewrite IH.
Qed.

(** The results come in descending order of score, and those that tie
    keep the order of the historical events they come from. *)
Theorem find_similar_events_order (event : Event.t) (historical_events : list Event.t) :
  Sorted (fun a b => (Binary64.score b <=? Binary64.score a) = true)
         (_find_similar_events event historical_events) /\
  (forall q : float,
     map Binary64.event
         (filter (fun r => Binary64.score r =? q)
                 (_find_similar_events event historical_events)) =
     filter (fun h => (Binary64.threshold <? pair_score event h)
                      && (pair_score event h =? q))
            historical_events).
Proof.
  unfold Binary64._find_similar_events. destruct historical_events as [| h hs].
  - split; [constructor | reflexivity].
  - split; [apply sort_desc_sorted64, candidates_numbers |].
    intros q. rewrite filter_sort_desc64. unfold Binary64.candidates.
    induction (h :: hs) as [| x l IH]; [reflexivity |].
    cbn [flat_map filter]. rewrite filter_app, map_app, IH.
    destruct (Binary64.threshold <? pair_score event x); cbn [filter andb app map];
      [| reflexivity].
    cbn [Binary64.score]. destruct (pair_score event x =? q); reflexivity.
Qed.

End MatcherMore.

(** Three eighths of 0.6 plus 0.3 and seven eighths of 0.6 are the same
    number, 0.525, before rounding; as floats the first is the smaller
    one, and the event with seven common words comes first. *)
Example rounding_orders_equal_sums :
  map (fun r => (Event.id (Binary64.event r), Binary64.score r))
      (Binary64._find_similar_events Stub.sin Stub.cos Stub.atan2 Stub.pow
         Examples.eight_words [Examples.three_and_place; Examples.seven_words])
  = [(Some "w_2"%string, 0x1.0cccccccccccdp-1%float);
     (Some "w_1"%string, 0x1.0ccccccccccccp-1%float)].
Proof. vm_compute. reflexivity. Qed.

(** The no-break space parts words and the capital letters of Latin-1 have
    a lower case, in the place names as everywhere. *)
Example place_names_in_latin1 :
  Binary64.add_location 0 ("theater" ++ Examples.nbsp ++ "hof") "stadthalle hof"
    = Binary64.weight_location_partial /\
  Binary64.add_location 0 (Py.lower (Examples.A_umlaut ++ "RGER HALLE"))
                          (Examples.a_umlaut ++ "rger halle")
    = Binary64.weight_location /\
  Binary64.accumulate true
    (Examples.event_at "n_1" Examples.nbsp "Theater Hof" Examples.hof_lat Examples.hof_lon)
    (Examples.event_at "n_0" Examples.nbsp "Theater Hof" Examples.hof_lat Examples.hof_lon)
    = 0x1.999999999999ap-2%float.
Proof. repeat split; vm_compute; reflexivity. Qed.

(** ** [editor.py]: more on the similarity matcher *)

Section SimilarityMore.
Import Similarity.
Local Open Scope Q_scope.


Lemma In_inter (a b : list string) (x : string) :
  In x (Py.inter a b) <-> In x a /\ In x b.
Proof. unfold Py.inter. now rewrite filter_In, mem_str_In. Qed.

Lemma inter_length_comm (a b : list string) :
  NoDup a -> NoDup b ->
  List.length (Py.inter a b) = List.length (Py.inter b a).
Proof.
  intros Ha Hb. apply Nat.le_antisymm; apply NoDup_incl_length;
    try (apply NoDup_filter; assumption);
    intros x Hx; apply In_inter; apply In_inter in Hx; tauto.
Qed.






(** The title step, which adds 0.6 times the number of common words over
    the larger of the two word counts, does not depend on which of the two
    titles is the candidate's. *)
Theorem title_component_symmetric (score : float) (t u : string) :
  Binary64.add_title score t u = Binary64.add_title score u t.
Proof.
  unfold Binary64.add_title. rewrite andb_comm.
  destruct (Py.truthy t && Py.truthy u); [| reflexivity].
  pose proof (NoDup_nodup string_dec (Py.split t)) as Nt.
  pose proof (NoDup_nodup string_dec (Py.split u)) as Nu.
  fold (Py.to_set (Py.split t)) in Nt. fold (Py.to_set (Py.split u)) in Nu.
  destruct (Py.to_set (Py.split t)) as [| w ws];
    destruct (Py.to_set (Py.split u)) as [| v vs]; try reflexivity.
  cbv zeta. now rewrite (inter_length_comm _ _ Nt Nu), Nat.max_comm.
Qed.

End SimilarityMore.

(** ** [editor.py]: more on the review state machine *)

Section EditMore.
Import Editor.

Variable parse_float : string -> option Q.

Lemma bind_returns {A B} (m : M A) (k : A -> M B) (w w' : World) (b : B) :
  bind m k w = (Return b, w') ->
  exists a w1, m w = (Return a, w1) /\ k a w1 = (Return b, w').
Proof.
  unfold bind. destruct (m w) as [[a | e] w1]; [| discriminate].
  intros H. now exists a, w1.
Qed.

Lemma anchored_refl (e : Event.t) : anchored e e.
Proof. repeat split. Qed.

Lemma anchored_trans (e1 e2 e3 : Event.t) :
  anchored e1 e2 -> anchored e2 e3 -> anchored e1 e3.
Proof. unfold anchored. intuition congruence. Qed.

Lemma edit_field_anchored (set : string -> Event.t -> Event.t) (e e' : Event.t)
    (w w' : World) :
  (forall v x, anchored x (set v x)) ->
  edit_field set e w = (Return e', w') -> anchored e e'.
Proof.
  intros Hset H. unfold edit_field in H.
  apply bind_returns in H. destruct H as (line & w1 & _ & H).
  unfold ret in H. injection H as <- _.
  destruct (Py.truthy (Py.strip line)); [apply Hset | apply anchored_refl].
Qed.

Lemma ensure_location_anchored (e : Event.t) : anchored e (Event.ensure_location e).
Proof. unfold Event.ensure_location. destruct (Event.location e); repeat split. Qed.

Lemma edit_coordinate_anchored (set : Q -> Event.t -> Event.t) (e e' : Event.t)
    (w w' : World) :
  (forall v x, anchored x (set v x)) ->
  edit_coordinate parse_float set e w = (Return e', w') -> anchored e e'.
Proof.
  intros Hset H. unfold edit_coordinate in H.
  apply bind_returns in H. destruct H as (line & w1 & _ & H).
  destruct (Py.truthy (Py.strip line));
    [| unfold ret in H; injection H as <- _; apply anchored_refl].
  destruct (parse_float (Py.strip line)); unfold ret in H; injection H as <- _.
  - eapply anchored_trans; [apply ensure_location_anchored | apply Hset].
  - apply ensure_location_anchored.
Qed.

Lemma set_location_anchored (l : Location.t) (e : Event.t) :
  anchored e (Event.set_location l e).
Proof. repeat split. Qed.

(** Editing never touches the id, the source, the status or the
    publication stamp of an event, whatever the operator answers. *)
Theorem edit_event_keeps_identity (event event' : Event.t) (w w' : World) :
  _edit_event parse_float event w = (Return event', w') ->
  anchored event event'.
Proof.
  unfold _edit_event. intros H.
  apply bind_returns in H. destruct H as (e1 & w1 & H1 & H).
  apply bind_returns in H. destruct H as (e2 & w2 & H2 & H).
  apply bind_returns in H. destruct H as (e3 & w3 & H3 & H).
  apply bind_returns in H. destruct H as (e4 & w4 & H4 & H).
  apply bind_returns in H. destruct H as (e5 & w5 & H5 & H).
  apply bind_returns in H. destruct H as (e6 & w6 & H6 & H).
  apply bind_returns in H. destruct H as (e7 & w7 & H7 & H).
  apply edit_field_anchored in H1; [| repeat split].
  apply edit_field_anchored in H2; [| repeat split].
  apply edit_field_anchored in H3.
  2:{ intros v x. eapply anchored_trans; [apply ensure_location_anchored |].
      unfold Event.set_location_name.
      destruct (Event.location (Event.ensure_location x)); repeat split. }
  apply edit_coordinate_anchored in H4.
  2:{ intros v x. unfold Event.set_location_lat.
      destruct (Event.location x); repeat split. }
  apply edit_coordinate_anchored in H5.
  2:{ intros v x. unfold Event.set_location_lon.
      destruct (Event.location x); repeat split. }
  apply edit_field_anchored in H6; [| repeat split].
  apply edit_field_anchored in H7; [| repeat split].
  apply edit_field_anchored in H; [| repeat split].
  repeat (eapply anchored_trans; [eassumption |]). apply anchored_refl.
Qed.

Lemma edit_field_blank (set : string -> Event.t -> Event.t) (e : Event.t)
    (line : string) (rest : list string) (w : World) :
  stdin w = line :: rest -> blank line ->
  edit_field set e w = (Return e, set_stdin rest w).
Proof.
  intros Hin Hb. unfold edit_field, bind, input. rewrite Hin, Hb. reflexivity.
Qed.

Lemma edit_coordinate_blank (set : Q -> Event.t -> Event.t) (e : Event.t)
    (line : string) (rest : list string) (w : World) :
  stdin w = line :: rest -> blank line ->
  edit_coordinate parse_float set e w = (Return e, set_stdin rest w).
Proof.
  intros Hin Hb. unfold edit_coordinate, bind, input. rewrite Hin, Hb. reflexivity.
Qed.

(** Pressing Enter at each of the eight prompts leaves the event exactly as
    it was; only the eight lines are consumed. *)
Theorem edit_event_all_blank (event : Event.t) (answers rest : list string) (w : World) :
  List.length answers = 8 ->
  Forall blank answers ->
  stdin w = answers ++ rest ->
  _edit_event parse_float event w = (Return event, set_stdin rest w).
Proof.
  intros Hlen Hblank Hin.
  do 8 (destruct answers as [| ? answers]; [discriminate |]).
  destruct answers; [| discriminate]. clear Hlen.
  repeat match goal with
         | H : Forall _ (_ :: _) |- _ => apply Forall_cons_iff in H; destruct H
         end.
  cbn [app] in Hin. unfold _edit_event.
  unfold bind at 1. erewrite edit_field_blank by eassumption.
  unfold bind at 1. erewrite edit_field_blank by (cbn; eauto).
  unfold bind at 1. erewrite edit_field_blank by (cbn; eauto).
  unfold bind at 1. erewrite edit_coordinate_blank by (cbn; eauto).
  unfold bind at 1. erewrite edit_coordinate_blank by (cbn; eauto).
  unfold bind at 1. erewrite edit_field_blank by (cbn; eauto).
  unfold bind at 1. erewrite edit_field_blank by (cbn; eauto).
  erewrite edit_field_blank by (cbn; eauto).
  reflexivity.
Qed.

End EditMore.

Lemma edit_event_keeps_identity_witness :
  anchored Examples.choir_new
    (Event.set_title "Chorprobe"
       (Event.set_location_name "Freiheitshalle" Examples.choir_new)).
Proof.
  apply (edit_event_keeps_identity Scenario.no_float Examples.choir_new _
           (Editor.mk_world [] [] [] [] []
              ["Chorprobe"; ""; " Freiheitshalle "; ""; ""; ""; ""; ""]%string [])
           (Editor.mk_world [] [] [] [] [] [] [])).
  reflexivity.
Defined.

Lemma edit_event_all_blank_witness :
  Editor._edit_event Scenario.no_float Examples.choir_new
    (Editor.mk_world [] [] [] [] []
       [""; " "; ""; ""; "  "; ""; ""; ""; "q"]%string [])
  = (Editor.Return Examples.choir_new,
     Editor.mk_world [] [] [] [] [] ["q"%string] []).
Proof.
  apply (edit_event_all_blank Scenario.no_float Examples.choir_new
           [""; " "; ""; ""; "  "; ""; ""; ""]%string ["q"%string]).
  - reflexivity.
  - repeat constructor.
  - reflexivity.
Defined.

Section ReviewSteps.
Import Editor.

Variable validate_event_data : Event.t -> string + Event.t.
Variable parse_float : string -> option Q.
Variable now : string.
Variable normalize : string -> string.

Lemma print_rows_prints (idx : nat) (rows : list Event.t) (selected : list Z) (w : World) :
  exists out, print_rows idx rows selected w
              = (Return tt, set_console (console w ++ out) w).
Proof.
  revert idx w. induction rows as [| e rows IH]; intros idx w; cbn [print_rows].
  - exists []. rewrite app_nil_r. now destruct w.
  - unfold bind, print. destruct (IH (S idx) (set_console (console w ++
      [BatchRow (idx + 1) (sel_mem (Z.of_nat idx) selected) e]) w)) as (out & ->).
    eexists. cbn. rewrite <- app_assoc. reflexivity.
Qed.

(** One round of the review loop: the loop is over. *)
Lemma review_round_done (fuel i : nat) (pending_events : list Event.t) (w : World) :
  nth_error pending_events i = None ->
  review_loop validate_event_data parse_float now normalize (S fuel) i pending_events w
  = (Return pending_events, w).
Proof. intros H. cbn [review_loop]. now rewrite H. Qed.

(** One round of the review loop: 'q'. *)
Lemma review_round_quit (fuel i : nat) (pending_events : list Event.t) (event : Event.t)
    (line : string) (rest : list string) (w : World) :
  nth_error pending_events i = Some event ->
  stdin w = line :: rest -> types line "q" ->
  exists w1,
    review_loop validate_event_data parse_float now normalize (S fuel) i pending_events w
    = (Return pending_events, w1) /\
    events w1 = events w /\ pending w1 = pending w /\ rejected w1 = rejected w /\
    backups w1 = backups w /\ stdin w1 = rest.
Proof.
  intros Hi Hin Hq. eexists. split.
  - cbn [review_loop]. rewrite Hi. unfold bind, print, input.
    cbn [stdin set_console]. rewrite Hin, Hq. cbn. reflexivity.
  - cbn. auto.
Qed.

(** One round of the review loop: 'a' on an event that passes. *)
Lemma review_round_approve (fuel i : nat) (pending_events : list Event.t)
    (event validated : Event.t) (line : string) (rest : list string) (w : World) :
  nth_error pending_events i = Some event ->
  validate_event_data event = inr validated ->
  stdin w = line :: rest -> types line "a" ->
  exists w1,
    review_loop validate_event_data parse_float now normalize (S fuel) i pending_events w
    = review_loop validate_event_data parse_float now normalize fuel i
                  (Py.remove_nth i pending_events) w1 /\
    events w1 = events w ++ [publish_stamp now validated] /\
    pending w1 = pending w /\ rejected w1 = rejected w /\
    backups w1 = backups w ++ [publish_stamp now validated] /\ stdin w1 = rest.
Proof.
  intros Hi Hv Hin Ha. eexists. split.
  - cbn [review_loop]. rewrite Hi. unfold bind at 1 2, print, input.
    cbn [stdin set_console]. rewrite Hin, Ha. cbn [String.eqb Ascii.eqb Bool.eqb].
    unfold bind at 1, _approve_event. rewrite Hv.
    unfold bind, backup_published_event, load_events, save_events, ret.
    reflexivity.
  - cbn. auto.
Qed.

(** One round of the review loop: 'r'. *)
Lemma review_round_reject (fuel i : nat) (pending_events : list Event.t)
    (event : Event.t) (line : string) (rest : list string) (w : World) :
  nth_error pending_events i = Some event ->
  stdin w = line :: rest -> types line "r" ->
  exists w1,
    review_loop validate_event_data parse_float now normalize (S fuel) i pending_events w
    = review_loop validate_event_data parse_float now normalize fuel i
                  (Py.remove_nth i pending_events) w1 /\
    events w1 = events w /\ pending w1 = pending w /\
    rejected w1 =
      rejected w ++
      (if Py.truthy (Py.get_str (Event.title event))
          && Py.truthy (Py.get_str (Event.source event))
       then [mk_rejection (normalize (Py.get_str (Event.title event)))
                          (normalize (Py.get_str (Event.source event))) now]
       else []) /\
    backups w1 = backups w /\ stdin w1 = rest.
Proof.
  intros Hi Hin Hr.
  destruct (Py.truthy (Py.get_str (Event.title event))
            && Py.truthy (Py.get_str (Event.source event))) eqn:E;
    eexists; (split;
      [ cbn [review_loop]; rewrite Hi; unfold bind at 1 2, print, input;
        cbn [stdin set_console]; rewrite Hin, Hr;
        cbn [String.eqb Ascii.eqb Bool.eqb];
        unfold bind at 1, _reject_event; rewrite E;
        unfold add_rejected_event, ret; reflexivity
      | cbn; rewrite ?app_nil_r; auto 6 ]).
Qed.

(** One round of the review loop: 'b', then 'back' in batch mode.  The
    review starts over from what the pending store holds. *)
Lemma review_round_batch_back (fuel i : nat) (pending_events : list Event.t)
    (event : Event.t) (line1 line2 : string) (rest : list string) (w : World) :
  nth_error pending_events i = Some event ->
  stdin w = line1 :: line2 :: rest -> types line1 "b" -> types line2 "back" ->
  exists w1,
    review_loop validate_event_data parse_float now normalize (S (S fuel)) i
                pending_events w
    = review_loop validate_event_data parse_float now normalize (S fuel) 0
                  (pending w) w1 /\
    events w1 = events w /\ pending w1 = pending w /\ rejected w1 = rejected w /\
    backups w1 = backups w /\ stdin w1 = rest.
Proof.
  intros Hi Hin Hb Hback.
  destruct (print_rows_prints 0 pending_events []
              (set_stdin (line2 :: rest)
                 (set_console (console w ++
                    [ReviewHeader (i + 1) (List.length pending_events) event]) w)))
    as (out & Hout).
  eexists. split.
  - cbn [review_loop]. rewrite Hi. unfold bind at 1 2, print, input.
    cbn [stdin set_console]. rewrite Hin, Hb. cbn [String.eqb Ascii.eqb Bool.eqb].
    unfold bind at 1, _batch_selection_mode. cbn [batch_loop].
    unfold bind at 1. rewrite Hout.
    unfold bind at 1, input. cbn [stdin set_console set_stdin]. rewrite Hback.
    cbn [String.eqb Ascii.eqb Bool.eqb]. unfold ret.
    unfold bind at 1, load_pending_events. cbn [pending]. reflexivity.
  - cbn. auto.
Qed.

(** Approving the first pending event publishes it: it is stamped, backed
    up and appended to the published store, and once the review is left
    (nothing else pending, or 'q') the pending store no longer holds it. *)
Theorem approve_moves_to_published
    (event validated : Event.t) (others : list Event.t)
    (line : string) (rest : list string) (w : World) :
  pending w = event :: others ->
  validate_event_data event = inr validated ->
  stdin w = line :: rest -> types line "a" ->
  (others = [] \/ exists line2 rest', rest = line2 :: rest' /\ types line2 "q") ->
  exists w',
    review_pending validate_event_data parse_float now normalize w = (Return tt, w') /\
    events w' = events w ++ [publish_stamp now validated] /\
    backups w' = backups w ++ [publish_stamp now validated] /\
    pending w' = others /\ rejected w' = rejected w /\
    Event.status (publish_stamp now validated) = Some "published"%string /\
    Event.published_at (publish_stamp now validated) = Some now.
Proof.
  intros Hp Hv Hin Ha Hnext.
  rewrite (review_pending_unfold validate_event_data parse_float now normalize
             event others w Hp).
  rewrite Hin. cbn [List.length].
  destruct (review_round_approve (S (List.length rest)) 0 (event :: others)
              event validated line rest w eq_refl Hv Hin Ha)
    as (w1 & Hrun & He & Hpend & Hr & Hb & Hs).
  unfold bind. rewrite Hrun. cbn [Py.remove_nth firstn skipn app].
  destruct Hnext as [-> | (line2 & rest' & -> & Hq)].
  - rewrite review_round_done by reflexivity.
    eexists. split; [reflexivity |]. cbn. auto 7.
  - destruct others as [| o others].
    + rewrite review_round_done by reflexivity.
      eexists. split; [reflexivity |]. cbn. auto 7.
    + destruct (review_round_quit (S (List.length rest')) 0 (o :: others) o line2 rest' w1
                  eq_refl Hs Hq)
        as (w2 & Hrun2 & He2 & _ & Hr2 & Hb2 & _).
      cbn [List.length]. rewrite Hrun2.
      eexists. split; [reflexivity |]. cbn.
      rewrite He2, Hr2, Hb2, He, Hr, Hb. auto 7.
Qed.

(** Rejecting the first pending event removes it from the pending store
    and leaves the published store alone; a rejection record is written
    exactly when the event has both a title and a source. *)
Theorem reject_moves_to_rejected
    (event : Event.t) (others : list Event.t)
    (line : string) (rest : list string) (w : World) :
  pending w = event :: others ->
  stdin w = line :: rest -> types line "r" ->
  (others = [] \/ exists line2 rest', rest = line2 :: rest' /\ types line2 "q") ->
  exists w',
    review_pending validate_event_data parse_float now normalize w = (Return tt, w') /\
    events w' = events w /\ backups w' = backups w /\ pending w' = others /\
    rejected w' =
      rejected w ++
      (if Py.truthy (Py.get_str (Event.title event))
          && Py.truthy (Py.get_str (Event.source event))
       then [mk_rejection (normalize (Py.get_str (Event.title event)))
                          (normalize (Py.get_str (Event.source event))) now]
       else []).
Proof.
  intros Hp Hin Hr Hnext.
  rewrite (review_pending_unfold validate_event_data parse_float now normalize
             event others w Hp).
  rewrite Hin. cbn [List.length].
  destruct (review_round_reject (S (List.length rest)) 0 (event :: others)
              event line rest w eq_refl Hin Hr)
    as (w1 & Hrun & He & Hpend & Hrej & Hb & Hs).
  unfold bind. rewrite Hrun. cbn [Py.remove_nth firstn skipn app].
  destruct Hnext as [-> | (line2 & rest' & -> & Hq)].
  - rewrite review_round_done by reflexivity.
    eexists. split; [reflexivity |]. cbn. auto 7.
  - destruct others as [| o others].
    + rewrite review_round_done by reflexivity.
      eexists. split; [reflexivity |]. cbn. auto 7.
    + destruct (review_round_quit (S (List.length rest')) 0 (o :: others) o line2 rest' w1
                  eq_refl Hs Hq)
        as (w2 & Hrun2 & He2 & _ & Hr2 & Hb2 & _).
      cbn [List.length]. rewrite Hrun2.
      eexists. split; [reflexivity |]. cbn.
      rewrite He2, Hr2, Hb2, He, Hrej, Hb. auto 7.
Qed.

(** Progress that is not yet written is lost on the way through batch
    mode: after 'a' on the first event, 'b' and 'back' reload the pending
    store from disk, and on 'q' it is written back as it was.  The event is
    then both published and still pending. *)
Theorem approval_forgotten_after_batch_mode
    (event validated next : Event.t) (others : list Event.t)
    (l1 l2 l3 l4 : string) (rest : list string) (w : World) :
  pending w = event :: next :: others ->
  validate_event_data event = inr validated ->
  stdin w = l1 :: l2 :: l3 :: l4 :: rest ->
  types l1 "a" -> types l2 "b" -> types l3 "back" -> types l4 "q" ->
  exists w',
    review_pending validate_event_data parse_float now normalize w = (Return tt, w') /\
    events w' = events w ++ [publish_stamp now validated] /\
    pending w' = event :: next :: others.
Proof.
  intros Hp Hv Hin H1 H2 H3 H4.
  rewrite (review_pending_unfold validate_event_data parse_float now normalize
             event (next :: others) w Hp).
  rewrite Hin. cbn [List.length].
  destruct (review_round_approve (S (S (S (S (List.length rest))))) 0
              (event :: next :: others) event validated l1 (l2 :: l3 :: l4 :: rest) w
              eq_refl Hv Hin H1)
    as (w1 & Hrun1 & He1 & Hp1 & _ & _ & Hs1).
  unfold bind. rewrite Hrun1. cbn [Py.remove_nth firstn skipn app].
  destruct (review_round_batch_back (S (S (List.length rest))) 0 (next :: others) next
              l2 l3 (l4 :: rest) w1 eq_refl Hs1 H2 H3)
    as (w2 & Hrun2 & He2 & Hp2 & _ & _ & Hs2).
  rewrite Hrun2, Hp1, Hp.
  destruct (review_round_quit (S (S (List.length rest))) 0 (event :: next :: others)
              event l4 rest w2 eq_refl Hs2 H4)
    as (w3 & Hrun3 & He3 & _ & _ & _ & _).
  rewrite Hrun3. eexists. split; [reflexivity |]. cbn.
  rewrite He3, He2, He1. auto.
Qed.

End ReviewSteps.

Lemma approve_moves_to_published_witness :
  exists w',
    Editor.review_pending Scenario.require_title Scenario.no_float Scenario.noon
      Scenario.fold_key
      (Editor.mk_world [] [Examples.choir_new; Examples.big_art] [] [] []
                       ["A"; " q "]%string [])
    = (Editor.Return tt, w') /\
    Editor.events w' = [Editor.publish_stamp Scenario.noon Examples.choir_new] /\
    Editor.pending w' = [Examples.big_art].
Proof.
  destruct (approve_moves_to_published Scenario.require_title Scenario.no_float
              Scenario.noon Scenario.fold_key Examples.choir_new Examples.choir_new
              [Examples.big_art] "A" [" q "%string]
              (Editor.mk_world [] [Examples.choir_new; Examples.big_art] [] [] []
                               ["A"; " q "]%string []))
    as (w' & Hrun & He & _ & Hp & _); try reflexivity.
  - right. exists " q "%string, []. split; reflexivity.
  - exists w'. auto.
Defined.

Lemma reject_moves_to_rejected_witness :
  exists w',
    Editor.review_pending Scenario.require_title Scenario.no_float Scenario.noon
      Scenario.fold_key
      (Editor.mk_world [] [Scenario.spam] [] [] [] ["r"%string] [])
    = (Editor.Return tt, w') /\
    Editor.pending w' = [] /\
    Editor.rejected w' = [Editor.mk_rejection "spam party" "facebook" Scenario.noon].
Proof.
  destruct (reject_moves_to_rejected Scenario.require_title Scenario.no_float
              Scenario.noon Scenario.fold_key Scenario.spam [] "r" []
              (Editor.mk_world [] [Scenario.spam] [] [] [] ["r"%string] []))
    as (w' & Hrun & _ & _ & Hp & Hr); try reflexivity.
  - now left.
  - exists w'. auto.
Defined.

Lemma approval_forgotten_after_batch_mode_witness :
  exists w',
    Editor.review_pending Scenario.require_title Scenario.no_float Scenario.noon
      Scenario.fold_key
      (Editor.mk_world [] [Examples.choir_new; Examples.big_art] [] [] []
                       ["a"; "b"; "back"; "q"]%string [])
    = (Editor.Return tt, w') /\
    Editor.events w' = [Editor.publish_stamp Scenario.noon Examples.choir_new] /\
    Editor.pending w' = [Examples.choir_new; Examples.big_art].
Proof.
  apply (approval_forgotten_after_batch_mode Scenario.require_title Scenario.no_float
           Scenario.noon Scenario.fold_key Examples.choir_new Examples.choir_new
           Examples.big_art [] "a" "b" "back" "q" []);
    reflexivity.
Defined.

Section SelectionFacts.
Import Editor.

Lemma sel_mem_In (x : Z) (s : list Z) : sel_mem x s = true <-> In x s.
Proof.
  unfold sel_mem. rewrite existsb_exists. split.
  - intros (y & Hy & E). apply Z.eqb_eq in E. now subst.
  - intros H. exists x. split; [assumption | apply Z.eqb_refl].
Qed.

Lemma sel_mem_not_In (x : Z) (s : list Z) : sel_mem x s = false <-> ~ In x s.
Proof. rewrite <- sel_mem_In. destruct (sel_mem x s); split; congruence. Qed.

Lemma insert_z_desc_perm (x : Z) (l : list Z) : Permutation (insert_z_desc x l) (x :: l).
Proof.
  induction l as [| y l IH]; cbn; [reflexivity |].
  destruct (y <=? x)%Z; [reflexivity |]. rewrite IH. apply perm_swap.
Qed.

Lemma sorted_desc_perm (s : list Z) : Permutation (sorted_desc s) s.
Proof.
  induction s as [| x s IH]; cbn; [reflexivity |].
  rewrite insert_z_desc_perm. now constructor.
Qed.

Lemma insert_z_desc_sorted (x : Z) (l : list Z) :
  StronglySorted (fun a b => (b <= a)%Z) l ->
  StronglySorted (fun a b => (b <= a)%Z) (insert_z_desc x l).
Proof.
  induction l as [| y l IH]; intros Hs; cbn.
  - repeat constructor.
  - apply StronglySorted_inv in Hs. destruct Hs as [Hs Hy].
    destruct (Z.leb_spec y x) as [Hle | Hgt].
    + constructor; [now constructor |].
      constructor; [exact Hle |].
      eapply Forall_impl; [| exact Hy]. cbn. intros a Ha. lia.
    + constructor; [now apply IH |].
      eapply Permutation_Forall; [symmetry; apply insert_z_desc_perm |].
      constructor; [lia | exact Hy].
Qed.

Lemma sorted_desc_sorted (s : list Z) :
  StronglySorted (fun a b => (b <= a)%Z) (sorted_desc s).
Proof.
  induction s as [| x s IH]; cbn; [constructor | now apply insert_z_desc_sorted].
Qed.

Lemma sorted_strict (l : list Z) :
  NoDup l -> StronglySorted (fun a b => (b <= a)%Z) l ->
  StronglySorted (fun a b => (b < a)%Z) l.
Proof.
  induction l as [| a l IH]; intros Hnd Hs; [constructor |].
  apply StronglySorted_inv in Hs. destruct Hs as [Hs Ha].
  inversion Hnd as [| ? ? Hnotin Hnd']; subst.
  constructor; [now apply IH |].
  rewrite Forall_forall in *. intros b Hb. specialize (Ha b Hb).
  assert (b <> a) by (intros ->; contradiction). lia.
Qed.

Lemma sorted_desc_strict (s : list Z) :
  NoDup s -> StronglySorted (fun a b => (b < a)%Z) (sorted_desc s).
Proof.
  intros Hnd. apply sorted_strict; [| apply sorted_desc_sorted].
  eapply Permutation_NoDup; [symmetry; apply sorted_desc_perm | exact Hnd].
Qed.

(** The first index that a batch operation treats is the largest. *)
Lemma sorted_desc_head (s : list Z) (x : Z) :
  In x s -> exists h t, sorted_desc s = h :: t /\ (x <= h)%Z.
Proof.
  intros Hx.
  assert (Hx' : In x (sorted_desc s))
    by (eapply Permutation_in; [symmetry; apply sorted_desc_perm | exact Hx]).
  pose proof (sorted_desc_sorted s) as Hs.
  destruct (sorted_desc s) as [| h t]; [destruct Hx' |].
  exists h, t. split; [reflexivity |].
  apply StronglySorted_inv in Hs. destruct Hs as [_ Hh].
  destruct Hx' as [-> | Hx']; [lia |].
  rewrite Forall_forall in Hh. now apply Hh.
Qed.

Lemma unselected_from_ext (i : nat) (s s' : list Z) (l : list Event.t) :
  (forall x, sel_mem x s = sel_mem x s') ->
  unselected_from i s l = unselected_from i s' l.
Proof.
  intros H. revert i. induction l as [| e l IH]; intros i; cbn; [reflexivity |].
  now rewrite H, IH.
Qed.

Lemma unselected_from_none (i : nat) (s : list Z) (l : list Event.t) :
  (forall x, In x s -> (x < Z.of_nat i)%Z) -> unselected_from i s l = l.
Proof.
  revert i. induction l as [| e l IH]; intros i H; cbn; [reflexivity |].
  replace (sel_mem (Z.of_nat i) s) with false.
  - f_equal. apply IH. intros x Hx. specialize (H x Hx). lia.
  - symmetry. apply sel_mem_not_In. intros Hi. specialize (H _ Hi). lia.
Qed.

(** Popping position [k] and then leaving out smaller positions is leaving
    out [k] and those positions at once. *)
Lemma unselected_after_pop (k i : nat) (rest : list Z) (l : list Event.t) :
  k < List.length l ->
  (forall x, In x rest -> (x < Z.of_nat (i + k))%Z) ->
  unselected_from i rest (Py.remove_nth k l)
  = unselected_from i (Z.of_nat (i + k) :: rest) l.
Proof.
  revert i l. induction k as [| k IH]; intros i l Hk Hrest;
    destruct l as [| e l]; cbn in Hk; try lia.
  - cbn [Py.remove_nth firstn skipn app unselected_from].
    replace (i + 0) with i in * by lia.
    replace (sel_mem (Z.of_nat i) (Z.of_nat i :: rest)) with true
      by (symmetry; apply sel_mem_In; now left).
    rewrite (unselected_from_none i rest l)
      by (intros x Hx; specialize (Hrest x Hx); lia).
    rewrite (unselected_from_none (S i) (Z.of_nat i :: rest) l); [reflexivity |].
    intros x [<- | Hx]; [lia |]. specialize (Hrest x Hx). lia.
  - change (Py.remove_nth (S k) (e :: l)) with (e :: Py.remove_nth k l).
    cbn [unselected_from].
    assert (Hsame : sel_mem (Z.of_nat i) (Z.of_nat (i + S k) :: rest)
                    = sel_mem (Z.of_nat i) rest).
    { unfold sel_mem. cbn [existsb].
      destruct (Z.eqb_spec (Z.of_nat i) (Z.of_nat (i + S k))); [lia | reflexivity]. }
    rewrite Hsame.
    replace (i + S k) with (S i + k) in * by lia.
    rewrite (IH (S i) l) by (auto; lia).
    reflexivity.
Qed.

Lemma nth_error_remove_nth_lt {A} (k j : nat) (l : list A) :
  j < k -> nth_error (Py.remove_nth k l) j = nth_error l j.
Proof.
  intros Hj. unfold Py.remove_nth.
  destruct (Nat.le_gt_cases (List.length l) j) as [Hout | Hin].
  - rewrite (proj2 (nth_error_None l j)) by exact Hout.
    apply nth_error_None. rewrite length_app, length_firstn, length_skipn. lia.
  - rewrite nth_error_app1 by (rewrite length_firstn; lia).
    now rewrite nth_error_firstn, (proj2 (Nat.ltb_lt j k)) by exact Hj.
Qed.

Lemma In_remove_nth {A} (k : nat) (l : list A) (x : A) :
  In x (Py.remove_nth k l) -> In x l.
Proof.
  unfold Py.remove_nth. intros H. apply in_app_or in H.
  rewrite <- (firstn_skipn k l). apply in_or_app.
  destruct H as [H | H]; [now left | right].
  destruct (skipn k l) as [| y t] eqn:E.
  - assert (E' : skipn (S k) l = []).
    { apply skipn_all_iff. apply skipn_all_iff in E. lia. }
    rewrite E' in H. destruct H.
  - replace (skipn (S k) l) with t in H; [now right |].
    change (S k) with (1 + k). rewrite <- skipn_skipn, E. reflexivity.
Qed.

(** The loop of the batch operations, for indices in strictly descending
    order that are positions of the list, and an action that returns on
    the events of the list: every index still names the event it named at
    the start, and what is left are the events that were not selected. *)
Lemma for_each_selected_removes {A} (act : Event.t -> M A) (idxs : list Z)
    (pending_events : list Event.t) (w : World) :
  StronglySorted (fun a b => (b < a)%Z) idxs ->
  in_range (List.length pending_events) idxs ->
  (forall e w0, In e pending_events -> exists a w1, act e w0 = (Return a, w1)) ->
  exists w',
    for_each_selected act idxs pending_events w
    = (Return (unselected idxs pending_events), w').
Proof.
  revert pending_events w.
  induction idxs as [| idx rest IH]; intros pending_events w Hs Hr Hact.
  - exists w. cbn. unfold unselected. rewrite unselected_from_none; [reflexivity |].
    intros x [].
  - apply StronglySorted_inv in Hs. destruct Hs as [Hs Hidx].
    rewrite Forall_forall in Hidx.
    assert (Hi : (0 <= idx < Z.of_nat (List.length pending_events))%Z)
      by (apply Hr; now left).
    cbn [for_each_selected]. unfold Py.index.
    replace ((0 <=? idx)%Z && (idx <? Z.of_nat (List.length pending_events))%Z)
      with true by (symmetry; apply andb_true_iff; split; [apply Z.leb_le | apply Z.ltb_lt]; lia).
    destruct (nth_error pending_events (Z.to_nat idx)) as [e |] eqn:En.
    2:{ apply nth_error_None in En. lia. }
    destruct (Hact e w (nth_error_In _ _ En)) as (a & w1 & Ha).
    unfold bind. rewrite Ha.
    destruct (IH (Py.remove_nth (Z.to_nat idx) pending_events) w1 Hs) as (w' & Hrun).
    + intros x Hx. specialize (Hidx x Hx). specialize (Hr x (or_intror Hx)).
      unfold Py.remove_nth. rewrite length_app, length_firstn, length_skipn. lia.
    + intros e0 w0 He0. apply Hact. eapply In_remove_nth, He0.
    + exists w'. rewrite Hrun. f_equal. f_equal. unfold unselected.
      rewrite (unselected_after_pop (Z.to_nat idx) 0 rest pending_events).
      * cbn [Nat.add]. now rewrite Z2Nat.id by lia.
      * lia.
      * intros x Hx. specialize (Hidx x Hx). cbn [Nat.add]. lia.
Qed.

Lemma unselected_sorted_desc (s : list Z) (l : list Event.t) :
  unselected (sorted_desc s) l = unselected s l.
Proof.
  apply unselected_from_ext. intros x.
  destruct (sel_mem x s) eqn:E.
  - apply sel_mem_In. apply sel_mem_In in E.
    eapply Permutation_in; [symmetry; apply sorted_desc_perm | exact E].
  - apply sel_mem_not_In. apply sel_mem_not_In in E. intros H. apply E.
    eapply Permutation_in; [apply sorted_desc_perm | exact H].
Qed.

Lemma in_range_sorted_desc (n : nat) (s : list Z) :
  in_range n s -> in_range n (sorted_desc s).
Proof.
  intros H x Hx. apply H. eapply Permutation_in; [apply sorted_desc_perm | exact Hx].
Qed.

End SelectionFacts.

Section BatchMore.
Import Editor.

Variable validate_event_data : Event.t -> string + Event.t.
Variable now : string.
Variable normalize : string -> string.

(** What the action of a batch operation establishes for an event, and
    what no later action undoes, holds at the end for every selected
    event. *)
Lemma for_each_selected_marks {A} (act : Event.t -> M A) (Q : Event.t -> World -> Prop)
    (idxs : list Z) (pending_events : list Event.t) (w : World) :
  StronglySorted (fun a b => (b < a)%Z) idxs ->
  in_range (List.length pending_events) idxs ->
  (forall e w0, In e pending_events -> exists a w1, act e w0 = (Return a, w1)) ->
  (forall e w0, Q e (snd (act e w0))) ->
  (forall e e' w0, Q e w0 -> Q e (snd (act e' w0))) ->
  forall x e, In x idxs -> nth_error pending_events (Z.to_nat x) = Some e ->
              Q e (snd (for_each_selected act idxs pending_events w)).
Proof.
  intros Hs Hr Hact Hset Hkeep.
  assert (Hloop : forall e l p w0, Q e w0 -> Q e (snd (for_each_selected act l p w0))).
  { intros e l. induction l as [| i l IHl]; intros p w0 Hq; cbn; [exact Hq |].
    destruct (Py.index p i); [| exact Hq].
    destruct (nth_error p n); [| exact Hq].
    unfold bind. specialize (Hkeep e t w0 Hq).
    destruct (act t w0) as [[a | err] w1]; cbn in *; [now apply IHl | exact Hkeep]. }
  revert pending_events w Hs Hr Hact.
  induction idxs as [| idx rest IH]; intros pending_events w Hs Hr Hact x e Hx He;
    [destruct Hx |].
  apply StronglySorted_inv in Hs. destruct Hs as [Hs Hidx].
  rewrite Forall_forall in Hidx.
  assert (Hi : (0 <= idx < Z.of_nat (List.length pending_events))%Z)
    by (apply Hr; now left).
  cbn [for_each_selected]. unfold Py.index.
  replace ((0 <=? idx)%Z && (idx <? Z.of_nat (List.length pending_events))%Z)
    with true by (symmetry; apply andb_true_iff; split; [apply Z.leb_le | apply Z.ltb_lt]; lia).
  destruct (nth_error pending_events (Z.to_nat idx)) as [e0 |] eqn:En.
  2:{ apply nth_error_None in En. lia. }
  destruct (Hact e0 w (nth_error_In _ _ En)) as (a & w1 & Ha).
  unfold bind. rewrite Ha.
  destruct Hx as [-> | Hx].
  - assert (e0 = e) by congruence. subst e0.
    apply Hloop. specialize (Hset e w). now rewrite Ha in Hset.
  - pose proof (Hidx x Hx) as Hlt. pose proof (Hr x (or_intror Hx)) as Hx0.
    apply (IH (Py.remove_nth (Z.to_nat idx) pending_events) w1 Hs) with (x := x).
    + intros y Hy. pose proof (Hidx y Hy) as Hy1. pose proof (Hr y (or_intror Hy)).
      unfold Py.remove_nth. rewrite length_app, length_firstn, length_skipn. lia.
    + intros e1 w0 He1. apply Hact. eapply In_remove_nth, He1.
    + exact Hx.
    + rewrite nth_error_remove_nth_lt by lia. exact He.
Qed.

Lemma reject_event_returns (e : Event.t) (w : World) :
  exists w1, _reject_event now normalize e w = (Return tt, w1) /\
             events w1 = events w /\ backups w1 = backups w /\
             pending w1 = pending w /\ incl (rejected w) (rejected w1) /\
             (Py.truthy (Py.get_str (Event.title e)) = true ->
              Py.truthy (Py.get_str (Event.source e)) = true ->
              In (mk_rejection (normalize (Py.get_str (Event.title e)))
                               (normalize (Py.get_str (Event.source e))) now)
                 (rejected w1)).
Proof.
  unfold _reject_event.
  destruct (Py.truthy (Py.get_str (Event.title e))) eqn:Et;
    destruct (Py.truthy (Py.get_str (Event.source e))) eqn:Es; cbn;
    eexists; (split; [reflexivity |]); cbn;
    repeat split; auto using incl_refl, incl_appl; try discriminate.
  intros _ _. apply in_or_app. right. now left.
Qed.

(** A batch rejection over a selection of distinct positions of the list
    returns; the pending store then holds exactly the events that were not
    selected, in their order; the published store and the backups are as
    before; and every selected event with a title and a source has its
    rejection record. *)
Theorem batch_reject_removes_selected
    (pending_events : list Event.t) (selected : list Z) (w : World) :
  NoDup selected ->
  in_range (List.length pending_events) selected ->
  exists w',
    _batch_reject now normalize pending_events selected w
    = (Return (unselected selected pending_events), w') /\
    pending w' = unselected selected pending_events /\
    events w' = events w /\ backups w' = backups w /\
    (forall x e, In x selected ->
       nth_error pending_events (Z.to_nat x) = Some e ->
       Py.truthy (Py.get_str (Event.title e)) = true ->
       Py.truthy (Py.get_str (Event.source e)) = true ->
       In (mk_rejection (normalize (Py.get_str (Event.title e)))
                        (normalize (Py.get_str (Event.source e))) now)
          (rejected w')).
Proof.
  intros Hnd Hr.
  pose proof (sorted_desc_strict selected Hnd) as Hs.
  pose proof (in_range_sorted_desc _ _ Hr) as Hr'.
  assert (Hact : forall e w0, In e pending_events ->
                   exists a w1, _reject_event now normalize e w0 = (Return a, w1)).
  { intros e w0 _. destruct (reject_event_returns e w0) as (w1 & H & _). eauto. }
  destruct (for_each_selected_removes (_reject_event now normalize)
              (sorted_desc selected) pending_events w Hs Hr' Hact) as (w1 & Hrun).
  assert (Hsame : events w1 = events w /\ backups w1 = backups w).
  { assert (P : preserves (fun a b => events b = events a /\ backups b = backups a)
                  (for_each_selected (_reject_event now normalize)
                                     (sorted_desc selected) pending_events)).
    { apply preserves_for_each_selected.
      - intros; split; reflexivity.
      - intros a b c [H1 H2] [H3 H4]; split; congruence.
      - intros e w0. destruct (reject_event_returns e w0) as (w2 & E & He & Hb & _).
        rewrite E. cbn. auto. }
    specialize (P w). now rewrite Hrun in P. }
  assert (Hrec : forall x e, In x selected ->
            nth_error pending_events (Z.to_nat x) = Some e ->
            Py.truthy (Py.get_str (Event.title e)) = true ->
            Py.truthy (Py.get_str (Event.source e)) = true ->
            In (mk_rejection (normalize (Py.get_str (Event.title e)))
                             (normalize (Py.get_str (Event.source e))) now)
               (rejected w1)).
  { intros x e Hx He Ht Hsrc.
    pose proof (for_each_selected_marks (_reject_event now normalize)
                  (fun e0 w0 =>
                     Py.truthy (Py.get_str (Event.title e0)) = true ->
                     Py.truthy (Py.get_str (Event.source e0)) = true ->
                     In (mk_rejection (normalize (Py.get_str (Event.title e0)))
                                      (normalize (Py.get_str (Event.source e0))) now)
                        (rejected w0))
                  (sorted_desc selected) pending_events w Hs Hr' Hact) as H.
    rewrite Hrun in H. cbn [snd] in H. apply (H) with (x := x); auto.
    - intros e0 w0. destruct (reject_event_returns e0 w0) as (w2 & -> & _ & _ & _ & _ & Hin).
      exact Hin.
    - intros e0 e' w0 Hq Ht0 Hs0.
      destruct (reject_event_returns e' w0) as (w2 & -> & _ & _ & _ & Hincl & _).
      apply Hincl. auto.
    - eapply Permutation_in; [symmetry; apply sorted_desc_perm | exact Hx]. }
  exists (set_pending (unselected selected pending_events) w1).
  unfold _batch_reject, bind. rewrite Hrun, unselected_sorted_desc.
  split; [reflexivity |]. cbn. destruct Hsame. auto.
Qed.

Lemma approve_event_returns (e v : Event.t) (w : World) :
  validate_event_data e = inr v ->
  exists a w1, _approve_event validate_event_data now e w = (Return a, w1) /\
               backups w1 = backups w ++ [publish_stamp now v].
Proof.
  intros Hv. unfold _approve_event. rewrite Hv. eexists. eexists.
  split; [reflexivity | reflexivity].
Qed.

Lemma approve_event_keeps_backups (e : Event.t) (w : World) :
  incl (backups w) (backups (snd (_approve_event validate_event_data now e w))).
Proof.
  unfold _approve_event. destruct (validate_event_data e); cbn.
  - apply incl_refl.
  - apply incl_appl, incl_refl.
Qed.

(** A batch approval over a selection of distinct positions of a list whose
    events all pass validation returns; the pending store then holds
    exactly the events that were not selected, in their order; every
    selected event has its stamped backup; and the published store is what
    it was before the call. *)
Theorem batch_approve_removes_selected
    (pending_events : list Event.t) (selected : list Z) (w : World) :
  NoDup selected ->
  in_range (List.length pending_events) selected ->
  (forall e, In e pending_events -> exists v, validate_event_data e = inr v) ->
  exists w',
    _batch_approve validate_event_data now pending_events selected w
    = (Return (unselected selected pending_events), w') /\
    pending w' = unselected selected pending_events /\
    events w' = events w /\
    (forall x e v, In x selected ->
       nth_error pending_events (Z.to_nat x) = Some e ->
       validate_event_data e = inr v ->
       In (publish_stamp now v) (backups w')).
Proof.
  intros Hnd Hr Hvalid.
  pose proof (sorted_desc_strict selected Hnd) as Hs.
  pose proof (in_range_sorted_desc _ _ Hr) as Hr'.
  assert (Hact : forall e w0, In e pending_events ->
                   exists a w1, _approve_event validate_event_data now e w0
                                = (Return a, w1)).
  { intros e w0 He. destruct (Hvalid e He) as (v & Hv).
    destruct (approve_event_returns e v w0 Hv) as (a & w1 & H & _). eauto. }
  destruct (for_each_selected_removes (_approve_event validate_event_data now)
              (sorted_desc selected) pending_events w Hs Hr' Hact) as (w1 & Hrun).
  assert (Hrec : forall x e v, In x selected ->
            nth_error pending_events (Z.to_nat x) = Some e ->
            validate_event_data e = inr v ->
            In (publish_stamp now v) (backups w1)).
  { intros x e v Hx He Hv.
    pose proof (for_each_selected_marks (_approve_event validate_event_data now)
                  (fun e0 w0 => forall v0, validate_event_data e0 = inr v0 ->
                                           In (publish_stamp now v0) (backups w0))
                  (sorted_desc selected) pending_events w Hs Hr' Hact) as H.
    rewrite Hrun in H. cbn [snd] in H. apply (H) with (x := x) (e := e); auto.
    - intros e0 w0 v0 Hv0.
      destruct (approve_event_returns e0 v0 w0 Hv0) as (a & w2 & E1 & E2).
      rewrite E1. cbn [snd]. rewrite E2. apply in_or_app. right. now left.
    - intros e0 e' w0 Hq v0 Hv0. apply approve_event_keeps_backups. auto.
    - eapply Permutation_in; [symmetry; apply sorted_desc_perm | exact Hx]. }
  eexists. unfold _batch_approve, bind, load_events. rewrite Hrun.
  rewrite unselected_sorted_desc.
  split; [reflexivity |]. cbn. auto.
Qed.

(** A selection that reaches past the end of the list makes either batch
    operation raise [IndexError] at once: the largest index is treated
    first, and nothing has been approved, rejected or written. *)
Theorem batch_out_of_range_raises
    (pending_events : list Event.t) (selected : list Z) (x : Z) (w : World) :
  In x selected -> (Z.of_nat (List.length pending_events) <= x)%Z ->
  _batch_approve validate_event_data now pending_events selected w
    = (Raise IndexError, w) /\
  _batch_reject now normalize pending_events selected w = (Raise IndexError, w).
Proof.
  intros Hx Hout.
  destruct (sorted_desc_head selected x Hx) as (h & t & Hsort & Hh).
  assert (Hidx : Py.index pending_events h = None).
  { unfold Py.index.
    replace ((0 <=? h)%Z && (h <? Z.of_nat (List.length pending_events))%Z) with false
      by (symmetry; apply andb_false_iff; right; apply Z.ltb_ge; lia).
    replace ((- Z.of_nat (List.length pending_events) <=? h)%Z && (h <? 0)%Z) with false
      by (symmetry; apply andb_false_iff; right; apply Z.ltb_ge; lia).
    reflexivity. }
  unfold _batch_approve, _batch_reject, bind, load_events.
  rewrite Hsort. cbn [for_each_selected]. rewrite Hidx. split; reflexivity.
Qed.

End BatchMore.

Section SelectionCommands.
Import Editor.

Lemma sel_add_NoDup (x : Z) (s : list Z) : NoDup s -> NoDup (sel_add x s).
Proof.
  intros H. unfold sel_add. destruct (sel_mem x s) eqn:E; [exact H |].
  apply sel_mem_not_In in E. apply NoDup_app; [exact H | repeat constructor; intros [] |].
  intros y Hy [<- | []]. contradiction.
Qed.

Lemma In_sel_add (x y : Z) (s : list Z) : In y (sel_add x s) <-> y = x \/ In y s.
Proof.
  unfold sel_add. destruct (sel_mem x s) eqn:E.
  - apply sel_mem_In in E. split; [auto | intros [-> | H]; auto].
  - rewrite in_app_iff. cbn. intuition.
Qed.

Lemma sel_update_facts (xs s : list Z) :
  (NoDup s -> NoDup (sel_update s xs)) /\
  (forall y, In y (sel_update s xs) <-> In y s \/ In y xs).
Proof.
  unfold sel_update. revert s. induction xs as [| x xs IH]; intros s; cbn.
  - split; [auto | intros y; tauto].
  - destruct (IH (sel_add x s)) as [Hn Hi]. split.
    + intros H. apply Hn. now apply sel_add_NoDup.
    + intros y. rewrite Hi, In_sel_add. intuition (subst; auto).
Qed.

Lemma toggle_facts (n : nat) (s : list Z) (num : Z) :
  NoDup s -> in_range n s ->
  NoDup (toggle n s num) /\ in_range n (toggle n s num).
Proof.
  intros Hnd Hr. unfold toggle.
  destruct ((0 <=? num)%Z && (num <? Z.of_nat n)%Z) eqn:E; [| auto].
  apply andb_true_iff in E. destruct E as [E1 E2].
  apply Z.leb_le in E1. apply Z.ltb_lt in E2.
  destruct (sel_mem num s).
  - unfold sel_remove. split; [now apply NoDup_filter |].
    intros y Hy. apply filter_In in Hy. now apply Hr.
  - split; [now apply sel_add_NoDup |].
    intros y Hy. apply In_sel_add in Hy. destruct Hy as [-> | Hy]; [lia | now apply Hr].
Qed.

Lemma select_pattern_facts (pattern : string) (rows : list Event.t) (idx : nat)
    (n : nat) (s : list Z) :
  idx + List.length rows <= n -> NoDup s -> in_range n s ->
  NoDup (select_pattern pattern idx rows s) /\
  in_range n (select_pattern pattern idx rows s).
Proof.
  revert idx s. induction rows as [| e rows IH]; intros idx s Hlen Hnd Hr;
    cbn [select_pattern]; [auto |].
  cbn [List.length] in Hlen.
  apply IH; [lia | |].
  - destruct (Py.contains _ _); [now apply sel_add_NoDup | exact Hnd].
  - destruct (Py.contains _ _); [| exact Hr].
    intros y Hy. apply In_sel_add in Hy. destruct Hy as [-> | Hy]; [lia | now apply Hr].
Qed.

(** Toggling by number, 'all' and 'pattern' keep the selection a set of
    positions of the list; only 'range' can select past its ends. *)
Theorem selection_stays_in_range
    (pending_events : list Event.t) (selected : list Z) :
  NoDup selected -> in_range (List.length pending_events) selected ->
  (forall numbers,
     let s := fold_left (toggle (List.length pending_events)) numbers selected in
     NoDup s /\ in_range (List.length pending_events) s) /\
  (forall pattern,
     let s := select_pattern pattern 0 pending_events selected in
     NoDup s /\ in_range (List.length pending_events) s) /\
  (let s := sel_update [] (Py.range 0 (Z.of_nat (List.length pending_events))) in
   NoDup s /\ in_range (List.length pending_events) s /\
   unselected s pending_events = []).
Proof.
  intros Hnd Hr. split; [| split].
  - intros numbers. cbn zeta. revert selected Hnd Hr.
    induction numbers as [| num numbers IH]; intros selected Hnd Hr; cbn; [auto |].
    destruct (toggle_facts (List.length pending_events) selected num Hnd Hr).
    now apply IH.
  - intros pattern. cbn zeta. apply select_pattern_facts; auto.
  - cbn zeta.
    destruct (sel_update_facts (Py.range 0 (Z.of_nat (List.length pending_events))) [])
      as [Hn Hi].
    assert (Hrange : forall y, In y (Py.range 0 (Z.of_nat (List.length pending_events)))
                               <-> (0 <= y < Z.of_nat (List.length pending_events))%Z).
    { intros y. unfold Py.range. rewrite in_map_iff. split.
      - intros (k & <- & Hk). apply in_seq in Hk. lia.
      - intros Hy. exists (Z.to_nat y). split; [lia |]. apply in_seq. lia. }
    split; [apply Hn; constructor | split].
    + intros y Hy. apply Hi in Hy. destruct Hy as [[] | Hy]. now apply Hrange.
    + unfold unselected.
      assert (Hall : forall i l, i + List.length l <= List.length pending_events ->
                unselected_from i
                  (sel_update [] (Py.range 0 (Z.of_nat (List.length pending_events)))) l
                = []).
      { intros i l. revert i. induction l as [| e l IHl]; intros i Hl; cbn; [reflexivity |].
        cbn [List.length] in Hl.
        replace (sel_mem (Z.of_nat i) _) with true; [apply IHl; lia |].
        symmetry. apply sel_mem_In, Hi. right. apply Hrange. lia. }
      apply Hall. cbn. lia.
Qed.

End SelectionCommands.

(** What a review never takes away.  The relation is respected by the
    writes of the pending store, of the console and of the rejection store,
    by a single approval and by a batch approval; it is then respected by
    the whole review. *)
Section ReviewKeeps.
Import Editor.

Variable validate_event_data : Event.t -> string + Event.t.
Variable parse_float : string -> option Q.
Variable now : string.
Variable normalize : string -> string.

Variable R : World -> World -> Prop.
Hypothesis R_refl : forall w, R w w.
Hypothesis R_trans : forall w1 w2 w3, R w1 w2 -> R w2 w3 -> R w1 w3.
Hypothesis R_pending : forall l w, R w (set_pending l w).
Hypothesis R_console : forall l w, R w (set_console l w).
Hypothesis R_stdin : forall line rest w, stdin w = line :: rest -> R w (set_stdin rest w).
Hypothesis R_rejected : forall l w, R w (set_rejected (rejected w ++ l) w).
Hypothesis R_approve : forall e, preserves R (_approve_event validate_event_data now e).
Hypothesis R_batch_approve :
  forall p s, preserves R (_batch_approve validate_event_data now p s).

Ltac known L := solve [apply L; auto].

Ltac keep :=
  repeat first
    [ apply R_approve
    | apply R_batch_approve
    | known @preserves_ret
    | known @preserves_raise
    | known preserves_input
    | known preserves_print
    | known preserves_load_pending_events
    | known preserves_load_historical_events
    | known preserves_rounds
    | known preserves_save_pending_events
    | known preserves_reject_event
    | known preserves_edit_event
    | known preserves_batch_reject
    | known preserves_print_rows
    | known preserves_show_selected
    | solve [auto]
    | (apply preserves_bind; [exact R_trans | | intros ?])
    | match goal with
      | |- preserves R (if ?b then _ else _) => destruct b
      | |- preserves R (match ?x with _ => _ end) => destruct x
      end ].

Lemma keeps_batch_loop (fuel : nat) (pending_events : list Event.t) (selected : list Z) :
  preserves R (batch_loop validate_event_data now normalize fuel pending_events selected).
Proof.
  revert pending_events selected.
  induction fuel as [| fuel IH]; intros pending_events selected;
    cbn [batch_loop]; keep.
Qed.

Lemma keeps_review_loop (fuel i : nat) (pending_events : list Event.t) :
  preserves R (review_loop validate_event_data parse_float now normalize
                           fuel i pending_events).
Proof.
  revert i pending_events.
  induction fuel as [| fuel IH]; intros i pending_events;
    cbn [review_loop]; keep.
  unfold _batch_selection_mode. apply keeps_batch_loop.
Qed.

Lemma keeps_review_pending :
  preserves R (review_pending validate_event_data parse_float now normalize).
Proof. unfold review_pending. keep. apply keeps_review_loop. Qed.

End ReviewKeeps.

Section ReviewNeverLoses.
Import Editor.

Variable validate_event_data : Event.t -> string + Event.t.
Variable parse_float : string -> option Q.
Variable now : string.
Variable normalize : string -> string.

Lemma approve_event_grows (e : Event.t) (w : World) :
  let w' := snd (_approve_event validate_event_data now e w) in
  incl (events w) (events w') /\ incl (backups w) (backups w') /\
  incl (rejected w) (rejected w').
Proof.
  unfold _approve_event. destruct (validate_event_data e); cbn;
    repeat split; auto using incl_refl, incl_appl.
Qed.

Lemma batch_approve_grows (p : list Event.t) (s : list Z) (w : World) :
  let w' := snd (_batch_approve validate_event_data now p s w) in
  incl (events w) (events w') /\ incl (backups w) (backups w') /\
  incl (rejected w) (rejected w').
Proof.
  assert (P : preserves (fun a b => incl (events a) (events b) /\
                                    incl (backups a) (backups b) /\
                                    incl (rejected a) (rejected b))
                (for_each_selected (_approve_event validate_event_data now)
                                   (sorted_desc s) p)).
  { apply preserves_for_each_selected.
    - intros; repeat split; apply incl_refl.
    - intros a b c (H1 & H2 & H3) (H4 & H5 & H6);
        repeat split; eapply incl_tran; eauto.
    - intros e w0. apply approve_event_grows. }
  specialize (P w). unfold _batch_approve, bind, load_events.
  destruct (for_each_selected _ _ _ w) as [[left_over | err] w1]; cbn in *.
  - destruct P as (_ & Hb & Hr). repeat split; auto using incl_refl.
  - exact P.
Qed.

(** A review never takes away what was there: every event of the published
    store, every backup and every rejection record that a review finds is
    still there when it ends, however it ends. *)
Theorem review_never_loses (w : World) :
  let w' := snd (review_pending validate_event_data parse_float now normalize w) in
  incl (events w) (events w') /\ incl (backups w) (backups w') /\
  incl (rejected w) (rejected w').
Proof.
  apply (keeps_review_pending validate_event_data parse_float now normalize
           (fun a b => incl (events a) (events b) /\ incl (backups a) (backups b) /\
                       incl (rejected a) (rejected b))).
  - intros; repeat split; apply incl_refl.
  - intros a b c (H1 & H2 & H3) (H4 & H5 & H6);
      repeat split; eapply incl_tran; eauto.
  - intros; repeat split; apply incl_refl.
  - intros; repeat split; apply incl_refl.
  - intros; repeat split; apply incl_refl.
  - intros; cbn; repeat split; auto using incl_refl, incl_appl.
  - intros e w0. apply approve_event_grows.
  - intros p s w0. apply batch_approve_grows.
Qed.

End ReviewNeverLoses.

Lemma batch_reject_removes_selected_witness :
  exists w',
    Editor._batch_reject Scenario.noon Scenario.fold_key Scenario.first_five [0; 2]%Z
      (Editor.mk_world [] Scenario.first_five [] [] [] [] [])
    = (Editor.Return [Scenario.numbered "2"; Scenario.numbered "4"; Scenario.numbered "5"],
       w') /\
    Editor.pending w'
    = [Scenario.numbered "2"; Scenario.numbered "4"; Scenario.numbered "5"].
Proof.
  destruct (batch_reject_removes_selected Scenario.noon Scenario.fold_key
              Scenario.first_five [0; 2]%Z
              (Editor.mk_world [] Scenario.first_five [] [] [] [] []))
    as (w' & Hrun & Hp & _).
  - repeat constructor; cbn; intuition discriminate.
  - intros x [<- | [<- | []]]; cbn; lia.
  - exists w'. split; [exact Hrun | exact Hp].
Defined.

Lemma batch_approve_removes_selected_witness :
  exists w',
    Editor._batch_approve Scenario.require_title Scenario.noon Scenario.first_five
      [1; 4]%Z (Editor.mk_world [Examples.choir_old] Scenario.first_five [] [] [] [] [])
    = (Editor.Return [Scenario.numbered "1"; Scenario.numbered "3"; Scenario.numbered "4"],
       w') /\
    Editor.events w' = [Examples.choir_old].
Proof.
  destruct (batch_approve_removes_selected Scenario.require_title Scenario.noon
              Scenario.first_five [1; 4]%Z
              (Editor.mk_world [Examples.choir_old] Scenario.first_five [] [] [] [] []))
    as (w' & Hrun & _ & He & _).
  - repeat constructor; cbn; intuition discriminate.
  - intros x [<- | [<- | []]]; cbn; lia.
  - intros e He. exists e.
    repeat (destruct He as [<- | He]; [reflexivity |]). destruct He.
  - exists w'. split; [exact Hrun | exact He].
Defined.

Lemma batch_out_of_range_raises_witness :
  Editor._batch_approve Scenario.require_title Scenario.noon Scenario.first_five
    [0; 7]%Z (Editor.mk_world [] Scenario.first_five [] [] [] [] [])
  = (Editor.Raise Editor.IndexError,
     Editor.mk_world [] Scenario.first_five [] [] [] [] []).
Proof.
  apply (batch_out_of_range_raises Scenario.require_title Scenario.noon
           Scenario.fold_key Scenario.first_five [0; 7]%Z 7%Z).
  - right. now left.
  - cbn. lia.
Defined.

Lemma selection_stays_in_range_witness :
  in_range 5 (fold_left (Editor.toggle 5) [3; 9; 1; 3]%Z [1]%Z).
Proof.
  destruct (selection_stays_in_range Scenario.first_five [1]%Z) as (Hnum & _).
  - repeat constructor. intros [].
  - intros x [<- | []]. cbn. lia.
  - apply (Hnum [3; 9; 1; 3]%Z).
Defined.

(** ** The course listing of the adult education centre *)

Section StripFacts.
Import Py.

Lemma lstrip_chars_split (s : chars) :
  exists pre, s = pre ++ lstrip_chars s /\ Forall (fun c => is_space c = true) pre.
Proof.
  induction s as [| c s (pre & E & F)]; cbn.
  - now exists [].
  - destruct (is_space c) eqn:Hc.
    + exists (c :: pre). split; [cbn; now f_equal | now constructor].
    + now exists [].
Qed.

Lemma lstrip_chars_head (s : chars) (c : ascii) (r : chars) :
  lstrip_chars s = c :: r -> is_space c = false.
Proof.
  induction s as [| a s IH]; cbn; [discriminate |].
  destruct (is_space a) eqn:Ha; [exact IH |].
  intros [= <- <-]. exact Ha.
Qed.

Lemma lstrip_chars_fixed (s : chars) :
  match s with [] => True | c :: _ => is_space c = false end ->
  lstrip_chars s = s.
Proof. destruct s as [| c s]; cbn; [reflexivity | now intros ->]. Qed.

Lemma lstrip_chars_idem (s : chars) : lstrip_chars (lstrip_chars s) = lstrip_chars s.
Proof.
  apply lstrip_chars_fixed. destruct (lstrip_chars s) as [| c r] eqn:E; [exact I |].
  exact (lstrip_chars_head _ _ _ E).
Qed.

Lemma lstrip_chars_blanks (b s : chars) :
  Forall (fun c => is_space c = true) b -> lstrip_chars (b ++ s) = lstrip_chars s.
Proof. induction 1 as [| c b Hc _ IH]; cbn; [reflexivity | now rewrite Hc]. Qed.

Lemma strip_chars_split (s : chars) :
  exists pre post, s = pre ++ strip_chars s ++ post.
Proof.
  unfold strip_chars.
  destruct (lstrip_chars_split s) as (pre & E & _).
  destruct (lstrip_chars_split (rev (lstrip_chars s))) as (post & E' & _).
  exists pre, (rev post).
  rewrite <- rev_app_distr, <- E', rev_involutive. exact E.
Qed.

Lemma strip_chars_idem (s : chars) : strip_chars (strip_chars s) = strip_chars s.
Proof.
  unfold strip_chars.
  set (u := lstrip_chars s).
  destruct (lstrip_chars_split (rev u)) as (post & E & _).
  set (w := lstrip_chars (rev u)) in *.
  assert (Hu : u = rev w ++ rev post)
    by (rewrite <- rev_app_distr, <- E; symmetry; apply rev_involutive).
  assert (Hfix : lstrip_chars (rev w) = rev w).
  { apply lstrip_chars_fixed. destruct (rev w) as [| c r] eqn:Ew; [exact I |].
    apply (lstrip_chars_head s c (r ++ rev post)). fold u. now rewrite Hu. }
  rewrite Hfix, rev_involutive. unfold w. now rewrite lstrip_chars_idem.
Qed.

Lemma strip_of_chars (l : chars) :
  strip (string_of_list_ascii l) = string_of_list_ascii (strip_chars l).
Proof. unfold strip. now rewrite list_ascii_of_string_of_list_ascii. Qed.

Lemma space_is_no_digit (c : ascii) : is_space c = true -> is_digit c = false.
Proof. destruct c as [[] [] [] [] [] [] [] []]; vm_compute; congruence. Qed.

Lemma digit_is_no_space (c : ascii) : is_digit c = true -> is_space c = false.
Proof. destruct c as [[] [] [] [] [] [] [] []]; vm_compute; congruence. Qed.

Lemma skipn_suffix {A} (n : nat) (l : list A) : exists pre, l = pre ++ skipn n l.
Proof. exists (firstn n l). symmetry. apply firstn_skipn. Qed.

End StripFacts.

Section LocationLabels.
Import Py VHS.

Lemma if_text_some (s : chars) (loc : string) :
  if_text s = Some loc -> s <> [] /\ loc = string_of_list_ascii s.
Proof. destruct s; cbn; [discriminate | intros [= <-]; split; [discriminate | reflexivity]]. Qed.

Lemma stripped_part (text : string) (x pre : chars) (loc : string) :
  strip_chars (chars_of text) = pre ++ x ->
  if_text (strip_chars x) = Some loc ->
  loc <> ""%string /\ strip loc = loc /\ occurs loc text.
Proof.
  intros E H. apply if_text_some in H as (Hne & ->). repeat split.
  - destruct (strip_chars x); [congruence | discriminate].
  - now rewrite strip_of_chars, strip_chars_idem.
  - destruct (strip_chars_split (chars_of text)) as (a & b & Ea).
    destruct (strip_chars_split x) as (c & d & Ec).
    exists (string_of_list_ascii (a ++ pre ++ c)), (string_of_list_ascii (d ++ b)).
    rewrite <- !string_of_app.
    rewrite <- (string_of_list_ascii_of_string text). f_equal.
    rewrite Ea at 1. rewrite E. rewrite Ec at 1.
    now rewrite <- !app_assoc.
Qed.

(** Whatever [_extract_location_from_text] returns is a location worth the
    name: it is not empty, it has no blank at either end, and it is a piece
    of the given text, in the case the text has it. *)
Theorem extract_location_is_clean (text loc : string) :
  _extract_location_from_text text = Some loc ->
  loc <> ""%string /\ Py.strip loc = loc /\ occurs loc text.
Proof.
  unfold _extract_location_from_text.
  set (normalized := strip_chars (chars_of text)).
  destruct (ort_raum_pattern (lower_chars normalized)) as [n |]; cbn [bind_opt].
  - destruct (if_text (strip_chars (skipn n normalized))) as [l |] eqn:El.
    + intros [= <-]. destruct (skipn_suffix n normalized) as (pre & E).
      exact (stripped_part text _ pre l E El).
    + destruct (starts_with_chars (chars_of "ort") (lower_chars normalized));
        [| discriminate].
      destruct (lstrip_chars (skipn 3 normalized)) as [| c rest] eqn:Er; [discriminate |].
      destruct (Ascii.eqb c ":"%char) eqn:Ec.
      * apply Ascii.eqb_eq in Ec. subst c. intros H.
        destruct (skipn_suffix 3 normalized) as (p1 & E1).
        destruct (lstrip_chars_split (skipn 3 normalized)) as (p2 & E2 & _).
        apply (stripped_part text rest (p1 ++ p2 ++ [":"%char])); [| exact H].
        fold normalized. rewrite E1 at 1. rewrite E2 at 1. rewrite Er.
        now rewrite <- !app_assoc.
      * destruct c as [[] [] [] [] [] [] [] []]; try discriminate.
  - destruct (starts_with_chars (chars_of "ort") (lower_chars normalized));
      [| discriminate].
    destruct (lstrip_chars (skipn 3 normalized)) as [| c rest] eqn:Er; [discriminate |].
    destruct (Ascii.eqb c ":"%char) eqn:Ec.
    + apply Ascii.eqb_eq in Ec. subst c. intros H.
      destruct (skipn_suffix 3 normalized) as (p1 & E1).
      destruct (lstrip_chars_split (skipn 3 normalized)) as (p2 & E2 & _).
      apply (stripped_part text rest (p1 ++ p2 ++ [":"%char])); [| exact H].
      fold normalized. rewrite E1 at 1. rewrite E2 at 1. rewrite Er.
      now rewrite <- !app_assoc.
    + destruct c as [[] [] [] [] [] [] [] []]; try discriminate.
Qed.

End LocationLabels.

Section LabelWords.
Import Py VHS.

(** [_is_ort_label] takes the word for a label only when it ends there: a
    text that goes on after "ort" with anything but a blank, a colon or a
    slash, as "Ortschaft:" does, is no location label, in any case of the
    letters and whatever blanks surround it. *)
Theorem is_ort_label_rejects_longer_words (text : string) (c : ascii) (r : string) :
  Py.lower (Py.strip text) = ("ort" ++ String c r)%string ->
  is_space c = false -> c <> ":"%char -> c <> "/"%char ->
  _is_ort_label text = false.
Proof.
  intros E Hs Hc Hsl. unfold _is_ort_label.
  assert (En : lower_chars (strip_chars (chars_of text))
               = "o"%char :: "r"%char :: "t"%char :: c :: chars_of r).
  { change (_ :: _ :: _ :: c :: chars_of r) with (chars_of ("ort" ++ String c r)).
    rewrite <- E. unfold lower, strip.
    now rewrite !list_ascii_of_string_of_list_ascii. }
  rewrite En.
  apply Ascii.eqb_neq in Hc, Hsl. rewrite Ascii.eqb_sym in Hc, Hsl.
  unfold ort_raum_label, ort_raum, literal.
  cbn -[Ascii.eqb]. rewrite !Ascii.eqb_refl. cbn -[Ascii.eqb].
  rewrite Hs. cbn -[Ascii.eqb]. rewrite Hsl. cbn -[Ascii.eqb].
  rewrite Hc. reflexivity.
Qed.

End LabelWords.

Section ListingTitles.
Import Py VHS.

Lemma literal_some (p : string) (s r : chars) :
  literal p s = Some r -> s = chars_of p ++ r.
Proof.
  unfold literal. destruct (starts_with_chars (chars_of p) s) eqn:E; [| discriminate].
  apply starts_with_chars_spec in E as (post & ->). intros [= <-].
  now rewrite skipn_app, skipn_all, Nat.sub_diag.
Qed.

Lemma literal_app (p : string) (r : chars) : literal p (chars_of p ++ r) = Some r.
Proof.
  unfold literal.
  assert (E : starts_with_chars (chars_of p) (chars_of p ++ r) = true)
    by (apply starts_with_chars_spec; now exists r).
  rewrite E. now rewrite skipn_app, skipn_all, Nat.sub_diag.
Qed.

Lemma alternatives_some (ps : list string) (s r : chars) :
  alternatives ps s = Some r -> exists p, In p ps /\ s = chars_of p ++ r.
Proof.
  induction ps as [| p ps IH]; cbn; [discriminate |].
  destruct (literal p s) as [r' |] eqn:E.
  - intros [= <-]. exists p. split; [now left | now apply literal_some].
  - intros H. destruct (IH H) as (q & Hq & Es). exists q. split; [now right | exact Es].
Qed.

Lemma weekday_shape (wd : string) :
  In wd weekdays ->
  exists a b, chars_of wd = [a; b; "."%char] /\ a <> "."%char /\ b <> "."%char.
Proof.
  intros H. repeat (destruct H as [<- | H]; [eexists _, _; repeat split; discriminate |]).
  destruct H.
Qed.

Lemma alternatives_weekday (wd : string) (r : chars) :
  In wd weekdays -> alternatives weekdays (chars_of wd ++ r) = Some r.
Proof.
  intros H. repeat (destruct H as [<- | H]; [reflexivity |]). destruct H.
Qed.

Lemma search_none (s : chars) (n : nat) :
  (forall pre u, s = pre ++ u -> alternatives weekdays u = None) ->
  search n s = None.
Proof.
  revert n. induction s as [| c s IH]; intros n H.
  - cbn [search]. unfold match_here. now rewrite (H [] [] eq_refl).
  - cbn [search]. unfold match_here. rewrite (H [] (c :: s) eq_refl). cbn [bind_opt].
    apply IH. intros pre u ->. now apply (H (c :: pre) u).
Qed.

Lemma search_after (t s d r : chars) (n : nat) :
  match_here s = Some (d, r) ->
  (forall pre c u, t = pre ++ c :: u -> match_here (c :: u ++ s) = None) ->
  search n (t ++ s) = Some (n + List.length t, d, r).
Proof.
  intros Hs. revert n. induction t as [| c t IH]; intros n H.
  - cbn [app List.length]. rewrite Nat.add_0_r.
    destruct s; cbn [search]; now rewrite Hs.
  - cbn [app search List.length]. rewrite (H [] c t eq_refl).
    rewrite IH; [now rewrite Nat.add_succ_r |].
    intros pre a u ->. now apply (H (c :: pre) a u).
Qed.

Lemma digits_app (d r : chars) (hi : nat) :
  Forall (fun c => is_digit c = true) d ->
  List.length d <= hi ->
  List.length d = hi \/ match r with [] => True | c :: _ => is_digit c = false end ->
  digits hi (d ++ r) = (d, r).
Proof.
  intros Hd. revert hi. induction Hd as [| a d Ha _ IH]; intros hi Hle Hend.
  - destruct hi as [| hi]; [reflexivity |].
    destruct Hend as [E | Hr]; [discriminate |].
    destruct r as [| c r]; cbn; [reflexivity | now rewrite Hr].
  - destruct hi as [| hi]; cbn in Hle; [lia |].
    cbn. rewrite Ha, IH; [reflexivity | lia |].
    destruct Hend as [E | Hr]; [left; cbn in E; lia | now right].
Qed.

Lemma string_app_assoc (a b c : string) : ((a ++ b) ++ c = a ++ b ++ c)%string.
Proof. induction a as [| x a IH]; cbn; [reflexivity | now rewrite IH]. Qed.

Lemma length_chars_of (s : string) : List.length (chars_of s) = String.length s.
Proof. induction s as [| c s IH]; cbn; [reflexivity | f_equal; exact IH]. Qed.

Lemma digits_between_number (lo hi : nat) (n : string) (r : chars) :
  number lo hi n ->
  String.length n = hi \/ match r with [] => True | c :: _ => is_digit c = false end ->
  digits_between lo hi (chars_of n ++ r) = Some (chars_of n, r).
Proof.
  intros (Hd & Hlo & Hhi) Hend. unfold digits_between.
  rewrite digits_app; [| exact Hd | now rewrite length_chars_of
                      | now rewrite length_chars_of].
  rewrite length_chars_of. now apply Nat.leb_le in Hlo as ->.
Qed.

Lemma number_head (lo hi : nat) (n : string) (r : chars) :
  number (S lo) hi n ->
  exists c u, chars_of n ++ r = c :: u /\ is_digit c = true.
Proof.
  intros (Hd & Hlo & _). destruct n as [| c n]; cbn in Hlo; [lia |].
  exists c, (chars_of n ++ r). split; [reflexivity | now inversion Hd].
Qed.

Lemma lstrip_before_number (b : string) (lo hi : nat) (n : string) (r : chars) :
  blanks b -> number (S lo) hi n ->
  lstrip_chars (chars_of b ++ chars_of n ++ r) = chars_of n ++ r.
Proof.
  intros Hb Hn. rewrite lstrip_chars_blanks by exact Hb.
  destruct (number_head lo hi n r Hn) as (c & u & E & Hc).
  rewrite E. apply lstrip_chars_fixed. now apply digit_is_no_space.
Qed.

Lemma dot_is_no_digit (r : chars) :
  match chars_of "." ++ r with [] => True | c :: _ => is_digit c = false end.
Proof. reflexivity. Qed.

Lemma match_here_entry (wd b1 dd mm yy : string) (rest : chars) :
  In wd weekdays -> blanks b1 ->
  number 1 2 dd -> number 1 2 mm -> number 2 4 yy ->
  String.length yy = 4 \/
    match rest with [] => True | c :: _ => is_digit c = false end ->
  match_here (chars_of wd ++ chars_of b1 ++ chars_of dd ++ chars_of "." ++
              chars_of mm ++ chars_of "." ++ chars_of yy ++ rest)
  = Some (chars_of dd ++ chars_of "." ++ chars_of mm ++ chars_of "." ++ chars_of yy,
          time (lstrip_chars rest)).
Proof.
  intros Hwd Hb Hdd Hmm Hyy Hend. unfold match_here.
  rewrite alternatives_weekday by exact Hwd. cbn [bind_opt].
  rewrite (lstrip_before_number b1 0 2 dd) by assumption.
  unfold date.
  rewrite (digits_between_number 1 2 dd) by (assumption || (right; apply dot_is_no_digit)).
  cbn [bind_opt]. rewrite literal_app. cbn [bind_opt].
  rewrite (digits_between_number 1 2 mm) by (assumption || (right; apply dot_is_no_digit)).
  cbn [bind_opt]. rewrite literal_app. cbn [bind_opt].
  rewrite (digits_between_number 2 4 yy) by assumption.
  reflexivity.
Qed.

Lemma no_weekday_across (t : string) (wd : string) (pre u s : chars) (c : ascii) :
  dotless t -> In wd weekdays ->
  chars_of t = pre ++ c :: u ->
  match_here (c :: u ++ chars_of wd ++ s) = None.
Proof.
  intros Ht Hwd Et. unfold match_here.
  destruct (alternatives weekdays (c :: u ++ chars_of wd ++ s)) as [r |] eqn:E;
    [| reflexivity].
  exfalso. apply alternatives_some in E as (wd' & Hwd' & E).
  destruct (weekday_shape wd Hwd) as (a & b & Ewd & Ha & Hb).
  destruct (weekday_shape wd' Hwd') as (a' & b' & Ewd' & _ & _).
  rewrite Ewd, Ewd' in E.
  assert (Hu : forall x, In x (c :: u) -> x <> "."%char).
  { intros x Hx ->. apply Ht. rewrite Et.
    apply in_or_app. now right. }
  destruct u as [| y [| z u]]; cbn in E.
  - congruence.
  - congruence.
  - apply (Hu z); [right; right; now left | congruence].
Qed.

Lemma parse_listing_entry (t wd b1 dd mm yy rest : string) :
  dotless t -> In wd weekdays -> blanks b1 ->
  number 1 2 dd -> number 1 2 mm -> number 2 4 yy ->
  String.length yy = 4 \/
    match chars_of rest with [] => True | c :: _ => is_digit c = false end ->
  _parse_concatenated_title
    (t ++ wd ++ b1 ++ dd ++ "." ++ mm ++ "." ++ yy ++ rest)
  = (strip t, Some (dd ++ "." ++ mm ++ "." ++ yy)%string,
     if_text (strip_chars (time (lstrip_chars (chars_of rest))))).
Proof.
  intros Ht Hwd Hb Hdd Hmm Hyy Hend. unfold _parse_concatenated_title.
  rewrite !chars_of_append.
  rewrite (search_after (chars_of t) _ _ _ 0
             (match_here_entry wd b1 dd mm yy (chars_of rest) Hwd Hb Hdd Hmm Hyy Hend)).
  - cbn [Nat.add]. rewrite firstn_app, firstn_all, Nat.sub_diag, firstn_0, app_nil_r.
    unfold strip. f_equal. f_equal. f_equal.
    rewrite <- !chars_of_append.
    apply string_of_list_ascii_of_string.
  - intros pre c u E. now apply (no_weekday_across t wd pre u _ c).
Qed.

(** A title in which no weekday abbreviation occurs is returned as it is,
    stripped, with neither a date nor a location. *)
Theorem parse_title_without_weekday (raw_title : string) :
  (forall wd, In wd weekdays -> Py.contains wd raw_title = false) ->
  _parse_concatenated_title raw_title = (Py.strip raw_title, None, None).
Proof.
  intros H. unfold _parse_concatenated_title.
  rewrite search_none; [reflexivity |].
  intros pre u E. destruct (alternatives weekdays u) as [r |] eqn:Ea; [| reflexivity].
  exfalso. apply alternatives_some in Ea as (wd & Hwd & ->).
  specialize (H wd Hwd). unfold contains in H.
  assert (Hc : contains_chars (list_ascii_of_string wd)
                 (list_ascii_of_string raw_title) = true)
    by (apply contains_chars_spec; now exists pre, r).
  congruence.
Qed.

(** The listing format is read back: a title without a full stop, a
    weekday abbreviation, a date of day, month and year, a time of hour and
    minutes and a place, with any blanks after the weekday and before the
    time, split into the stripped title, the date as written and the
    stripped place.  The year has four digits, or a blank follows it. *)
Theorem parse_title_round_trip (t wd b1 dd mm yy b2 hh mi place : string) :
  dotless t -> In wd weekdays -> blanks b1 -> blanks b2 ->
  number 1 2 dd -> number 1 2 mm -> number 2 4 yy ->
  String.length yy = 4 \/ b2 <> ""%string ->
  number 1 2 hh -> number 2 2 mi ->
  _parse_concatenated_title
    (t ++ wd ++ b1 ++ dd ++ "." ++ mm ++ "." ++ yy ++ b2 ++ hh ++ ":" ++ mi ++ place)
  = (Py.strip t, Some (dd ++ "." ++ mm ++ "." ++ yy)%string, stripped_text place).
Proof.
  intros Ht Hwd Hb1 Hb2 Hdd Hmm Hyy Hend Hhh Hmi.
  rewrite parse_listing_entry; try assumption.
  - unfold stripped_text. f_equal. f_equal. f_equal.
    rewrite !chars_of_append.
    rewrite (lstrip_before_number b2 0 2 hh) by assumption.
    unfold time.
    rewrite (digits_between_number 1 2 hh) by (assumption || (right; reflexivity)).
    cbn [bind_opt]. rewrite literal_app. cbn [bind_opt].
    rewrite (digits_between_number 2 2 mi); [reflexivity | assumption |].
    left. destruct Hmi as (_ & H1 & H2). lia.
  - destruct Hend as [E | Hne]; [now left | right].
    rewrite chars_of_append.
    destruct b2 as [| c b2]; [congruence |]. cbn.
    apply space_is_no_digit. now inversion Hb2.
Qed.

(** The year takes as many as four digits: where a year of two digits is
    followed at once by the hour, the hour is read as the end of the year,
    and the colon and the minutes are the start of the location. *)
Theorem parse_title_short_year_takes_hour (t wd b1 dd mm yy hh rest : string) :
  dotless t -> In wd weekdays -> blanks b1 ->
  number 1 2 dd -> number 1 2 mm -> number 2 2 yy -> number 2 2 hh ->
  _parse_concatenated_title
    (t ++ wd ++ b1 ++ dd ++ "." ++ mm ++ "." ++ yy ++ hh ++ ":" ++ rest)
  = (Py.strip t, Some (dd ++ "." ++ mm ++ "." ++ yy ++ hh)%string,
     stripped_text (":" ++ rest)).
Proof.
  intros Ht Hwd Hb1 Hdd Hmm Hyy Hhh.
  assert (Hlen : String.length (yy ++ hh) = 4).
  { rewrite <- length_chars_of.
    rewrite chars_of_append, length_app. rewrite !length_chars_of.
    destruct Hyy as (_ & ? & ?), Hhh as (_ & ? & ?). lia. }
  assert (Hnum : number 2 4 (yy ++ hh)).
  { split; [| lia]. rewrite chars_of_append. apply Forall_app.
    split; [apply Hyy | apply Hhh]. }
  pose proof (parse_listing_entry t wd b1 dd mm (yy ++ hh) (":" ++ rest)
                Ht Hwd Hb1 Hdd Hmm Hnum (or_introl Hlen)) as P.
  rewrite string_app_assoc in P. exact P.
Qed.

End ListingTitles.

Lemma extract_location_is_clean_witness :
  "Rathaus Hof"%string <> ""%string /\
  Py.strip "Rathaus Hof" = "Rathaus Hof"%string /\
  occurs "Rathaus Hof" "  Ort / Raum:  Rathaus Hof ".
Proof.
  apply (extract_location_is_clean "  Ort / Raum:  Rathaus Hof " "Rathaus Hof").
  reflexivity.
Defined.

Lemma is_ort_label_rejects_longer_words_witness :
  VHS._is_ort_label " Ortschaft:" = false.
Proof.
  apply (is_ort_label_rejects_longer_words " Ortschaft:" "s"%char "chaft:").
  - reflexivity.
  - reflexivity.
  - discriminate.
  - discriminate.
Defined.

Lemma parse_title_without_weekday_witness :
  VHS._parse_concatenated_title "Yoga am Morgen " = ("Yoga am Morgen"%string, None, None).
Proof.
  apply (parse_title_without_weekday "Yoga am Morgen ").
  intros wd H. repeat (destruct H as [<- | H]; [reflexivity |]). destruct H.
Defined.

Lemma parse_title_round_trip_witness :
  VHS._parse_concatenated_title
    "Interkultureller ChorChorprobenDo. 08.01.2026 19:00Ludwigstrasse 7, 95028 Hof"
  = ("Interkultureller ChorChorproben"%string, Some "08.01.2026"%string,
     Some "Ludwigstrasse 7, 95028 Hof"%string).
Proof.
  apply (parse_title_round_trip "Interkultureller ChorChorproben" "Do." " "
           "08" "01" "2026" " " "19" "00" "Ludwigstrasse 7, 95028 Hof").
  - intros H. repeat (destruct H as [H | H]; [discriminate |]). exact H.
  - cbn. tauto.
  - repeat constructor.
  - repeat constructor.
  - split; [repeat constructor | cbn; lia].
  - split; [repeat constructor | cbn; lia].
  - split; [repeat constructor | cbn; lia].
  - now left.
  - split; [repeat constructor | cbn; lia].
  - split; [repeat constructor | cbn; lia].
Defined.

Lemma parse_title_short_year_takes_hour_witness :
  VHS._parse_concatenated_title "Yoga Fr.16.01.2619:30 Hof"
  = ("Yoga"%string, Some "16.01.2619"%string, Some ":30 Hof"%string).
Proof.
  apply (parse_title_short_year_takes_hour "Yoga " "Fr." "" "16" "01" "26" "19" "30 Hof").
  - intros H. repeat (destruct H as [H | H]; [discriminate |]). exact H.
  - cbn. tauto.
  - constructor.
  - split; [repeat constructor | cbn; lia].
  - split; [repeat constructor | cbn; lia].
  - split; [repeat constructor | cbn; lia].
  - split; [repeat constructor | cbn; lia].
Defined.

(** The no-break space is a blank to [strip], to [lstrip] and to [\s]. *)
Example no_break_space_is_a_blank :
  VHS._is_ort_label ("Ort" ++ Examples.nbsp ++ ":") = true /\
  VHS._extract_location_from_text ("Ort:" ++ Examples.nbsp ++ "Hof") = Some "Hof"%string /\
  VHS._parse_concatenated_title ("Yoga" ++ Examples.nbsp) = ("Yoga"%string, None, None) /\
  VHS._parse_concatenated_title
    ("Yoga" ++ Examples.nbsp ++ "Do. 08.01.2026 19:00Hof")
  = ("Yoga"%string, Some "08.01.2026"%string, Some "Hof"%string) /\
  VHS._parse_concatenated_title
    ("Yoga" ++ Examples.nbsp ++ "Fr.16.01.2619:30 Hof")
  = ("Yoga"%string, Some "16.01.2619"%string, Some ":30 Hof"%string).
Proof. repeat split; vm_compute; reflexivity. Qed.

(** [int] reads what Python reads: single underscores between digits, a
    sign, and blanks around the number. *)
Example int_reads_underscores :
  Py.int "1_0" = Some 10%Z /\ Py.int " +0_7 " = Some 7%Z /\
  Py.int (Examples.nbsp ++ "-12" ++ Examples.nbsp) = Some (-12)%Z /\
  Py.int "1__0" = None /\ Py.int "_1" = None /\ Py.int "1_" = None /\
  Py.int "- 5" = None.
Proof. repeat split; vm_compute; reflexivity. Qed.
